(** * The native payment flow ([src/payment-flows/native/native.js]) and the
      button-load logger ([triggerButtonLogs]), as state-passing programs.

    The JavaScript closures built by [initNative] are translated one by one
    into functions over an explicit [World]: the module-level [clean]
    variable, the cleanup registries it may point to, the closure variables
    of every [initNative] call ([approved], [cancelled], [didFallback], the
    memo cell of [destroy]), the futures handed out by [click], the shared
    switch-time storage, the clock with its pending [ZalgoPromise.delay]
    timers, and a chronological log of every call made to a collaborator
    (logger, merchant handlers, popup / socket / checkout / QR factories).

    ZalgoPromise runs [then]/[catch] handlers synchronously when the future
    they are chained on is already settled. A [Promise] value is the state of
    a future at the moment the flow chains on it: resolved, rejected or
    pending; a handler chained on a pending future is not run by the chaining
    call. The two futures the flow itself leaves pending come with their
    later settlement: the grace delay of the close callback (a timer on the
    clock) and the future built by [initPopupAppSwitch] (settled by the
    popup's detection callbacks). Every handler with side effects is a
    definition of its own ([onApprove_catch], [click_rethrow],
    [onClose_after_delay], [settle_click]): what is proved of it holds
    whenever it runs. *)

From stdpp Require Import base option list strings pretty gmap.
From Stdlib Require Import ZArith Lia.

Local Open Scope string_scope.
Local Open Scope Z_scope.

(** ** JavaScript values used by the flow *)

Inductive JsError :=
  | Error (message : string)
  | TypeError (message : string).

(** A synchronous call either returns or throws. *)
Inductive Result (A : Type) :=
  | Returns (a : A)
  | Throws (e : JsError).
Arguments Returns {A} a.
Arguments Throws {A} e.

(** The state of a future when the flow chains on it. *)
Inductive Promise (A : Type) :=
  | Resolved (a : A)
  | Rejected (e : JsError)
  | Pending.
Arguments Resolved {A} a.
Arguments Rejected {A} e.
Arguments Pending {A}.

(** [p.then(f)] for a handler [f] without side effects. *)
Definition then_ {A B} (p : Promise A) (f : A → B) : Promise B :=
  match p with
  | Resolved a => Resolved (f a)
  | Rejected e => Rejected e
  | Pending => Pending
  end.

(** [ZalgoPromise.all(ps)]: rejected by the first rejected member in array
    order, else pending while a member is pending, else resolved. *)
Fixpoint first_rejection {A} (ps : list (Promise A)) : option JsError :=
  match ps with
  | [] => None
  | Rejected e :: _ => Some e
  | _ :: ps' => first_rejection ps'
  end.

Definition is_pending {A} (p : Promise A) : bool :=
  match p with Pending => true | _ => false end.

Definition promise_all {A} (ps : list (Promise A)) : Promise unit :=
  match first_rejection ps with
  | Some e => Rejected e
  | None => if existsb is_pending ps then Pending else Resolved tt
  end.

(** [ZalgoPromise.try(f)]: a synchronous throw becomes a rejection. *)
Definition promise_try {A} (r : Result (Promise A)) : Promise A :=
  match r with
  | Returns p => p
  | Throws e => Rejected e
  end.

(** ** Constants imported from [../../constants] and [@paypal/sdk-constants]

    Their string values are not part of the flow; they are kept as names. *)

Inductive FptiKey :=
  | TRANSITION | INFO_MSG | ERROR_CODE | ERROR_DESC | STATE.

Inductive FptiTransition :=
  | NATIVE_ON_APPROVE | NATIVE_ON_APPROVE_ERROR | NATIVE_ON_CANCEL
  | NATIVE_ON_ERROR | NATIVE_ON_SHIPPING_CHANGE | NATIVE_ON_FALLBACK
  | NATIVE_DETECT_APP_SWITCH | NATIVE_DETECT_WEB_SWITCH | NATIVE_ERROR
  | VENMO_DESKTOP_PAY_QR_SHOWN | VENMO_DESKTOP_PAY_CLOSING_QR.

Inductive QrState := QR_DEFAULT | QR_AUTHORIZED | QR_ERROR.

Inductive TrackValue :=
  | TTransition (t : FptiTransition)
  | TTransitionWith (t : FptiTransition) (suffix : string)   (* `${ t }_${ suffix }` *)
  | TStateButton                                             (* FPTI_STATE.BUTTON *)
  | TText (s : string).

(** ** Data carried by the flow *)

(** Window handles, session UIDs and the resources created by the
    collaborators are opaque; each is named by a number. *)
Definition Win := nat.

Record Payment := {
  fundingSource : string;
  win : option Win;
  isClick : option bool;
  isNativeFallback : option bool;
  otherFields : string   (* button, card, buyerIntent, ...: carried along *)
}.

(** [{ ...payment, win: fallbackWin, isClick: false, isNativeFallback: true }] *)
Definition checkoutPayment (payment : Payment) (fallbackWin : option Win) : Payment :=
  {| fundingSource := fundingSource payment;
     win := fallbackWin;
     isClick := Some false;
     isNativeFallback := Some true;
     otherFields := otherFields payment |}.

Record ApproveMessage := {
  payerID : string;
  paymentID : option string;
  billingToken : option string
}.

(** The [data] object handed to the merchant's [onApprove]. *)
Record ApproveData := {
  ad_payerID : string;
  ad_paymentID : option string;
  ad_billingToken : option string;
  ad_forceRestAPI : bool
}.

(** [x || 'undefined'] inside a template string: [undefined] and the empty
    string are both falsy. *)
Definition or_undefined (x : option string) : string :=
  match x with
  | Some s => if decide (s = EmptyString) then "undefined" else s
  | None => "undefined"
  end.

(** The two actions handed to the merchant's [onShippingChange]. *)
Inductive ShippingAction := ActResolve | ActReject.

(** Teardown actions registered with the cleanup registry. *)
Inductive Task :=
  | ConnectionCancel (c : nat)     (* connection.cancel    *)
  | PopupCancel (p : nat)          (* nativePopup.cancel   *)
  | CheckoutClose (i : nat).       (* () => instance.close() *)

Global Instance Task_eq_dec : EqDecision Task.
Proof. solve_decision. Defined.

Definition task_id (t : Task) : nat :=
  match t with
  | ConnectionCancel c => c
  | PopupCancel p => p
  | CheckoutClose i => i
  end.

(** ** The log of calls made to collaborators *)

Inductive Event :=
  | EBrice (msg : string) (flag : bool)
  | EInfo (name : string) (payload : list (string * option string))
  | EError (name : string) (payload : list (string * option string))
  | ETrack (fields : list (FptiKey * TrackValue))
  | EFlush
  | EOnApprove (sid : nat) (data : ApproveData)
  | EOnCancel (sid : nat)
  | EOnError (sid : nat) (err : JsError)
  | EOnShippingChange (sid : nat) (data : string) (forceRestAPI : bool)
  | EConnectNative (c sid uid : nat)
  | ESetProps (c : nat)
  | EOpenNativePopup (p sid uid : nat)
  | ECheckoutInit (i sid : nat) (payment : Payment)
  | ECheckoutStart (i : nat)
  | EQRCode (q : nat) (cspNonce qrPath : string) (state : QrState)
  | EQRRenderTo (q : nat)
  | EQRClose (q : nat)
  | EUpdateQRCode (newState : QrState) (errorMessageText : option string)
  | ETeardown (t : Task).

Definition is_teardown (t : Task) (e : Event) : bool :=
  match e with
  | ETeardown t' => bool_decide (t' = t)
  | _ => false
  end.

Definition is_on_cancel (sid : nat) (e : Event) : bool :=
  match e with
  | EOnCancel sid' => bool_decide (sid' = sid)
  | _ => false
  end.

Definition opens_connection (e : Event) : bool :=
  match e with
  | EConnectNative _ _ _ => true
  | _ => false
  end.

Definition opens_popup (e : Event) : bool :=
  match e with
  | EOpenNativePopup _ _ _ => true
  | _ => false
  end.

Definition count (f : Event → bool) (l : list Event) : nat :=
  length (List.filter f l).

(** ** The world *)

(** Modelled from the spec: belter's [cleanup()] is imported, not part of the
    sources. A registry is the ordered sequence of teardown actions that are
    registered and have not run yet, with the flag [all()] raises. *)
Record Registry := {
  tasks : list Task;
  cleaned : bool
}.

(** The closure variables of one [initNative] call. *)
Record Session := {
  buttonSessionID : string;
  hasOnShippingChange : bool;
  payment : Payment;
  cspNonce : string;
  isVenmoDesktopPay : bool;
  approved : bool;
  cancelled : bool;
  didFallback : bool;
  destroyMemo : option (Promise unit)   (* memoize's cache for [destroy] *)
}.

(** One [openNativePopup] call: the popup keeps the [resolve]/[reject] pair
    of the future [click] returned, whose state is [clickFuture]. *)
Record Popup := {
  popupSession : nat;
  popupUID : nat;
  settled : bool;               (* [resolve] or [reject] was called *)
  clickFuture : Promise unit    (* the future after [click]'s [catch] *)
}.

Record SwitchState := {
  lastAppSwitchTime : option Z;
  lastWebSwitchTime : option Z
}.

Record World := {
  clean : option nat;            (* module-level [let clean] *)
  registries : list Registry;    (* every [cleanup()] made so far *)
  sessions : list Session;
  popups : gmap nat Popup;       (* keyed by the popup's resource id *)
  storage : SwitchState;
  now : Z;                       (* Date.now() *)
  timers : list (Z * nat);       (* due time, session of the close callback *)
  log : list Event;
  nextID : nat;                  (* next resource id *)
  nextUID : nat                  (* next uniqueID() *)
}.

Definition initial_world (t : Z) (st : SwitchState) : World :=
  {| clean := None; registries := []; sessions := []; popups := ∅;
     storage := st; now := t; timers := []; log := [];
     nextID := 0; nextUID := 0 |}.

(** Field updates. *)
Definition set_clean (c : option nat) (w : World) : World :=
  {| clean := c; registries := registries w; sessions := sessions w;
     popups := popups w; storage := storage w; now := now w;
     timers := timers w; log := log w; nextID := nextID w;
     nextUID := nextUID w |}.

Definition set_registries (r : list Registry) (w : World) : World :=
  {| clean := clean w; registries := r; sessions := sessions w;
     popups := popups w; storage := storage w; now := now w;
     timers := timers w; log := log w; nextID := nextID w;
     nextUID := nextUID w |}.

Definition set_sessions (s : list Session) (w : World) : World :=
  {| clean := clean w; registries := registries w; sessions := s;
     popups := popups w; storage := storage w; now := now w;
     timers := timers w; log := log w; nextID := nextID w;
     nextUID := nextUID w |}.

Definition set_popups (p : gmap nat Popup) (w : World) : World :=
  {| clean := clean w; registries := registries w; sessions := sessions w;
     popups := p; storage := storage w; now := now w;
     timers := timers w; log := log w; nextID := nextID w;
     nextUID := nextUID w |}.

Definition set_storage (st : SwitchState) (w : World) : World :=
  {| clean := clean w; registries := registries w; sessions := sessions w;
     popups := popups w; storage := st; now := now w;
     timers := timers w; log := log w; nextID := nextID w;
     nextUID := nextUID w |}.

Definition set_now (t : Z) (w : World) : World :=
  {| clean := clean w; registries := registries w; sessions := sessions w;
     popups := popups w; storage := storage w; now := t;
     timers := timers w; log := log w; nextID := nextID w;
     nextUID := nextUID w |}.

Definition set_timers (ts : list (Z * nat)) (w : World) : World :=
  {| clean := clean w; registries := registries w; sessions := sessions w;
     popups := popups w; storage := storage w; now := now w;
     timers := ts; log := log w; nextID := nextID w;
     nextUID := nextUID w |}.

Definition set_log (l : list Event) (w : World) : World :=
  {| clean := clean w; registries := registries w; sessions := sessions w;
     popups := popups w; storage := storage w; now := now w;
     timers := timers w; log := l; nextID := nextID w;
     nextUID := nextUID w |}.

Definition set_nextID (n : nat) (w : World) : World :=
  {| clean := clean w; registries := registries w; sessions := sessions w;
     popups := popups w; storage := storage w; now := now w;
     timers := timers w; log := log w; nextID := n;
     nextUID := nextUID w |}.

Definition set_nextUID (n : nat) (w : World) : World :=
  {| clean := clean w; registries := registries w; sessions := sessions w;
     popups := popups w; storage := storage w; now := now w;
     timers := timers w; log := log w; nextID := nextID w;
     nextUID := n |}.

Definition set_approved (b : bool) (s : Session) : Session :=
  {| buttonSessionID := buttonSessionID s;
     hasOnShippingChange := hasOnShippingChange s; payment := payment s;
     cspNonce := cspNonce s; isVenmoDesktopPay := isVenmoDesktopPay s;
     approved := b; cancelled := cancelled s; didFallback := didFallback s;
     destroyMemo := destroyMemo s |}.

Definition set_cancelled (b : bool) (s : Session) : Session :=
  {| buttonSessionID := buttonSessionID s;
     hasOnShippingChange := hasOnShippingChange s; payment := payment s;
     cspNonce := cspNonce s; isVenmoDesktopPay := isVenmoDesktopPay s;
     approved := approved s; cancelled := b; didFallback := didFallback s;
     destroyMemo := destroyMemo s |}.

Definition set_didFallback (b : bool) (s : Session) : Session :=
  {| buttonSessionID := buttonSessionID s;
     hasOnShippingChange := hasOnShippingChange s; payment := payment s;
     cspNonce := cspNonce s; isVenmoDesktopPay := isVenmoDesktopPay s;
     approved := approved s; cancelled := cancelled s; didFallback := b;
     destroyMemo := destroyMemo s |}.

Definition set_destroyMemo (m : option (Promise unit)) (s : Session) : Session :=
  {| buttonSessionID := buttonSessionID s;
     hasOnShippingChange := hasOnShippingChange s; payment := payment s;
     cspNonce := cspNonce s; isVenmoDesktopPay := isVenmoDesktopPay s;
     approved := approved s; cancelled := cancelled s;
     didFallback := didFallback s; destroyMemo := m |}.

(** ** Stateful computations *)

Definition M (A : Type) : Type := World → A * World.

Definition ret {A} (a : A) : M A := λ w, (a, w).

Definition bind {A B} (m : M A) (k : A → M B) : M B :=
  λ w, let (a, w') := m w in k a w'.

Notation "x <~ m ;; k" := (bind m (λ x, k))
  (at level 100, m at next level, right associativity).
Notation "m ;;; k" := (bind m (λ _, k))
  (at level 100, right associativity).

Definition emit (e : Event) : M unit :=
  λ w, (tt, set_log (log w ++ [e]) w).

Definition emits (es : list Event) : M unit :=
  λ w, (tt, set_log (log w ++ es) w).

(** A fresh resource id, for whatever a factory call creates. *)
Definition fresh : M nat :=
  λ w, (nextID w, set_nextID (S (nextID w)) w).

(** belter's [uniqueID()]. *)
Definition uniqueID : M nat :=
  λ w, (nextUID w, set_nextUID (S (nextUID w)) w).

Definition update_session (sid : nat) (f : Session → Session) : M unit :=
  λ w, (tt, set_sessions (alter f sid (sessions w)) w).

(** ** Collaborators

    Everything the flow calls and does not define: the merchant's handlers,
    the transport, the checkout flow, environment queries. Handlers follow
    their Flow types and return futures. *)

(** Modelled from the spec: what belter's [register] does once [all()] has
    run is not stated ("register(action) appends a teardown action"); belter
    itself calls the action at once. Both readings are covered. *)
Inductive LateRegister := RunAtOnce | Append.

Record InitOptions := {
  io_buttonSessionID : string;
  io_hasOnShippingChange : bool;     (* props.onShippingChange is supplied *)
  io_payment : Payment;
  io_firebase : option string;       (* config.firebase *)
  io_cspNonce : string               (* config.cspNonce *)
}.

Record Env := {
  canUseVenmoDesktopPay : string → bool;
  isAndroidChrome : bool;
  getNativePopupUrl : Session → string;
  stringifyError : JsError → string;
  stringifyErrorMessage : JsError → string;
  (* props.onApprove(data, actions): whether it calls [actions.restart()],
     and the future it returns *)
  userOnApprove : nat → ApproveData → bool * Promise unit;
  userOnCancel : nat → Promise unit;
  userOnError : nat → JsError → Promise unit;
  (* props.onShippingChange(data, actions): the actions it invokes, in
     order, before its future settles, and that future *)
  userOnShippingChange : nat → string → list ShippingAction * Promise unit;
  taskOutcome : Task → Promise unit;        (* what a teardown action returns *)
  setProps : nat → Promise unit;            (* connection.setProps() *)
  checkoutStart : nat → Promise unit;       (* instance.start() *)
  openNativePopupThrows : nat → option JsError;
  lateRegister : LateRegister
}.

Section Flow.

Variable env : Env.

(** *** Logger *)

Definition briceLog (msg : string) : M unit := emit (EBrice msg false).

Definition info_track_flush (name : string)
    (payload : list (string * option string))
    (fields : list (FptiKey * TrackValue)) : M unit :=
  emits [EInfo name payload; ETrack fields; EFlush].

(** *** Cleanup registry *)

(** Modelled from the spec: [cleanup()] makes an empty registry. *)
Definition cleanup : M nat :=
  λ w, (length (registries w),
        set_registries (registries w ++ [{| tasks := []; cleaned := false |}]) w).

(** Modelled from the spec: [register(action)] appends a teardown action.
    On a registry whose [all()] has run, it appends as well or, under
    [RunAtOnce], calls the action on the spot. *)
Definition register_in (rid : nat) (t : Task) : M unit :=
  λ w, match registries w !! rid with
       | Some r =>
           match cleaned r, lateRegister env with
           | true, RunAtOnce => emit (ETeardown t) w
           | c, _ =>
               (tt, set_registries
                      (<[rid := {| tasks := tasks r ++ [t]; cleaned := c |}]>
                         (registries w)) w)
           end
       | None => (tt, w)
       end.

(** Modelled from the spec: [all()] invokes every registered action, each at
    most once, and returns one future for all of them. *)
Definition all_in (rid : nat) : M (Promise unit) :=
  λ w, match registries w !! rid with
       | Some r =>
           (promise_all (map (taskOutcome env) (tasks r)),
            set_log (log w ++ map ETeardown (tasks r))
              (set_registries
                 (<[rid := {| tasks := []; cleaned := true |}]> (registries w))
                 w))
       | None => (Resolved tt, w)
       end.

(** [clean.register(t)] and [clean.all()]: [clean] is read when the call is
    made. It is defined whenever a closure of [initNative] runs. *)
Definition clean_register (t : Task) : M unit :=
  λ w, match clean w with
       | Some rid => register_in rid t w
       | None => (tt, w)
       end.

Definition clean_all : M (Promise unit) :=
  λ w, match clean w with
       | Some rid => all_in rid w
       | None => (Resolved tt, w)
       end.

(** *** [initNative] *)

Definition new_session (o : InitOptions) : M nat :=
  λ w, (length (sessions w),
        set_sessions
          (sessions w ++
             [{| buttonSessionID := io_buttonSessionID o;
                 hasOnShippingChange := io_hasOnShippingChange o;
                 payment := io_payment o;
                 cspNonce := io_cspNonce o;
                 isVenmoDesktopPay :=
                   canUseVenmoDesktopPay env (fundingSource (io_payment o));
                 approved := false;
                 cancelled := false;
                 didFallback := false;
                 destroyMemo := None |}]) w).

Definition initNative (o : InitOptions) : M (Result nat) :=
  briceLog "payment-flows/native.js/initNative" ;;;
  match io_firebase o with
  | None =>
      ret (Throws (Error "Can not run native flow without firebase config"))
  | Some _ =>
      (* if (clean) { clean.all(); } *)
      (λ w, match clean w with
            | Some rid => all_in rid w
            | None => (Resolved tt, w)
            end) ;;;
      (* clean = cleanup(); *)
      rid <~ cleanup ;;
      (λ w, (tt, set_clean (Some rid) w)) ;;;
      (* the flags, [destroy] and the other closures; the instance returned
         is named by the session *)
      sid <~ new_session o ;;
      ret (Returns sid)
  end.

(** *** Closures of one [initNative] call, for the session [sid] *)

Definition get_session (sid : nat) : M (option Session) :=
  λ w, (sessions w !! sid, w).

(** Modelled from the spec: belter's [memoize] is imported, not part of the
    sources. The first call runs the function and keeps what it returned;
    every later call is handed that same result ("first call's result is
    shared/awaited by all callers"). [cache] is the memo cell, [store]
    writes it. *)
Definition memoize {A} (cache : option A) (store : A → M unit) (f : M A)
    : M A :=
  match cache with
  | Some a => ret a
  | None => a <~ f ;; store a ;;; ret a
  end.

(** [destroy = memoize(() => { return clean.all(); })] *)
Definition destroy (sid : nat) : M (Promise unit) :=
  s <~ get_session sid ;;
  match s with
  | Some s =>
      memoize (destroyMemo s)
        (λ d, update_session sid (set_destroyMemo (Some d)))
        clean_all
  | None => ret Pending
  end.

Definition fallbackToWebCheckout (sid : nat) (fallbackWin : option Win)
    : M (Promise unit) :=
  briceLog "payment-flows/native.js/initNative -> fallbackToWebCheckout" ;;;
  update_session sid (set_didFallback true) ;;;
  s <~ get_session sid ;;
  match s with
  | Some s =>
      i <~ fresh ;;
      emit (ECheckoutInit i sid (checkoutPayment (payment s) fallbackWin)) ;;;
      clean_register (CheckoutClose i) ;;;
      emit (ECheckoutStart i) ;;;
      ret (checkoutStart env i)
  | None => ret Pending
  end.

Definition session_id_result (sid : nat) (p : Promise unit) : M (Promise string) :=
  s <~ get_session sid ;;
  ret (then_ p (λ _, from_option buttonSessionID EmptyString s)).

Definition approve_info_msg (m : ApproveMessage) : string :=
  "payerID: " ++ payerID m ++ ", paymentID: " ++ or_undefined (paymentID m)
  ++ ", billingToken: " ++ or_undefined (billingToken m).

Definition approve_payload (m : ApproveMessage) : list (string * option string) :=
  [("payerID", Some (payerID m)); ("paymentID", paymentID m);
   ("billingToken", billingToken m)].

(** The handler given to [onApprove(data, actions).catch(...)]. Its own
    result is [undefined]: what [onError] returns is dropped. *)
Definition onApprove_catch (sid : nat) (m : ApproveMessage) (err : JsError)
    : M unit :=
  info_track_flush "native_message_onapprove_error" (approve_payload m)
    [(TRANSITION, TTransition NATIVE_ON_APPROVE_ERROR);
     (INFO_MSG, TText ("Error: " ++ stringifyError env err))] ;;;
  emit (EOnError sid err).

Definition onApproveCallback (sid : nat) (m : ApproveMessage)
    : M (Promise string) :=
  update_session sid (set_approved true) ;;;
  info_track_flush "native_message_onapprove" (approve_payload m)
    [(TRANSITION, TTransition NATIVE_ON_APPROVE);
     (INFO_MSG, TText (approve_info_msg m))] ;;;
  let data := {| ad_payerID := payerID m; ad_paymentID := paymentID m;
                 ad_billingToken := billingToken m; ad_forceRestAPI := true |} in
  emit (EOnApprove sid data) ;;;
  let '(restart, outcome) := userOnApprove env sid data in
  (if restart then _ <~ fallbackToWebCheckout sid None ;; ret tt else ret tt) ;;;
  handled <~ match outcome with
             | Rejected err => onApprove_catch sid m err ;;; ret (Resolved tt)
             | Resolved _ => ret (Resolved tt)
             | Pending => ret Pending
             end ;;
  d <~ destroy sid ;;
  session_id_result sid (promise_all [handled; d]).

Definition onCancelCallback (sid : nat) : M (Promise string) :=
  briceLog "payment-flows/native.js/initNative -> onCancelCallback" ;;;
  update_session sid (set_cancelled true) ;;;
  info_track_flush "native_message_oncancel" []
    [(TRANSITION, TTransition NATIVE_ON_CANCEL)] ;;;
  emit (EOnCancel sid) ;;;
  d <~ destroy sid ;;
  session_id_result sid (promise_all [userOnCancel env sid; d]).

Definition onErrorCallback (sid : nat) (message : string)
    : M (Promise string) :=
  briceLog "payment-flows/native.js/initNative -> onErrorCallback" ;;;
  info_track_flush "native_message_onerror" [("err", Some message)]
    [(TRANSITION, TTransition NATIVE_ON_ERROR);
     (INFO_MSG, TText ("Error message: " ++ message))] ;;;
  emit (EOnError sid (Error message)) ;;;
  d <~ destroy sid ;;
  session_id_result sid (promise_all [userOnError env sid (Error message); d]).

(** The value of the local [resolved] once the handler has invoked the given
    actions: it starts at [true], [resolve] sets it, [reject] clears it. *)
Definition shipping_resolved (acts : list ShippingAction) : bool :=
  fold_left (λ _ a, match a with ActResolve => true | ActReject => false end)
    acts true.

Definition onShippingChangeCallback (sid : nat) (data : string)
    : M (Promise bool) :=
  info_track_flush "native_message_onshippingchange" []
    [(TRANSITION, TTransition NATIVE_ON_SHIPPING_CHANGE)] ;;;
  s <~ get_session sid ;;
  if from_option hasOnShippingChange false s then
    emit (EOnShippingChange sid data true) ;;;
    let '(acts, outcome) := userOnShippingChange env sid data in
    ret (then_ outcome (λ _, shipping_resolved acts))
  else
    ret (Resolved true).

Definition onFallbackCallback (sid : nat) : M (Promise string) :=
  info_track_flush "native_message_onfallback" []
    [(TRANSITION, TTransition NATIVE_ON_FALLBACK)] ;;;
  fallbackToWebCheckout sid None ;;;
  session_id_result sid (Resolved tt).

(** *** Switch detector *)

Definition switch_times (st : SwitchState) : list (string * option string) :=
  [("lastAppSwitchTime", Some (pretty (default 0 (lastAppSwitchTime st))));
   ("lastWebSwitchTime", Some (pretty (default 0 (lastWebSwitchTime st))))].

(** The three diagnostics of the [getStorageState] callback; [kind] is
    ["app"] or ["web"]. *)
Definition switch_diagnostics (kind : string) (st : SwitchState) : list Event :=
  let a := default 0 (lastAppSwitchTime st) in
  let b := default 0 (lastWebSwitchTime st) in
  (if bool_decide (a > b)
   then [EInfo (kind ++ "_switch_detect_with_previous_app_switch") (switch_times st)]
   else []) ++
  (if bool_decide (b > a)
   then [EInfo (kind ++ "_switch_detect_with_previous_web_switch") (switch_times st)]
   else []) ++
  (if bool_decide (a = 0) && bool_decide (b = 0)
   then [EInfo (kind ++ "_switch_detect_with_no_previous_switch") (switch_times st)]
   else []).

Definition record_app_switch : M unit :=
  λ w, (tt, set_storage
              {| lastAppSwitchTime := Some (now w);
                 lastWebSwitchTime := lastWebSwitchTime (storage w) |}
              (set_log (log w ++ switch_diagnostics "app" (storage w)) w)).

Definition record_web_switch : M unit :=
  λ w, (tt, set_storage
              {| lastAppSwitchTime := lastAppSwitchTime (storage w);
                 lastWebSwitchTime := Some (now w) |}
              (set_log (log w ++ switch_diagnostics "web" (storage w)) w)).

Definition detectAppSwitch (sid uid : nat) : M (Promise unit) :=
  record_app_switch ;;;
  info_track_flush "native_detect_app_switch" []
    [(TRANSITION, TTransition NATIVE_DETECT_APP_SWITCH)] ;;;
  c <~ fresh ;;
  emit (EConnectNative c sid uid) ;;;
  clean_register (ConnectionCancel c) ;;;
  emit (ESetProps c) ;;;
  ret (setProps env c).

Definition detectWebSwitch (sid : nat) (win : Win) : M (Promise unit) :=
  record_web_switch ;;;
  info_track_flush "native_detect_web_switch" []
    [(TRANSITION, TTransition NATIVE_DETECT_WEB_SWITCH)] ;;;
  fallbackToWebCheckout sid (Some win).

(** *** Close without resolution *)

(** [ZalgoPromise.delay(1000).then(...)]: the handler is queued on the clock. *)
Definition onCloseCallback (sid : nat) : M unit :=
  briceLog "payment-flows/native.js/initNative -> onCloseCallback" ;;;
  λ w, (tt, set_timers (timers w ++ [(now w + 1000, sid)]) w).

(** The handler that runs once the delay has elapsed. *)
Definition onClose_after_delay (sid : nat) : M (Promise unit) :=
  emit (EBrice "payment-flows/native.js/initNative -> onCloseCallback -> in promise" true) ;;;
  s <~ get_session sid ;;
  match s with
  | Some s =>
      if negb (approved s) && negb (cancelled s) && negb (didFallback s)
         && negb (isAndroidChrome env)
      then
        emit (EOnCancel sid) ;;;
        d <~ destroy sid ;;
        ret (promise_all [userOnCancel env sid; d])
      else ret (Resolved tt)
  | None => ret Pending
  end.

(** *** [click] and its two paths *)

(** The handler given to [destroy().then(...)] in [click]'s [catch]:
    [() => { getLogger().error(...).track(...).flush(); throw err; }]. *)
Definition click_rethrow (err : JsError) : M (Promise unit) :=
  emits [EError "native_error" [("err", Some (stringifyError env err))];
         ETrack [(TRANSITION, TTransition NATIVE_ERROR);
                 (ERROR_CODE, TText "native_error");
                 (ERROR_DESC, TText (stringifyErrorMessage env err))];
         EFlush] ;;;
  ret (Rejected err).

(** The handler of [click]'s [.catch]: [err => destroy().then(...)]. *)
Definition click_catch (sid : nat) (err : JsError) : M (Promise unit) :=
  d <~ destroy sid ;;
  match d with
  | Resolved _ => click_rethrow err
  | Rejected e => ret (Rejected e)
  | Pending => ret Pending
  end.

(** Closures of [initQRCode] for the QR component [q]. *)
Definition closeQRCode (sid q : nat) (event : string) : M unit :=
  info_track_flush ("VenmoDesktopPay_qrcode_closing_" ++ event) []
    [(STATE, TStateButton);
     (TRANSITION,
      if decide (event = EmptyString) then TTransition VENMO_DESKTOP_PAY_CLOSING_QR
      else TTransitionWith VENMO_DESKTOP_PAY_CLOSING_QR event)] ;;;
  onCloseCallback sid ;;;
  emit (EQRClose q).

Definition onApproveQR (sid q : nat) (m : ApproveMessage) : M (Promise string) :=
  emit (EUpdateQRCode QR_AUTHORIZED None) ;;;
  closeQRCode sid q "onApprove" ;;;
  onApproveCallback sid m.

Definition onCancelQR (sid q : nat) : M (Promise string) :=
  closeQRCode sid q "onCancel" ;;;
  onCancelCallback sid.

Definition onErrorQR (sid : nat) (message : string) : M (Promise string) :=
  emit (EUpdateQRCode QR_ERROR (Some message)) ;;;
  onErrorCallback sid message.

(** [f.then(...)] where [f] is one of the arrow functions above: a function
    has no [then] member, so the member is [undefined], and calling
    [undefined] throws a TypeError. *)
Definition function_then (f : string) : Result unit :=
  Throws (TypeError (f ++ ".then is not a function")).

Definition and_then {A B} (r : Result A) (k : A → Result B) : Result B :=
  match r with
  | Returns a => k a
  | Throws e => Throws e
  end.

(** The [callbacks] object literal passed to [connectNative] in
    [initQRCode]; its five properties are evaluated in source order, before
    [connectNative] is called. *)
Definition qr_callbacks : Result unit :=
  and_then (function_then "onApproveQR") (λ _,
  and_then (function_then "onCancelQR") (λ _,
  and_then (function_then "onErrorQR") (λ _,
  and_then (function_then "onFallbackCallback") (λ _,
  function_then "onShippingChangeCallback")))).

(** [window.xprops.getParent()] and the [QRCode] component are taken to
    work; [q] names the component instance. *)
Definition initQRCode (sid uid : nat) : M (Result unit) :=
  briceLog "payment-flows/native.js/initNative -> initQRCode " ;;;
  s <~ get_session sid ;;
  match s with
  | Some s =>
      let url := getNativePopupUrl env s in
      info_track_flush "VenmoDesktopPay_qrcode" []
        [(TRANSITION, TTransition VENMO_DESKTOP_PAY_QR_SHOWN)] ;;;
      q <~ fresh ;;
      emit (EQRCode q (cspNonce s) url QR_DEFAULT) ;;;
      emit (EQRRenderTo q) ;;;
      match qr_callbacks with
      | Throws e => ret (Throws e)
      | Returns _ =>
          c <~ fresh ;;
          emit (EConnectNative c sid uid) ;;;
          clean_register (ConnectionCancel c) ;;;
          ret (Returns tt)
      end
  | None => ret (Returns tt)
  end.

(** [openNativePopup({ ..., callbacks })] returning the popup [p]: the popup
    holds the [resolve]/[reject] pair of the future under construction. *)
Definition openNativePopup (p sid uid : nat) : M unit :=
  λ w, (tt, set_popups
              (<[p := {| popupSession := sid; popupUID := uid;
                         settled := false; clickFuture := Pending |}]>
                 (popups w))
              (set_log (log w ++ [EOpenNativePopup p sid uid]) w)).

(** [new ZalgoPromise((resolve, reject) => { ... })]: a throw inside the
    executor rejects the future. Returns the popup when one was opened. *)
Definition initPopupAppSwitch (sid uid : nat) : M (Result nat) :=
  briceLog "payment-flows/native.js/initNative -> initPopupAppSwitch " ;;;
  match openNativePopupThrows env uid with
  | Some e => ret (Throws e)
  | None =>
      p <~ fresh ;;
      openNativePopup p sid uid ;;;
      clean_register (PopupCancel p) ;;;
      ret (Returns p)
  end.

Definition click (sid : nat) : M (Promise unit) :=
  briceLog "payment-flows/native.js/initNative -> click " ;;;
  s <~ get_session sid ;;
  match s with
  | Some s =>
      uid <~ uniqueID ;;
      if isVenmoDesktopPay s then
        r <~ initQRCode sid uid ;;
        match r with
        | Returns _ => ret (Resolved tt)
        | Throws err => click_catch sid err
        end
      else
        r <~ initPopupAppSwitch sid uid ;;
        match r with
        | Returns _ => ret Pending
        | Throws err => click_catch sid err
        end
  | None => ret Pending
  end.

(** *** Popup callbacks that settle the future of [click] *)

(** [.then(resolve, reject)] on the outcome of a detection, for the popup
    [p]: the first call settles the future, later calls do nothing; a
    rejection runs [click]'s [catch] handler. *)
Definition settle_click (p : nat) (r : Promise unit) : M unit :=
  λ w, match popups w !! p with
       | Some pp =>
           if settled pp then (tt, w)
           else
             match r with
             | Pending => (tt, w)
             | Resolved _ =>
                 (tt, set_popups
                        (<[p := {| popupSession := popupSession pp;
                                   popupUID := popupUID pp; settled := true;
                                   clickFuture := Resolved tt |}]> (popups w)) w)
             | Rejected err =>
                 let (q, w') := click_catch (popupSession pp) err w in
                 (tt, set_popups
                        (<[p := {| popupSession := popupSession pp;
                                   popupUID := popupUID pp; settled := true;
                                   clickFuture := q |}]> (popups w')) w')
             end
       | None => (tt, w)
       end.

Definition onDetectWebSwitch (p : nat) (win : Win) : M unit :=
  λ w, match popups w !! p with
       | Some pp =>
           (r <~ detectWebSwitch (popupSession pp) win ;; settle_click p r) w
       | None => (tt, w)
       end.

Definition onDetectAppSwitch (p : nat) : M unit :=
  λ w, match popups w !! p with
       | Some pp =>
           (r <~ detectAppSwitch (popupSession pp) (popupUID pp) ;;
            settle_click p r) w
       | None => (tt, w)
       end.

(** *** The clock *)

(** Time passes; every delay that has elapsed runs its handler, oldest
    first. *)
Definition elapse (dt : positive) : M unit :=
  λ w,
    let t := now w + Z.pos dt in
    let due := List.filter (λ x, bool_decide (fst x ≤ t)) (timers w) in
    let rest := List.filter (λ x, negb (bool_decide (fst x ≤ t))) (timers w) in
    (tt, fold_left (λ w' x, snd (onClose_after_delay (snd x) w')) due
           (set_timers rest (set_now t w))).

(** *** Everything that can happen to the flow

    Calls of the host ([init], [click], [start], [close]), messages and
    detections delivered by a popup or a connection, and the passing of
    time. The closures of [initQRCode] are never handed to a connection (see
    [qr_callbacks]), so no step delivers to them. *)

Inductive Step :=
  | SInit (o : InitOptions)                (* native.init(...)          *)
  | SClick (sid : nat)                     (* instance.click()          *)
  | SStart (sid : nat)                     (* instance.start()          *)
  | SClose (sid : nat)                     (* instance.close()          *)
  | SApprove (sid : nat) (m : ApproveMessage)
  | SCancel (sid : nat)
  | SError (sid : nat) (message : string)
  | SFallback (sid : nat)
  | SShippingChange (sid : nat) (data : string)
  | SPopupClose (sid : nat)                (* popup onClose             *)
  | SPopupDestroy (sid : nat)              (* popup onDestroy           *)
  | SDetectWebSwitch (p : nat) (win : Win)
  | SDetectAppSwitch (p : nat)
  | SElapse (dt : positive).

Definition ignore {A} (m : M A) : World → World := λ w, snd (m w).

Definition step (st : Step) : World → World :=
  match st with
  | SInit o => ignore (initNative o)
  | SClick sid => ignore (click sid)
  | SStart sid => λ w, w
  | SClose sid => ignore (destroy sid)
  | SApprove sid m => ignore (onApproveCallback sid m)
  | SCancel sid => ignore (onCancelCallback sid)
  | SError sid message => ignore (onErrorCallback sid message)
  | SFallback sid => ignore (onFallbackCallback sid)
  | SShippingChange sid data => ignore (onShippingChangeCallback sid data)
  | SPopupClose sid => ignore (onCloseCallback sid)
  | SPopupDestroy sid => ignore (destroy sid)
  | SDetectWebSwitch p win => ignore (onDetectWebSwitch p win)
  | SDetectAppSwitch p => ignore (onDetectAppSwitch p)
  | SElapse dt => ignore (elapse dt)
  end.

Definition run (steps : list Step) (w : World) : World :=
  fold_left (λ w' st, step st w') steps w.

End Flow.

(** * [triggerButtonLogs] *)

Module ButtonLogs.

Inductive Key :=
  | TRANSITION | FUNDING_LIST | FUNDING_COUNT | PAGE_LOAD_TIME
  | BUTTON_LAYOUT | BUTTON_COLOR | BUTTON_SIZE | BUTTON_SHAPE | BUTTON_LABEL
  | BUTTON_WIDTH | BUTTON_TYPE.

Inductive Value :=
  | VButtonLoad                 (* FPTI_TRANSITION.BUTTON_LOAD *)
  | VIframe                     (* FPTI_BUTTON_TYPE.IFRAME     *)
  | VString (s : string)
  | VNumber (n : Z)
  | VUndefined.

Inductive LogEvent :=
  | Warn (name : string)
  | Track (fields : list (Key * Value))
  | Flush.

Record Style := {
  layout : option string;
  color : option string;
  size : option string;
  shape : option string;
  label : option string
}.

Record XProps := { style : option Style }.

(** A DOM element, as its attributes. *)
Definition Element := list (string * string).

Record Page := {
  isIEIntranet : bool;
  xprops : option XProps;                 (* window.xprops *)
  pageRenderTime : Promise (option Z);    (* getPageRenderTime() *)
  document : list Element;
  innerWidth : Z
}.

Section Constants.

(** [DATA_ATTRIBUTES.FUNDING_SOURCE], [DATA_ATTRIBUTES.CARD] and
    [FUNDING.CARD] come from modules outside the sources. *)
Variables (ATTR_FUNDING_SOURCE ATTR_CARD FUNDING_CARD : string).

Definition getAttribute (el : Element) (name : string) : option string :=
  snd <$> List.find (λ kv, bool_decide (fst kv = name)) el.

Definition truthy (x : option string) : bool :=
  match x with
  | Some s => negb (bool_decide (s = EmptyString))
  | None => false
  end.

(** [a || b] *)
Definition or_else (a b : option string) : option string :=
  if truthy a then a else b.

Definition fundingSources (doc : list Element) : list string :=
  omap (λ source, if truthy source
                     && negb (bool_decide (source = Some FUNDING_CARD))
                  then source else None)
    (map (λ el, or_else (getAttribute el ATTR_CARD)
                  (getAttribute el ATTR_FUNDING_SOURCE))
       (List.filter (λ el, bool_decide (is_Some (getAttribute el ATTR_FUNDING_SOURCE)))
          doc)).

Fixpoint join (sep : string) (l : list string) : string :=
  match l with
  | [] => EmptyString
  | [x] => x
  | x :: l' => x ++ sep ++ join sep l'
  end.

Definition opt_value (x : option string) : Value :=
  match x with
  | Some s => VString s
  | None => VUndefined
  end.

Definition button_load_record (pg : Page) (xp : XProps) (t : option Z)
    : list (Key * Value) :=
  let sources := fundingSources (document pg) in
  let st := default {| layout := None; color := None; size := None;
                       shape := None; label := None |} (style xp) in
  [(TRANSITION, VButtonLoad);
   (FUNDING_LIST, VString (join ":" sources));
   (FUNDING_COUNT, VString (pretty (length sources)));
   (PAGE_LOAD_TIME,
    VString (match t with
             | Some n => if bool_decide (n = 0) then EmptyString else pretty n
             | None => EmptyString
             end));
   (BUTTON_LAYOUT, opt_value (layout st));
   (BUTTON_COLOR, opt_value (color st));
   (BUTTON_SIZE, opt_value (size st));
   (BUTTON_SHAPE, opt_value (shape st));
   (BUTTON_LABEL, opt_value (label st));
   (BUTTON_WIDTH, VNumber (innerWidth pg));
   (BUTTON_TYPE, VIframe)].

(** The call returns or throws, and leaves a log of what it told the logger. *)
Definition triggerButtonLogs (pg : Page) : Result unit * list LogEvent :=
  let warned :=
    if isIEIntranet pg then [Warn "button_child_intranet_mode"] else [] in
  match xprops pg with
  | None => (Throws (Error "No xprops found"), warned)
  | Some xp =>
      (Returns tt,
       (warned ++
        match pageRenderTime pg with
        | Resolved t => [Track (button_load_record pg xp t); Flush]
        | Rejected _ => []
        | Pending => []
        end)%list)
  end.

Definition is_track (e : LogEvent) : bool :=
  match e with
  | Track _ => true
  | _ => false
  end.

End Constants.

End ButtonLogs.

(** * Vocabulary of the statements *)

Local Open Scope list_scope.

(** ** Reference collaborators and worlds, used to exercise the statements *)

Definition sample_payment (funding : string) : Payment :=
  {| fundingSource := funding; win := None; isClick := Some true;
     isNativeFallback := None; otherFields := "button,card,buyerIntent" |}.

Definition sample_options (funding : string) (firebase : option string)
    : InitOptions :=
  {| io_buttonSessionID := "uid_button_session";
     io_hasOnShippingChange := true;
     io_payment := sample_payment funding;
     io_firebase := firebase;
     io_cspNonce := "nonce" |}.

Definition error_message (e : JsError) : string :=
  match e with
  | Error m => m
  | TypeError m => m
  end.

(** A merchant whose [onApprove] rejects and whose [onShippingChange] calls
    [resolve] then [reject]; a socket whose [setProps] rejects; teardown
    actions that resolve; the funding source "venmo" has the desktop-pay
    capability. *)
Definition sample_env : Env :=
  {| canUseVenmoDesktopPay := λ f, bool_decide (f = "venmo");
     isAndroidChrome := false;
     getNativePopupUrl := λ _, "https://www.paypal.com/smart/checkout/native/popup";
     stringifyError := error_message;
     stringifyErrorMessage := error_message;
     userOnApprove := λ _ _, (false, Rejected (Error "capture failed"));
     userOnCancel := λ _, Resolved tt;
     userOnError := λ _ _, Resolved tt;
     userOnShippingChange := λ _ _, ([ActResolve; ActReject], Resolved tt);
     taskOutcome := λ _, Resolved tt;
     setProps := λ c, Rejected (Error "socket closed");
     checkoutStart := λ _, Resolved tt;
     openNativePopupThrows := λ _, None;
     lateRegister := RunAtOnce |}.

Definition sample_world : World :=
  initial_world 1600000000000
    {| lastAppSwitchTime := None; lastWebSwitchTime := None |}.

(** The world after one successful [initNative] for the given funding source. *)
Definition one_session (funding : string) : World :=
  run sample_env [SInit (sample_options funding (Some "firebase"))] sample_world.

(** The claim's wording: the value set by whichever of the two actions was
    invoked last, and [true] when neither was. *)
Definition last_invoked_value (acts : list ShippingAction) : bool :=
  match last acts with
  | Some ActResolve => true
  | Some ActReject => false
  | None => true
  end.

(** Two worlds that differ at most in their log and registries. *)
Definition same_but_log_and_registries (w w' : World) : Prop :=
  clean w' = clean w ∧ sessions w' = sessions w ∧ popups w' = popups w
  ∧ storage w' = storage w ∧ now w' = now w ∧ timers w' = timers w
  ∧ nextID w' = nextID w ∧ nextUID w' = nextUID w.

(** The teardown actions a call of [destroy] would run: none once it is
    memoized, else whatever is registered with the current [clean]. *)
Definition pending_teardown (w : World) (sid : nat) : list Task :=
  match sessions w !! sid with
  | Some s =>
      match destroyMemo s, clean w with
      | None, Some rid => from_option tasks [] (registries w !! rid)
      | _, _ => []
      end
  | None => []
  end.

Definition approve_data (m : ApproveMessage) : ApproveData :=
  {| ad_payerID := payerID m; ad_paymentID := paymentID m;
     ad_billingToken := billingToken m; ad_forceRestAPI := true |}.

Definition native_error_events env (err : JsError) : list Event :=
  [EError "native_error" [("err", Some (stringifyError env err))];
   ETrack [(TRANSITION, TTransition NATIVE_ERROR);
           (ERROR_CODE, TText "native_error");
           (ERROR_DESC, TText (stringifyErrorMessage env err))];
   EFlush].

(** The flags and the fixed part of every session are kept. *)
Definition flags_kept (w w' : World) : Prop :=
  ∀ sid s, sessions w !! sid = Some s →
    ∃ s', sessions w' !! sid = Some s'
          ∧ approved s' = approved s ∧ cancelled s' = cancelled s
          ∧ didFallback s' = didFallback s
          ∧ isVenmoDesktopPay s' = isVenmoDesktopPay s
          ∧ buttonSessionID s' = buttonSessionID s
          ∧ payment s' = payment s.

(** The world after [initNative] and one [click] on the popup path. *)
Definition one_popup : World :=
  run sample_env [SInit (sample_options "paypal" (Some "firebase")); SClick 0]
    sample_world.

Definition qr_shown_events env (s : Session) (q : nat) : list Event :=
  [EBrice "payment-flows/native.js/initNative -> initQRCode " false;
   EInfo "VenmoDesktopPay_qrcode" [];
   ETrack [(TRANSITION, TTransition VENMO_DESKTOP_PAY_QR_SHOWN)];
   EFlush;
   EQRCode q (cspNonce s) (getNativePopupUrl env s) QR_DEFAULT;
   EQRRenderTo q].

Definition sample_page (xp : option ButtonLogs.XProps) : ButtonLogs.Page :=
  {| ButtonLogs.isIEIntranet := true;
     ButtonLogs.xprops := xp;
     ButtonLogs.pageRenderTime := Resolved (Some 120);
     ButtonLogs.document :=
       [[("data-funding-source", "paypal")];
        [("data-funding-source", "card"); ("data-card", "visa")];
        [("data-funding-source", "card")];
        [("class", "spinner")]];
     ButtonLogs.innerWidth := 300 |}.

Definition close_brice : Event :=
  EBrice "payment-flows/native.js/initNative -> onCloseCallback -> in promise" true.

Definition sample_message : ApproveMessage :=
  {| payerID := "PAYER"; paymentID := Some "PAY-1"; billingToken := None |}.

Definition teardown_of (e : Event) : option Task :=
  match e with
  | ETeardown t => Some t
  | _ => None
  end.

(** The teardown actions that have run, in order. *)
Definition teardowns (l : list Event) : list Task := omap teardown_of l.

(** Every teardown action the world knows: those that ran and those still
    registered with some registry. *)
Definition all_tasks (w : World) : list Task :=
  teardowns (log w) ++ mjoin (tasks <$> registries w).

(** Each action closes a resource of its own, named by a fresh id. *)
Definition tasks_unique (w : World) : Prop :=
  NoDup (task_id <$> all_tasks w)
  ∧ Forall (λ t, (task_id t < nextID w)%nat) (all_tasks w).

(** From [w] to [w'] the known actions are only moved (from a registry to
    the log) or joined by actions on resources created in between. *)
Definition tasks_step (w w' : World) : Prop :=
  (nextID w ≤ nextID w')%nat
  ∧ ∃ new, all_tasks w' ≡ₚ new ++ all_tasks w
           ∧ NoDup (task_id <$> new)
           ∧ Forall (λ t, (nextID w ≤ task_id t < nextID w')%nat) new.

(** What every operation of the flow guarantees: the log only grows, a
    session stays and keeps a memoized [destroy], actions stay unique. *)
Record extends (w w' : World) : Prop := {
  ext_log : log w `prefix_of` log w';
  ext_sessions :
    ∀ sid s, sessions w !! sid = Some s →
      ∃ s', sessions w' !! sid = Some s'
            ∧ ∀ d, destroyMemo s = Some d → destroyMemo s' = Some d;
  ext_tasks : tasks_step w w'
}.

Definition Ext {A} (m : M A) : Prop := ∀ w, extends w (snd (m w)).

(** An operation that leaves the known actions, the session list and the
    resource counter alone. *)
Definition Quiet {A} (m : M A) : Prop :=
  ∀ w, log w `prefix_of` log (snd (m w))
       ∧ all_tasks (snd (m w)) = all_tasks w
       ∧ nextID (snd (m w)) = nextID w
       ∧ sessions (snd (m w)) = sessions w.

(** A collaborator set on which nothing fails. *)
Definition working_env : Env :=
  {| canUseVenmoDesktopPay := λ f, bool_decide (f = "venmo");
     isAndroidChrome := false;
     getNativePopupUrl := λ _, "https://www.paypal.com/smart/checkout/native/popup";
     stringifyError := error_message;
     stringifyErrorMessage := error_message;
     userOnApprove := λ _ _, (false, Resolved tt);
     userOnCancel := λ _, Resolved tt;
     userOnError := λ _ _, Resolved tt;
     userOnShippingChange := λ _ _, ([], Resolved tt);
     taskOutcome := λ _, Resolved tt;
     setProps := λ _, Resolved tt;
     checkoutStart := λ _, Resolved tt;
     openNativePopupThrows := λ _, None;
     lateRegister := RunAtOnce |}.

(** As [working_env], with teardown actions whose futures stay pending. *)
Definition slow_teardown_env : Env :=
  {| canUseVenmoDesktopPay := canUseVenmoDesktopPay working_env;
     isAndroidChrome := false;
     getNativePopupUrl := getNativePopupUrl working_env;
     stringifyError := error_message;
     stringifyErrorMessage := error_message;
     userOnApprove := userOnApprove working_env;
     userOnCancel := userOnCancel working_env;
     userOnError := userOnError working_env;
     userOnShippingChange := userOnShippingChange working_env;
     taskOutcome := λ _, Pending;
     setProps := setProps working_env;
     checkoutStart := checkoutStart working_env;
     openNativePopupThrows := λ _, None;
     lateRegister := Append |}.

Definition cancelled_in (l : list Event) (t : Task) : bool :=
  existsb (is_teardown t) l.

(** Connections opened by [connectNative] whose [cancel] has not run. *)
Definition live_connections (l : list Event) : list nat :=
  omap (λ e, match e with
             | EConnectNative c _ _ =>
                 if cancelled_in l (ConnectionCancel c) then None else Some c
             | _ => None
             end) l.

(** Popups opened by [openNativePopup] whose [cancel] has not run. *)
Definition live_popups (l : list Event) : list nat :=
  omap (λ e, match e with
             | EOpenNativePopup p _ _ =>
                 if cancelled_in l (PopupCancel p) then None else Some p
             | _ => None
             end) l.

(** ** Vocabulary of the further properties *)

(** Every operation [m] relates the world it starts in to the world it
    leaves by [R]. *)
Definition Keeps (R : World → World → Prop) {A} (m : M A) : Prop :=
  ∀ w, R w (snd (m w)).

(** A session keeps what [initNative] fixed, and a flag once it is set. *)
Definition session_grows (s s' : Session) : Prop :=
  buttonSessionID s' = buttonSessionID s
  ∧ hasOnShippingChange s' = hasOnShippingChange s
  ∧ payment s' = payment s
  ∧ cspNonce s' = cspNonce s
  ∧ isVenmoDesktopPay s' = isVenmoDesktopPay s
  ∧ (approved s = true → approved s' = true)
  ∧ (cancelled s = true → cancelled s' = true)
  ∧ (didFallback s = true → didFallback s' = true).

Definition sessions_grow (w w' : World) : Prop :=
  ∀ sid s, sessions w !! sid = Some s →
    ∃ s', sessions w' !! sid = Some s' ∧ session_grows s s'.

(** Sessions grow and the merchant's [onCancel] of session [sid] is not
    called. *)
Definition calm (sid : nat) (w w' : World) : Prop :=
  sessions_grow w w'
  ∧ ∃ es, log w' = log w ++ es ∧ count (is_on_cancel sid) es = 0%nat.

(** One of the three outcome flags of the session is set. *)
Definition flag_set (w : World) (sid : nat) : Prop :=
  ∃ s, sessions w !! sid = Some s
       ∧ (approved s = true ∨ cancelled s = true ∨ didFallback s = true).

(** The cancel messages for session [sid] among the steps. *)
Definition cancel_messages (sid : nat) (steps : list Step) : nat :=
  length (List.filter (λ st, match st with
                             | SCancel sid' => bool_decide (sid' = sid)
                             | _ => false
                             end) steps).

(** As [working_env], with a merchant whose [onCancel] rejects and a
    checkout whose [start] rejects. *)
Definition rejecting_env : Env :=
  {| canUseVenmoDesktopPay := canUseVenmoDesktopPay working_env;
     isAndroidChrome := false;
     getNativePopupUrl := getNativePopupUrl working_env;
     stringifyError := error_message;
     stringifyErrorMessage := error_message;
     userOnApprove := userOnApprove working_env;
     userOnCancel := λ _, Rejected (Error "cancel failed");
     userOnError := λ _ _, Rejected (Error "error handler failed");
     userOnShippingChange := userOnShippingChange working_env;
     taskOutcome := taskOutcome working_env;
     setProps := setProps working_env;
     checkoutStart := λ _, Rejected (Error "checkout failed");
     openNativePopupThrows := λ _, None;
     lateRegister := RunAtOnce |}.

Definition is_on_error (sid : nat) (e : Event) : bool :=
  match e with
  | EOnError sid' _ => bool_decide (sid' = sid)
  | _ => false
  end.

(** None of the three outcome flags of the session is set. *)
Definition unsettled (s : Session) : Prop :=
  approved s = false ∧ cancelled s = false ∧ didFallback s = false.

Definition is_native_error (e : Event) : bool :=
  match e with
  | EError _ _ => true
  | _ => false
  end.

(** What the flow's closures leave as it is: which registry [clean] points
    to, how many registries and sessions there are, every registry [clean]
    does not point to, and the clock with its timers. *)
Definition steady (w w' : World) : Prop :=
  clean w' = clean w
  ∧ length (registries w') = length (registries w)
  ∧ length (sessions w') = length (sessions w)
  ∧ (∀ rid, clean w ≠ Some rid → registries w' !! rid = registries w !! rid)
  ∧ timers w' = timers w
  ∧ now w' = now w.

(** One registry per session, [clean] on the latest, the earlier ones run
    and empty. *)
Definition lockstep (w : World) : Prop :=
  length (registries w) = length (sessions w)
  ∧ match clean w with
    | None => registries w = []
    | Some rid => S rid = length (registries w)
    end
  ∧ ∀ rid r, registries w !! rid = Some r → clean w ≠ Some rid →
      r = {| tasks := []; cleaned := true |}.

(** ** Vocabulary of the amended statements *)

(** As [sample_env], with teardown actions whose futures reject. *)
Definition failing_teardown_env : Env :=
  {| canUseVenmoDesktopPay := canUseVenmoDesktopPay sample_env;
     isAndroidChrome := false;
     getNativePopupUrl := getNativePopupUrl sample_env;
     stringifyError := error_message;
     stringifyErrorMessage := error_message;
     userOnApprove := userOnApprove sample_env;
     userOnCancel := userOnCancel sample_env;
     userOnError := userOnError sample_env;
     userOnShippingChange := userOnShippingChange sample_env;
     taskOutcome := λ _, Rejected (Error "cancel failed");
     setProps := λ _, Rejected (Error "socket closed");
     checkoutStart := checkoutStart sample_env;
     openNativePopupThrows := λ _, None;
     lateRegister := RunAtOnce |}.

(** From [w] to [w'] the action [t] was handed to [clean.register], and no
    other teardown action was run or registered. On a registry that has not
    been run, [t] is appended and nothing runs; on one that has been run,
    [t] is either appended or called on the spot. *)
Definition registers (t : Task) (w w' : World) : Prop :=
  ∀ rid r, clean w = Some rid → registries w !! rid = Some r →
    if cleaned r
    then (registries w'
          = <[rid := {| tasks := tasks r ++ [t]; cleaned := true |}]>
              (registries w)
          ∧ teardowns (log w') = teardowns (log w))
         ∨ (registries w' = registries w
            ∧ teardowns (log w') = teardowns (log w) ++ [t])
    else registries w'
         = <[rid := {| tasks := tasks r ++ [t]; cleaned := false |}]>
             (registries w)
         ∧ teardowns (log w') = teardowns (log w).

(** * Properties of the native flow *)

(** ** Bookkeeping *)

Ltac unfold_monad :=
  unfold info_track_flush, briceLog, emits, emit, fresh, uniqueID,
    update_session, get_session, bind, ret in *.

Lemma count_app f (l1 l2 : list Event) :
  count f (l1 ++ l2) = (count f l1 + count f l2)%nat.
Proof. unfold count. by rewrite List.filter_app, length_app. Qed.

(** ** Missing firebase configuration *)

(** C9. [initNative] called with a config without [firebase] throws at once:
    the only thing it has done is its debug log line. No registry is torn
    down or created, no session (hence no flow instance) is built, nothing is
    opened, and the throw is final: there is no handler around it. *)
Theorem initNative_without_firebase_throws env (o : InitOptions) (w : World) :
  io_firebase o = None →
  initNative env o w =
    (Throws (Error "Can not run native flow without firebase config"),
     set_log (log w ++ [EBrice "payment-flows/native.js/initNative" false]) w)
  ∧ sessions (snd (initNative env o w)) = sessions w
  ∧ registries (snd (initNative env o w)) = registries w
  ∧ clean (snd (initNative env o w)) = clean w
  ∧ popups (snd (initNative env o w)) = popups w
  ∧ count opens_connection (log (snd (initNative env o w)))
    = count opens_connection (log w)
  ∧ count opens_popup (log (snd (initNative env o w)))
    = count opens_popup (log w).
Proof.
  intros Hfb. unfold initNative. unfold_monad. rewrite Hfb. simpl.
  rewrite !count_app. unfold count. simpl. repeat split; lia.
Qed.

Lemma initNative_without_firebase_throws_witness :
  fst (initNative sample_env (sample_options "paypal" None) sample_world)
  = Throws (Error "Can not run native flow without firebase config").
Proof.
  pose proof (initNative_without_firebase_throws sample_env
                (sample_options "paypal" None) sample_world eq_refl) as [H _].
  rewrite H. reflexivity.
Defined.

(** ** The shipping-change callback *)

Lemma fold_actions_last (acts : list ShippingAction) (b : bool) :
  fold_left (λ _ a, match a with ActResolve => true | ActReject => false end)
    acts b
  = match last acts with
    | Some ActResolve => true
    | Some ActReject => false
    | None => b
    end.
Proof.
  revert b. induction acts as [|a acts IH]; intros b; [done|].
  simpl fold_left. rewrite IH. destruct acts as [|a' acts']; [by destruct a|].
  change (last (a :: a' :: acts')) with (last (a' :: acts')).
  destruct (last (a' :: acts')) eqn:E; [done|].
  by apply last_None in E.
Qed.

Lemma shipping_resolved_last acts :
  shipping_resolved acts = last_invoked_value acts.
Proof. apply fold_actions_last. Qed.

(** C8. Without a merchant [onShippingChange] the callback resolves with
    [resolved = true]. With one, the callback settles as the handler's future
    does, and when that resolves the value is the one set by the last action
    the handler invoked, [true] if it invoked none. *)
Theorem onShippingChange_reports_last_action env sid data (w : World) (s : Session) :
  sessions w !! sid = Some s →
  (hasOnShippingChange s = false →
     fst (onShippingChangeCallback env sid data w) = Resolved true)
  ∧ (hasOnShippingChange s = true →
     ∀ acts outcome,
       userOnShippingChange env sid data = (acts, outcome) →
       fst (onShippingChangeCallback env sid data w)
       = then_ outcome (λ _, last_invoked_value acts)
       ∧ (outcome = Resolved tt →
          fst (onShippingChangeCallback env sid data w)
          = Resolved (last_invoked_value acts))
       ∧ (outcome = Resolved tt → acts = [] →
          fst (onShippingChangeCallback env sid data w) = Resolved true)).
Proof.
  intros Hs. unfold onShippingChangeCallback. unfold_monad. simpl.
  rewrite Hs. simpl. split.
  - intros ->. done.
  - intros -> acts outcome Hh. rewrite Hh. simpl.
    rewrite shipping_resolved_last. split; [done|].
    split; [by intros ->|]. by intros -> ->.
Qed.

Lemma onShippingChange_reports_last_action_witness :
  fst (onShippingChangeCallback sample_env 0 "address" (one_session "paypal"))
  = Resolved false.
Proof.
  pose proof (onShippingChange_reports_last_action sample_env 0 "address"
                (one_session "paypal") _ eq_refl) as [_ H].
  destruct (H eq_refl [ActResolve; ActReject] (Resolved tt) eq_refl)
    as (_ & H2 & _).
  rewrite (H2 eq_refl). reflexivity.
Defined.

(** ** What the registry operations and [destroy] change *)

Lemma register_in_frame env rid t (w : World) :
  same_but_log_and_registries w (snd (register_in env rid t w))
  ∧ (log (snd (register_in env rid t w)) = log w
     ∨ log (snd (register_in env rid t w)) = log w ++ [ETeardown t]).
Proof.
  unfold register_in, same_but_log_and_registries, emit.
  destruct (registries w !! rid) as [r|]; [|by auto 10].
  destruct (cleaned r), (lateRegister env); simpl; auto 10.
Qed.

Lemma clean_register_frame env t (w : World) :
  same_but_log_and_registries w (snd (clean_register env t w))
  ∧ (log (snd (clean_register env t w)) = log w
     ∨ log (snd (clean_register env t w)) = log w ++ [ETeardown t]).
Proof.
  unfold clean_register. destruct (clean w) as [rid|].
  - apply register_in_frame.
  - unfold same_but_log_and_registries. simpl. auto 10.
Qed.

Lemma all_in_log env rid (w : World) :
  log (snd (all_in env rid w))
  = log w ++ map ETeardown (from_option tasks [] (registries w !! rid)).
Proof.
  unfold all_in. destruct (registries w !! rid); simpl; [done|].
  by rewrite app_nil_r.
Qed.

Lemma destroy_log env sid (w : World) :
  log (snd (destroy env sid w))
  = log w ++ map ETeardown (pending_teardown w sid).
Proof.
  unfold destroy, memoize, pending_teardown, clean_all. unfold_monad.
  destruct (sessions w !! sid) as [s|]; simpl; [|by rewrite app_nil_r].
  destruct (destroyMemo s); simpl; [by rewrite app_nil_r|].
  destruct (clean w) as [rid|]; simpl; [|by rewrite app_nil_r].
  pose proof (all_in_log env rid w) as H.
  destruct (all_in env rid w) as [d w1]. simpl in *. done.
Qed.

Lemma destroy_sessions env sid (w : World) (s : Session) :
  sessions w !! sid = Some s →
  sessions (snd (destroy env sid w))
  = <[sid := set_destroyMemo (Some (fst (destroy env sid w))) s]> (sessions w).
Proof.
  intros Hs. unfold destroy, memoize, clean_all. unfold_monad. rewrite Hs. simpl.
  destruct (destroyMemo s) as [d|] eqn:Hm; simpl.
  - rewrite list_insert_id; [done|]. rewrite Hs. f_equal.
    destruct s; simpl in *; by subst.
  - assert (∀ (x : Promise unit * World),
              sessions (snd x) = sessions w →
              sessions (snd (let (d, w') := x in
                 (d, set_sessions
                       (alter (set_destroyMemo (Some d)) sid (sessions w')) w')))
              = <[sid := set_destroyMemo
                    (Some (fst (let (d, w') := x in
                       (d, set_sessions
                         (alter (set_destroyMemo (Some d)) sid (sessions w')) w'))))
                    s]> (sessions w)) as Hx.
    { intros [d w1] Hw1. simpl in *. rewrite Hw1.
      apply list_eq. intros i. destruct (decide (i = sid)) as [->|Hne].
      - rewrite list_lookup_alter_eq, Hs. simpl.
        by rewrite list_lookup_insert_eq by (by eapply lookup_lt_Some).
      - rewrite list_lookup_alter_ne by done.
        by rewrite list_lookup_insert_ne by done. }
    apply Hx. destruct (clean w) as [rid|]; [|done].
    unfold all_in. by destruct (registries w !! rid).
Qed.

Lemma destroy_frame env sid (w : World) :
  clean (snd (destroy env sid w)) = clean w
  ∧ popups (snd (destroy env sid w)) = popups w
  ∧ storage (snd (destroy env sid w)) = storage w
  ∧ now (snd (destroy env sid w)) = now w
  ∧ timers (snd (destroy env sid w)) = timers w
  ∧ nextID (snd (destroy env sid w)) = nextID w
  ∧ nextUID (snd (destroy env sid w)) = nextUID w.
Proof.
  unfold destroy, memoize, clean_all, all_in. unfold_monad.
  destruct (sessions w !! sid) as [s|]; simpl; [|by repeat split].
  destruct (destroyMemo s); simpl; [by repeat split|].
  destruct (clean w) as [rid|] eqn:Hc; simpl; rewrite ?Hc; [|by repeat split].
  destruct (registries w !! rid); simpl; rewrite ?Hc; by repeat split.
Qed.

Lemma fallbackToWebCheckout_spec env sid fallbackWin (w : World) (s : Session) :
  sessions w !! sid = Some s →
  ∃ late,
    (late = [] ∨ late = [ETeardown (CheckoutClose (nextID w))])
    ∧ fst (fallbackToWebCheckout env sid fallbackWin w)
      = checkoutStart env (nextID w)
    ∧ log (snd (fallbackToWebCheckout env sid fallbackWin w))
      = log w
        ++ [EBrice "payment-flows/native.js/initNative -> fallbackToWebCheckout" false;
            ECheckoutInit (nextID w) sid (checkoutPayment (payment s) fallbackWin)]
        ++ late ++ [ECheckoutStart (nextID w)]
    ∧ sessions (snd (fallbackToWebCheckout env sid fallbackWin w))
      = <[sid := set_didFallback true s]> (sessions w)
    ∧ clean (snd (fallbackToWebCheckout env sid fallbackWin w)) = clean w
    ∧ popups (snd (fallbackToWebCheckout env sid fallbackWin w)) = popups w
    ∧ storage (snd (fallbackToWebCheckout env sid fallbackWin w)) = storage w
    ∧ now (snd (fallbackToWebCheckout env sid fallbackWin w)) = now w
    ∧ timers (snd (fallbackToWebCheckout env sid fallbackWin w)) = timers w
    ∧ nextID (snd (fallbackToWebCheckout env sid fallbackWin w)) = S (nextID w)
    ∧ nextUID (snd (fallbackToWebCheckout env sid fallbackWin w)) = nextUID w.
Proof.
  intros Hs. unfold fallbackToWebCheckout. unfold_monad. simpl.
  rewrite list_lookup_alter_eq, Hs. simpl.
  match goal with
  | |- context [clean_register env ?t ?w1] =>
      pose proof (clean_register_frame env t w1) as [Hf Hl];
      destruct (clean_register env t w1) as [[] w2]
  end.
  destruct Hf as (Hc & Hss & Hp & Hst & Hn & Ht & Hid & Huid).
  simpl in *.
  assert (alter (set_didFallback true) sid (sessions w)
          = <[sid := set_didFallback true s]> (sessions w)) as Halt.
  { apply list_eq. intros i. destruct (decide (i = sid)) as [->|Hne].
    - rewrite list_lookup_alter_eq, Hs. simpl.
      by rewrite list_lookup_insert_eq by (by eapply lookup_lt_Some).
    - rewrite list_lookup_alter_ne by done.
      by rewrite list_lookup_insert_ne by done. }
  destruct Hl as [Hl|Hl].
  - exists []. rewrite Hl, Hss, Halt. simpl. rewrite <- !app_assoc. simpl.
    repeat split; auto.
  - exists [ETeardown (CheckoutClose (nextID w))].
    rewrite Hl, Hss, Halt. simpl. rewrite <- !app_assoc. simpl.
    repeat split; auto.
Qed.

Lemma alter_as_insert {A} (f : A → A) (l : list A) (i : nat) (x : A) :
  l !! i = Some x → alter f i l = <[i := f x]> l.
Proof.
  intros Hx. apply list_eq. intros j. destruct (decide (j = i)) as [->|Hne].
  - rewrite list_lookup_alter_eq, Hx. simpl.
    by rewrite list_lookup_insert_eq by (by eapply lookup_lt_Some).
  - rewrite list_lookup_alter_ne by done.
    by rewrite list_lookup_insert_ne by done.
Qed.

Lemma lookup_insert_same {A} (l : list A) (i : nat) (x y : A) :
  l !! i = Some x → <[i := y]> l !! i = Some y.
Proof. intros Hx. apply list_lookup_insert_eq. by eapply lookup_lt_Some. Qed.

(** ** A rejecting [onApprove] handler *)

(** C3. When the merchant's [onApprove] rejects with [err], the approve
    callback logs the error transition, calls [onError] with [err], and its
    own future follows cleanup only: it resolves with the button session id
    once [destroy] has resolved, whatever [onError] returns, and [err] is
    not what it settles with. The [catch] handler does the same whenever it
    runs and returns normally, so the handler branch of the [all] is
    resolved after it. *)
Theorem onApprove_rejection_is_redirected env sid m (w : World) (s : Session)
    restart err :
  sessions w !! sid = Some s →
  userOnApprove env sid (approve_data m) = (restart, Rejected err) →
  (∃ before after,
      log (snd (onApproveCallback env sid m w))
      = log w ++ before
        ++ [EInfo "native_message_onapprove_error" (approve_payload m);
            ETrack [(TRANSITION, TTransition NATIVE_ON_APPROVE_ERROR);
                    (INFO_MSG, TText ("Error: " ++ stringifyError env err)%string)];
            EFlush;
            EOnError sid err]
        ++ after)
  ∧ (∃ s' d,
      sessions (snd (onApproveCallback env sid m w)) !! sid = Some s'
      ∧ approved s' = true
      ∧ destroyMemo s' = Some d
      ∧ fst (onApproveCallback env sid m w) = then_ d (λ _, buttonSessionID s)
      ∧ (d = Resolved tt →
         fst (onApproveCallback env sid m w) = Resolved (buttonSessionID s)))
  ∧ (∀ w' : World,
       onApprove_catch env sid m err w'
       = (tt,
          set_log
            (log w'
             ++ [EInfo "native_message_onapprove_error" (approve_payload m);
                 ETrack [(TRANSITION, TTransition NATIVE_ON_APPROVE_ERROR);
                         (INFO_MSG,
                          TText ("Error: " ++ stringifyError env err)%string)];
                 EFlush;
                 EOnError sid err]) w'))
  ∧ (∀ (d : Promise unit) (f : unit → string),
       then_ (promise_all [Resolved tt; d]) f = then_ d f).
Proof.
  intros Hs Hh.
  cut ((∃ before after,
          log (snd (onApproveCallback env sid m w))
          = log w ++ before
            ++ [EInfo "native_message_onapprove_error" (approve_payload m);
                ETrack [(TRANSITION, TTransition NATIVE_ON_APPROVE_ERROR);
                        (INFO_MSG,
                         TText ("Error: " ++ stringifyError env err)%string)];
                EFlush;
                EOnError sid err]
            ++ after)
       ∧ (∃ s' d,
            sessions (snd (onApproveCallback env sid m w)) !! sid = Some s'
            ∧ approved s' = true
            ∧ destroyMemo s' = Some d
            ∧ fst (onApproveCallback env sid m w)
              = then_ d (λ _, buttonSessionID s)
            ∧ (d = Resolved tt →
               fst (onApproveCallback env sid m w)
               = Resolved (buttonSessionID s)))).
  { intros [H1 H2]. split; [exact H1|]. split; [exact H2|]. split.
    - intros w'. unfold onApprove_catch. unfold_monad. simpl.
      by rewrite <- app_assoc.
    - by intros [[]| |] f. }
  unfold onApproveCallback, onApprove_catch, session_id_result.
  fold (approve_data m). rewrite Hh. unfold_monad. simpl.
  rewrite (alter_as_insert _ _ _ _ Hs).
  set (s1 := set_approved true s).
  destruct restart.
  - match goal with
    | |- context [fallbackToWebCheckout env sid None ?w1] =>
        destruct (fallbackToWebCheckout_spec env sid None w1 s1)
          as (late & _ & _ & Hl & Hss & _);
          [simpl; by eapply lookup_insert_same|];
          destruct (fallbackToWebCheckout env sid None w1) as [p w2]
    end.
    simpl in *.
    match goal with
    | |- context [destroy env sid ?w3] =>
        pose proof (destroy_log env sid w3) as Hdl;
        pose proof (destroy_sessions env sid w3 (set_didFallback true s1)) as Hds;
        destruct (destroy env sid w3) as [d w4]
    end.
    simpl in *. rewrite Hss in Hds.
    rewrite list_insert_insert_eq in Hds.
    specialize (Hds (lookup_insert_same _ _ _ _ Hs)).
    rewrite list_insert_insert_eq in Hds.
    split.
    + match type of Hdl with
      | _ = _ ++ ?a =>
          exists ([EInfo "native_message_onapprove" (approve_payload m);
                   ETrack [(TRANSITION, TTransition NATIVE_ON_APPROVE);
                           (INFO_MSG, TText (approve_info_msg m))];
                   EFlush; EOnApprove sid (approve_data m);
                   EBrice "payment-flows/native.js/initNative -> fallbackToWebCheckout" false;
                   ECheckoutInit (nextID w) sid (checkoutPayment (payment s) None)]
                  ++ late ++ [ECheckoutStart (nextID w)]), a
      end.
      rewrite Hdl, Hl. rewrite <- !app_assoc. simpl. rewrite <- !app_assoc. reflexivity.
    + rewrite Hds. rewrite (lookup_insert_same _ _ _ _ Hs). 
      eexists _, d. repeat split; [by destruct d|]. by intros ->.
  - simpl.
    match goal with
    | |- context [destroy env sid ?w3] =>
        pose proof (destroy_log env sid w3) as Hdl;
        pose proof (destroy_sessions env sid w3 s1) as Hds;
        destruct (destroy env sid w3) as [d w4]
    end.
    simpl in *.
    specialize (Hds (lookup_insert_same _ _ _ _ Hs)).
    rewrite list_insert_insert_eq in Hds.
    split.
    + match type of Hdl with
      | _ = _ ++ ?a =>
          exists [EInfo "native_message_onapprove" (approve_payload m);
                  ETrack [(TRANSITION, TTransition NATIVE_ON_APPROVE);
                          (INFO_MSG, TText (approve_info_msg m))];
                  EFlush; EOnApprove sid (approve_data m)], a
      end.
      rewrite Hdl. rewrite <- !app_assoc. simpl. reflexivity.
    + rewrite Hds. rewrite (lookup_insert_same _ _ _ _ Hs).
      eexists _, d. repeat split; [by destruct d|]. by intros ->.
Qed.

Lemma onApprove_rejection_is_redirected_witness :
  fst (onApproveCallback sample_env 0
         {| payerID := "PAYER"; paymentID := None; billingToken := None |}
         (one_session "paypal"))
  = Resolved "uid_button_session".
Proof.
  destruct (onApprove_rejection_is_redirected sample_env 0
              {| payerID := "PAYER"; paymentID := None; billingToken := None |}
              (one_session "paypal") _ false (Error "capture failed")
              eq_refl eq_refl) as (_ & (s' & d & Hs' & _ & Hd & Hr & _) & _).
  vm_compute in Hs'. injection Hs' as <-. vm_compute in Hd.
  injection Hd as <-. rewrite Hr. reflexivity.
Defined.

(** ** The [catch] handler of [click] *)

Lemma click_catch_spec env sid err (w : World) :
  click_catch env sid err w
  = match fst (destroy env sid w) with
    | Resolved _ =>
        (Rejected err,
         set_log (log (snd (destroy env sid w)) ++ native_error_events env err)
           (snd (destroy env sid w)))
    | Rejected e => (Rejected e, snd (destroy env sid w))
    | Pending => (Pending, snd (destroy env sid w))
    end.
Proof.
  unfold click_catch, bind. destruct (destroy env sid w) as [d wd].
  by destruct d.
Qed.

(** Whenever the handler after cleanup runs, it logs the error record and
    throws the error it was given. *)
Lemma click_rethrow_spec env err (w : World) :
  click_rethrow env err w
  = (Rejected err, set_log (log w ++ native_error_events env err) w).
Proof. reflexivity. Qed.

Lemma count_teardown_events f (ts : list Task) :
  (∀ t, f (ETeardown t) = false) → count f (map ETeardown ts) = 0%nat.
Proof.
  intros Hf. unfold count. induction ts as [|t ts IH]; [done|].
  simpl. by rewrite Hf.
Qed.

(** What [click]'s [catch] handler leaves alone. *)
Lemma click_catch_frame env sid err (w : World) (s : Session) :
  sessions w !! sid = Some s →
  storage (snd (click_catch env sid err w)) = storage w
  ∧ nextID (snd (click_catch env sid err w)) = nextID w
  ∧ popups (snd (click_catch env sid err w)) = popups w
  ∧ sessions (snd (click_catch env sid err w))
    = <[sid := set_destroyMemo (Some (fst (destroy env sid w))) s]> (sessions w)
  ∧ ∃ es, log (snd (click_catch env sid err w)) = log w ++ es
          ∧ count opens_connection es = 0%nat
          ∧ count opens_popup es = 0%nat.
Proof.
  intros Hs. rewrite click_catch_spec.
  pose proof (destroy_log env sid w) as Hl.
  pose proof (destroy_sessions env sid w s Hs) as Hss.
  destruct (destroy_frame env sid w) as (_ & Hp & Hst & _ & _ & Hid & _).
  destruct (destroy env sid w) as [d wd]. simpl in *.
  destruct d; simpl; repeat split; try done.
  - exists (map ETeardown (pending_teardown w sid) ++ native_error_events env err).
    rewrite Hl, app_assoc. rewrite !count_app.
    rewrite !count_teardown_events by done. done.
  - exists (map ETeardown (pending_teardown w sid)).
    rewrite !count_teardown_events by done. done.
  - exists (map ETeardown (pending_teardown w sid)).
    rewrite !count_teardown_events by done. done.
Qed.

Lemma destroy_flags_kept env sid (w : World) :
  flags_kept w (snd (destroy env sid w)).
Proof.
  intros sid' s' Hs'.
  destruct (sessions w !! sid) as [s|] eqn:Hs.
  - rewrite (destroy_sessions env sid w s Hs).
    destruct (decide (sid' = sid)) as [->|Hne].
    + rewrite (lookup_insert_same _ _ _ _ Hs). eexists. split; [done|].
      rewrite Hs in Hs'. injection Hs' as <-. by repeat split.
    + rewrite list_lookup_insert_ne by done. exists s'. by repeat split.
  - unfold destroy, memoize. unfold_monad. rewrite Hs. simpl. exists s'.
    by repeat split.
Qed.

Lemma click_catch_quiet env sid err (w : World) :
  storage (snd (click_catch env sid err w)) = storage w
  ∧ nextID (snd (click_catch env sid err w)) = nextID w
  ∧ popups (snd (click_catch env sid err w)) = popups w
  ∧ flags_kept w (snd (click_catch env sid err w))
  ∧ ∃ es, log (snd (click_catch env sid err w)) = log w ++ es
          ∧ count opens_connection es = 0%nat
          ∧ count opens_popup es = 0%nat.
Proof.
  rewrite click_catch_spec.
  pose proof (destroy_log env sid w) as Hl.
  pose proof (destroy_flags_kept env sid w) as Hk.
  destruct (destroy_frame env sid w) as (_ & Hp & Hst & _ & _ & Hid & _).
  destruct (destroy env sid w) as [d wd]. simpl in *.
  destruct d; simpl; repeat split; try done.
  - exists (map ETeardown (pending_teardown w sid) ++ native_error_events env err).
    rewrite Hl, app_assoc. rewrite !count_app.
    rewrite !count_teardown_events by done. done.
  - exists (map ETeardown (pending_teardown w sid)).
    rewrite !count_teardown_events by done. done.
  - exists (map ETeardown (pending_teardown w sid)).
    rewrite !count_teardown_events by done. done.
Qed.

Lemma settle_click_quiet env p r (w : World) :
  storage (snd (settle_click env p r w)) = storage w
  ∧ nextID (snd (settle_click env p r w)) = nextID w
  ∧ flags_kept w (snd (settle_click env p r w))
  ∧ ∃ es, log (snd (settle_click env p r w)) = log w ++ es
          ∧ count opens_connection es = 0%nat
          ∧ count opens_popup es = 0%nat.
Proof.
  assert (flags_kept w w) as Hrefl.
  { intros sid s Hs. exists s. by repeat split. }
  assert (∃ es, log w = log w ++ es ∧ count opens_connection es = 0%nat
                ∧ count opens_popup es = 0%nat) as Hnil.
  { exists []. by rewrite app_nil_r. }
  unfold settle_click. destruct (popups w !! p) as [pp|]; [|done].
  destruct (settled pp); [done|]. destruct r as [[]|err|]; [done| |done].
  destruct (click_catch_quiet env (popupSession pp) err w)
    as (Hst & Hid & _ & Hk & Hl).
  destruct (click_catch env (popupSession pp) err w) as [q w1]. done.
Qed.

(** ** The QR path *)

(** Building the [callbacks] object throws on its first property. *)
Lemma qr_callbacks_throws :
  qr_callbacks = Throws (TypeError "onApproveQR.then is not a function").
Proof. reflexivity. Qed.

(** On the QR path [initQRCode] renders the QR component and then throws
    while it builds the callbacks for [connectNative]: [connectNative] is
    not called and nothing is registered for cleanup. *)
Lemma initQRCode_throws env sid uid (w : World) (s : Session) :
  sessions w !! sid = Some s →
  initQRCode env sid uid w
  = (Throws (TypeError "onApproveQR.then is not a function"),
     set_log (log w ++ qr_shown_events env s (nextID w))
       (set_nextID (S (nextID w)) w)).
Proof.
  intros Hs. unfold initQRCode. unfold_monad. simpl. rewrite Hs. simpl.
  rewrite <- !app_assoc. reflexivity.
Qed.

Lemma click_qr_path env sid (w : World) (s : Session) :
  sessions w !! sid = Some s →
  isVenmoDesktopPay s = true →
  click env sid w
  = click_catch env sid (TypeError "onApproveQR.then is not a function")
      (set_log
         (log w ++ EBrice "payment-flows/native.js/initNative -> click " false
            :: qr_shown_events env s (nextID w))
         (set_nextID (S (nextID w)) (set_nextUID (S (nextUID w)) w))).
Proof.
  intros Hs Hv. unfold click. unfold_monad. simpl. rewrite Hs, Hv.
  match goal with
  | |- context [initQRCode env sid ?uid ?w1] =>
      rewrite (initQRCode_throws env sid uid w1 s Hs)
  end.
  simpl. rewrite <- !app_assoc. reflexivity.
Qed.

(** C6, evaluated. A click on a session whose funding source has the
    desktop-pay capability renders the QR component and opens no popup, but
    it never reaches [connectNative]: the future of [click] is rejected with
    the TypeError, no connection is opened and no cancel is registered. *)
Lemma click_on_qr_path_opens_no_connection :
  isVenmoDesktopPay <$> sessions (one_session "venmo") !! 0%nat = Some true
  ∧ fst (click sample_env 0 (one_session "venmo"))
    = Rejected (TypeError "onApproveQR.then is not a function")
  ∧ count opens_connection (log (snd (click sample_env 0 (one_session "venmo"))))
    = 0%nat
  ∧ count opens_popup (log (snd (click sample_env 0 (one_session "venmo"))))
    = 0%nat
  ∧ EQRRenderTo 0 ∈ log (snd (click sample_env 0 (one_session "venmo")))
  ∧ registries (snd (click sample_env 0 (one_session "venmo")))
    = [{| tasks := []; cleaned := true |}]
  ∧ count (λ e, match e with ETeardown _ => true | _ => false end)
      (log (snd (click sample_env 0 (one_session "venmo")))) = 0%nat.
Proof.
  repeat split; try reflexivity.
  vm_compute. apply list_elem_of_In. simpl. auto 20.
Qed.

(** C10. Without [window.xprops], [triggerButtonLogs] throws an Error with
    the message "No xprops found"; by then it has made the IE-intranet check
    (the warning is logged when that check holds) and has tracked nothing.
    With [window.xprops] it returns. *)
Theorem triggerButtonLogs_throws_without_xprops
    (ATTR_FUNDING_SOURCE ATTR_CARD FUNDING_CARD : string) (pg : ButtonLogs.Page) :
  (ButtonLogs.xprops pg = None →
     ButtonLogs.triggerButtonLogs ATTR_FUNDING_SOURCE ATTR_CARD FUNDING_CARD pg
     = (Throws (Error "No xprops found"),
        if ButtonLogs.isIEIntranet pg
        then [ButtonLogs.Warn "button_child_intranet_mode"] else [])
     ∧ List.filter ButtonLogs.is_track
         (snd (ButtonLogs.triggerButtonLogs
                 ATTR_FUNDING_SOURCE ATTR_CARD FUNDING_CARD pg)) = [])
  ∧ (∀ xp, ButtonLogs.xprops pg = Some xp →
       fst (ButtonLogs.triggerButtonLogs
              ATTR_FUNDING_SOURCE ATTR_CARD FUNDING_CARD pg) = Returns tt).
Proof.
  unfold ButtonLogs.triggerButtonLogs. split.
  - intros ->. simpl. split; [done|]. by destruct (ButtonLogs.isIEIntranet pg).
  - intros xp ->. done.
Qed.

Lemma triggerButtonLogs_throws_without_xprops_witness :
  ButtonLogs.triggerButtonLogs "data-funding-source" "data-card" "card"
    (sample_page None)
  = (Throws (Error "No xprops found"),
     [ButtonLogs.Warn "button_child_intranet_mode"])
  ∧ fst (ButtonLogs.triggerButtonLogs "data-funding-source" "data-card" "card"
           (sample_page (Some {| ButtonLogs.style := None |})))
    = Returns tt.
Proof.
  destruct (triggerButtonLogs_throws_without_xprops
              "data-funding-source" "data-card" "card" (sample_page None))
    as [H _].
  destruct (triggerButtonLogs_throws_without_xprops
              "data-funding-source" "data-card" "card"
              (sample_page (Some {| ButtonLogs.style := None |})))
    as [_ H'].
  split.
  - exact (proj1 (H eq_refl)).
  - exact (H' _ eq_refl).
Defined.

(** The record tracked for the sample page. *)
Example sample_page_button_load :
  snd (ButtonLogs.triggerButtonLogs "data-funding-source" "data-card" "card"
         (sample_page (Some {| ButtonLogs.style := None |})))
  = [ButtonLogs.Warn "button_child_intranet_mode";
     ButtonLogs.Track
       [(ButtonLogs.TRANSITION, ButtonLogs.VButtonLoad);
        (ButtonLogs.FUNDING_LIST, ButtonLogs.VString "paypal:visa");
        (ButtonLogs.FUNDING_COUNT, ButtonLogs.VString "2");
        (ButtonLogs.PAGE_LOAD_TIME, ButtonLogs.VString "120");
        (ButtonLogs.BUTTON_LAYOUT, ButtonLogs.VUndefined);
        (ButtonLogs.BUTTON_COLOR, ButtonLogs.VUndefined);
        (ButtonLogs.BUTTON_SIZE, ButtonLogs.VUndefined);
        (ButtonLogs.BUTTON_SHAPE, ButtonLogs.VUndefined);
        (ButtonLogs.BUTTON_LABEL, ButtonLogs.VUndefined);
        (ButtonLogs.BUTTON_WIDTH, ButtonLogs.VNumber 300);
        (ButtonLogs.BUTTON_TYPE, ButtonLogs.VIframe)];
     ButtonLogs.Flush].
Proof. vm_compute. reflexivity. Qed.

Lemma destroy_registries env sid (w : World) (s : Session) rid :
  sessions w !! sid = Some s →
  destroyMemo s = None →
  clean w = Some rid →
  is_Some (registries w !! rid) →
  registries (snd (destroy env sid w))
  = <[rid := {| tasks := []; cleaned := true |}]> (registries w).
Proof.
  intros Hs Hm Hc [r Hr]. unfold destroy, memoize, clean_all, all_in. unfold_monad.
  rewrite Hs. simpl. rewrite Hm, Hc. simpl. rewrite Hr. done.
Qed.

Lemma destroy_memoized env sid (w : World) (s : Session) d :
  sessions w !! sid = Some s →
  destroyMemo s = Some d →
  destroy env sid w = (d, w).
Proof.
  intros Hs Hm. unfold destroy, memoize. unfold_monad. by rewrite Hs, Hm.
Qed.

(** ** Close without resolution *)

(** C2. The close callback only queues its handler 1000 ms ahead: nothing
    else happens until the clock has advanced that far. When the handler
    runs and none of [approved], [cancelled], [didFallback] is set and the
    browser is not Android Chrome, it calls the merchant's [onCancel] once
    and then [destroy]: the teardown actions [destroy] still has to run are
    run, and the session's [destroy] is memoized from then on. When
    [approved] is set by then, the handler calls nothing. *)
Theorem close_after_grace_delay env sid (w : World) :
  (snd (onCloseCallback sid w)
   = set_timers (timers w ++ [(now w + 1000, sid)])
       (set_log
          (log w ++ [EBrice "payment-flows/native.js/initNative -> onCloseCallback" false])
          w))
  ∧ (∀ (w2 : World) due dt,
       timers w2 = [(due, sid)] → now w2 + Z.pos dt < due →
       log (snd (elapse env dt w2)) = log w2
       ∧ sessions (snd (elapse env dt w2)) = sessions w2
       ∧ registries (snd (elapse env dt w2)) = registries w2
       ∧ timers (snd (elapse env dt w2)) = [(due, sid)])
  ∧ (∀ (w2 : World) due dt,
       timers w2 = [(due, sid)] → due ≤ now w2 + Z.pos dt →
       snd (elapse env dt w2)
       = snd (onClose_after_delay env sid
                (set_timers [] (set_now (now w2 + Z.pos dt) w2))))
  ∧ (∀ (w2 : World) (s : Session),
       sessions w2 !! sid = Some s →
       (approved s = false → cancelled s = false → didFallback s = false →
        isAndroidChrome env = false →
          log (snd (onClose_after_delay env sid w2))
          = log w2 ++ [close_brice; EOnCancel sid]
            ++ map ETeardown (pending_teardown w2 sid)
          ∧ count (is_on_cancel sid) (log (snd (onClose_after_delay env sid w2)))
            = S (count (is_on_cancel sid) (log w2))
          ∧ (∃ s' d,
               sessions (snd (onClose_after_delay env sid w2)) !! sid = Some s'
               ∧ destroyMemo s' = Some d)
          ∧ (∀ rid, destroyMemo s = None → clean w2 = Some rid →
               is_Some (registries w2 !! rid) →
               registries (snd (onClose_after_delay env sid w2)) !! rid
               = Some {| tasks := []; cleaned := true |}))
       ∧ (approved s = true →
          log (snd (onClose_after_delay env sid w2)) = log w2 ++ [close_brice]
          ∧ count (is_on_cancel sid) (log (snd (onClose_after_delay env sid w2)))
            = count (is_on_cancel sid) (log w2)
          ∧ sessions (snd (onClose_after_delay env sid w2)) = sessions w2
          ∧ registries (snd (onClose_after_delay env sid w2)) = registries w2)).
Proof.
  split; [reflexivity|]. split; [|split].
  - intros w2 due dt Ht Hlt. unfold elapse. rewrite Ht. simpl.
    rewrite bool_decide_eq_false_2 by lia. simpl. done.
  - intros w2 due dt Ht Hle. unfold elapse. rewrite Ht. simpl.
    rewrite bool_decide_eq_true_2 by lia. simpl. done.
  - intros w2 s Hs. unfold onClose_after_delay. unfold_monad. simpl.
    rewrite Hs. split.
    + intros -> -> -> ->. simpl.
      match goal with
      | |- context [destroy env sid ?w3] =>
          pose proof (destroy_log env sid w3) as Hdl;
          pose proof (destroy_sessions env sid w3 s Hs) as Hds;
          pose proof (destroy_registries env sid w3 s) as Hdr;
          destruct (destroy env sid w3) as [d w4]
      end.
      simpl in *. change (pending_teardown _ sid) with (pending_teardown w2 sid) in Hdl.
      rewrite Hdl, Hds. split; [by rewrite <- !app_assoc|]. split.
      * rewrite !count_app. rewrite count_teardown_events by done.
        unfold count at 2 3. simpl. rewrite bool_decide_eq_true_2 by done.
        simpl. lia.
      * split.
        -- eexists _, d. rewrite (lookup_insert_same _ _ _ _ Hs). done.
        -- intros rid Hm Hc Hr. rewrite (Hdr rid Hs Hm Hc Hr).
           destruct Hr as [r Hr]. by eapply lookup_insert_same.
    + intros ->. simpl. rewrite count_app. unfold count at 2. simpl.
      repeat split; lia.
Qed.

Lemma close_after_grace_delay_witness :
  count (is_on_cancel 0)
    (log (snd (elapse sample_env 1000 (snd (onCloseCallback 0 one_popup)))))
  = 1%nat
  ∧ count (is_on_cancel 0)
      (log (snd (elapse sample_env 1000
                   (snd (onApproveCallback sample_env 0 sample_message
                           (snd (onCloseCallback 0 one_popup)))))))
    = 0%nat.
Proof.
  destruct (close_after_grace_delay sample_env 0 one_popup)
    as (_ & _ & Hfire & Hhandler).
  split.
  - rewrite (Hfire (snd (onCloseCallback 0 one_popup)) 1600000001000 1000%positive
               eq_refl ltac:(by vm_compute)).
    match goal with
    | |- context [onClose_after_delay sample_env 0 ?w2] =>
        destruct (Hhandler w2 _ eq_refl) as [Hcancel _]
    end.
    destruct (Hcancel eq_refl eq_refl eq_refl eq_refl) as (_ & -> & _).
    reflexivity.
  - rewrite (Hfire (snd (onApproveCallback sample_env 0 sample_message
                           (snd (onCloseCallback 0 one_popup))))
               1600000001000 1000%positive eq_refl ltac:(by vm_compute)).
    match goal with
    | |- context [onClose_after_delay sample_env 0 ?w2] =>
        destruct (Hhandler w2 _ eq_refl) as [_ Happroved]
    end.
    destruct (Happroved eq_refl) as (_ & -> & _).
    reflexivity.
Defined.

(** ** Failures during [click] *)

Lemma click_popup_throws env sid (w : World) (s : Session) e :
  sessions w !! sid = Some s →
  isVenmoDesktopPay s = false →
  openNativePopupThrows env (nextUID w) = Some e →
  click env sid w
  = click_catch env sid e
      (set_log
         (log w ++
            [EBrice "payment-flows/native.js/initNative -> click " false;
             EBrice "payment-flows/native.js/initNative -> initPopupAppSwitch " false])
         (set_nextUID (S (nextUID w)) w)).
Proof.
  intros Hs Hv He. unfold click, initPopupAppSwitch. unfold_monad. simpl.
  rewrite Hs, Hv. simpl. rewrite He. simpl. rewrite <- !app_assoc. reflexivity.
Qed.

Lemma settle_click_rejected env p e (w : World) (pp : Popup) :
  popups w !! p = Some pp →
  settled pp = false →
  snd (settle_click env p (Rejected e) w)
  = set_popups
      (<[p := {| popupSession := popupSession pp; popupUID := popupUID pp;
                 settled := true;
                 clickFuture := fst (click_catch env (popupSession pp) e w) |}]>
         (popups (snd (click_catch env (popupSession pp) e w))))
      (snd (click_catch env (popupSession pp) e w)).
Proof.
  intros Hp Hst. unfold settle_click. rewrite Hp, Hst.
  by destruct (click_catch env (popupSession pp) e w).
Qed.

(** A rejection of [setProps] while the future of [click] is unsettled, in
    full: the popup and the connection are both cancelled before the error
    record is logged. *)
Example rejected_setProps_log :
  drop (length (log one_popup)) (log (snd (onDetectAppSwitch sample_env 0 one_popup)))
  = [EInfo "app_switch_detect_with_no_previous_switch"
       [("lastAppSwitchTime", Some "0"); ("lastWebSwitchTime", Some "0")];
     EInfo "native_detect_app_switch" [];
     ETrack [(TRANSITION, TTransition NATIVE_DETECT_APP_SWITCH)];
     EFlush;
     EConnectNative 1 0 0;
     ESetProps 1;
     ETeardown (PopupCancel 0);
     ETeardown (ConnectionCancel 1);
     EError "native_error" [("err", Some "socket closed")];
     ETrack [(TRANSITION, TTransition NATIVE_ERROR);
             (ERROR_CODE, TText "native_error");
             (ERROR_DESC, TText "socket closed")];
     EFlush].
Proof. vm_compute. reflexivity. Qed.

(** ** Teardown actions run at most once *)

Lemma tasks_step_refl w : tasks_step w w.
Proof.
  split; [done|]. exists []. split; [done|]. split; [constructor|done].
Qed.

Lemma tasks_step_trans w1 w2 w3 :
  tasks_step w1 w2 → tasks_step w2 w3 → tasks_step w1 w3.
Proof.
  intros (Hle1 & new1 & Hp1 & Hnd1 & Hr1) (Hle2 & new2 & Hp2 & Hnd2 & Hr2).
  split; [lia|]. exists (new2 ++ new1). split; [|split].
  - by rewrite Hp2, Hp1, app_assoc.
  - rewrite fmap_app. apply NoDup_app. split; [done|]. split; [|done].
    intros i Hi2 Hi1.
    apply list_elem_of_fmap in Hi2 as (t2 & -> & Ht2).
    apply list_elem_of_fmap in Hi1 as (t1 & Heq & Ht1).
    rewrite Forall_forall in Hr1, Hr2.
    specialize (Hr1 _ Ht1). specialize (Hr2 _ Ht2). lia.
  - apply Forall_app. split.
    + eapply Forall_impl; [exact Hr2|]. simpl. intros. lia.
    + eapply Forall_impl; [exact Hr1|]. simpl. intros. lia.
Qed.

Lemma tasks_step_unique w w' :
  tasks_step w w' → tasks_unique w → tasks_unique w'.
Proof.
  intros (Hle & new & Hp & Hnd & Hr) (Hu & Hb). split.
  - rewrite Hp, fmap_app. apply NoDup_app. split; [done|]. split; [|done].
    intros i Hi2 Hi1.
    apply list_elem_of_fmap in Hi2 as (t2 & -> & Ht2).
    apply list_elem_of_fmap in Hi1 as (t1 & Heq & Ht1).
    rewrite Forall_forall in Hr, Hb.
    specialize (Hr _ Ht2). specialize (Hb _ Ht1). lia.
  - rewrite Hp. apply Forall_app. split.
    + eapply Forall_impl; [exact Hr|]. simpl. intros. lia.
    + eapply Forall_impl; [exact Hb|]. simpl. intros. lia.
Qed.

Lemma extends_refl w : extends w w.
Proof.
  split; [done| |apply tasks_step_refl].
  intros sid s Hs. by exists s.
Qed.

Lemma extends_trans w1 w2 w3 : extends w1 w2 → extends w2 w3 → extends w1 w3.
Proof.
  intros [Hl1 Hs1 Ht1] [Hl2 Hs2 Ht2]. split.
  - by etrans.
  - intros sid s Hs. destruct (Hs1 sid s Hs) as (s' & Hs' & Hm1).
    destruct (Hs2 sid s' Hs') as (s'' & Hs'' & Hm2).
    exists s''. split; [done|]. intros d Hd. auto.
  - by eapply tasks_step_trans.
Qed.

Lemma Ext_ret {A} (a : A) : Ext (ret a).
Proof. intros w. apply extends_refl. Qed.

Lemma Ext_bind {A B} (m : M A) (k : A → M B) :
  Ext m → (∀ a, Ext (k a)) → Ext (bind m k).
Proof.
  intros Hm Hk w. unfold bind. specialize (Hm w).
  destruct (m w) as [a w1]. eapply extends_trans; [exact Hm|]. apply Hk.
Qed.

Lemma teardowns_app l1 l2 : teardowns (l1 ++ l2) = teardowns l1 ++ teardowns l2.
Proof. apply omap_app. Qed.

Lemma teardowns_map ts : teardowns (map ETeardown ts) = ts.
Proof. induction ts as [|t ts IH]; [done|]. simpl. by rewrite IH. Qed.

(** A change that appends events other than teardowns, leaves the
    registries alone and keeps the memo of every session. *)
Lemma extends_quiet (w w' : World) es :
  log w' = log w ++ es →
  teardowns es = [] →
  registries w' = registries w →
  (nextID w ≤ nextID w')%nat →
  (∀ sid s, sessions w !! sid = Some s →
     ∃ s', sessions w' !! sid = Some s'
           ∧ ∀ d, destroyMemo s = Some d → destroyMemo s' = Some d) →
  extends w w'.
Proof.
  intros Hl Hes Hr Hid Hs. split; [by exists es|done|].
  split; [done|]. exists []. split; [|split; [constructor|done]].
  unfold all_tasks. rewrite Hl, Hr, teardowns_app, Hes, app_nil_r. done.
Qed.

Lemma sessions_kept (w w' : World) :
  sessions w' = sessions w →
  ∀ sid s, sessions w !! sid = Some s →
    ∃ s', sessions w' !! sid = Some s'
          ∧ ∀ d, destroyMemo s = Some d → destroyMemo s' = Some d.
Proof. intros -> sid s Hs. by exists s. Qed.

Lemma Ext_emits es : teardowns es = [] → Ext (emits es).
Proof.
  intros Hes w. by apply (extends_quiet _ _ es); [..|apply sessions_kept].
Qed.

Lemma Ext_emit e : teardown_of e = None → Ext (emit e).
Proof.
  intros He w. apply (extends_quiet _ _ [e]); [done|..|by apply sessions_kept];
    try done.
  unfold teardowns. simpl. by rewrite He.
Qed.

Lemma Ext_briceLog msg : Ext (briceLog msg).
Proof. by apply Ext_emit. Qed.

Lemma Ext_info_track_flush name payload fields :
  Ext (info_track_flush name payload fields).
Proof. by apply Ext_emits. Qed.

Lemma extends_same_log (w w' : World) :
  log w' = log w → registries w' = registries w →
  (nextID w ≤ nextID w')%nat → sessions w' = sessions w →
  extends w w'.
Proof.
  intros Hl Hr Hid Hs. apply (extends_quiet _ _ []); try done.
  - by rewrite app_nil_r.
  - by apply sessions_kept.
Qed.

Lemma Ext_fresh : Ext fresh.
Proof. intros w. apply extends_same_log; simpl; auto. Qed.

Lemma Ext_uniqueID : Ext uniqueID.
Proof. intros w. by apply extends_same_log. Qed.

Lemma Ext_get_session sid : Ext (get_session sid).
Proof. intros w. apply extends_refl. Qed.

Lemma Ext_update_session sid f :
  (∀ s, destroyMemo (f s) = destroyMemo s) → Ext (update_session sid f).
Proof.
  intros Hf w. apply (extends_quiet _ _ []); try done.
  - simpl. by rewrite app_nil_r.
  - intros sid' s Hs. simpl. destruct (decide (sid' = sid)) as [->|Hne].
    + exists (f s). rewrite list_lookup_alter_eq, Hs. split; [done|].
      intros d. by rewrite Hf.
    + exists s. by rewrite list_lookup_alter_ne.
Qed.

Lemma Ext_set_clean c : Ext (λ w, (tt, set_clean c w)).
Proof. intros w. by apply extends_same_log. Qed.

Lemma Ext_openNativePopup p sid uid : Ext (openNativePopup p sid uid).
Proof.
  intros w. by apply (extends_quiet _ _ [EOpenNativePopup p sid uid]);
    [..|apply sessions_kept].
Qed.

Lemma switch_diagnostics_quiet kind st :
  teardowns (switch_diagnostics kind st) = [].
Proof. unfold switch_diagnostics. by repeat case_bool_decide. Qed.

Lemma Ext_record_app_switch : Ext record_app_switch.
Proof.
  intros w. apply (extends_quiet _ _ (switch_diagnostics "app" (storage w)));
    try done; [apply switch_diagnostics_quiet|by apply sessions_kept].
Qed.

Lemma Ext_record_web_switch : Ext record_web_switch.
Proof.
  intros w. apply (extends_quiet _ _ (switch_diagnostics "web" (storage w)));
    try done; [apply switch_diagnostics_quiet|by apply sessions_kept].
Qed.

Lemma Ext_new_session env o : Ext (new_session env o).
Proof.
  intros w. apply (extends_quiet _ _ []); try done.
  - simpl. by rewrite app_nil_r.
  - intros sid s Hs. exists s. simpl. split; [|done].
    by apply lookup_app_l_Some.
Qed.

(** A world change that only moves or keeps the known actions. *)
Lemma extends_moved (w w' : World) :
  log w `prefix_of` log w' →
  all_tasks w' ≡ₚ all_tasks w →
  (nextID w ≤ nextID w')%nat →
  sessions w' = sessions w →
  extends w w'.
Proof.
  intros Hl Ht Hid Hs. split; [done|by apply sessions_kept|].
  split; [done|]. exists []. split; [done|]. split; [constructor|done].
Qed.

Lemma Ext_cleanup : Ext cleanup.
Proof.
  intros w. apply extends_moved; try done. unfold all_tasks. simpl.
  rewrite fmap_app, join_app. simpl. by rewrite !app_nil_r.
Qed.

Lemma join_lookup_perm {A} (ls : list (list A)) i x :
  ls !! i = Some x → mjoin ls ≡ₚ x ++ mjoin (delete i ls).
Proof. intros Hx. by rewrite (delete_Permutation ls i x Hx) at 1. Qed.

Lemma join_insert_perm {A} (ls : list (list A)) i x y :
  ls !! i = Some x → mjoin (<[i := y]> ls) ≡ₚ y ++ mjoin (delete i ls).
Proof.
  intros Hx.
  rewrite (join_lookup_perm (<[i := y]> ls) i y)
    by (by eapply lookup_insert_same).
  rewrite !delete_take_drop. rewrite take_insert_ge by lia.
  rewrite drop_insert_lt by lia. done.
Qed.

Lemma all_in_tasks env rid (w : World) :
  all_tasks (snd (all_in env rid w)) ≡ₚ all_tasks w.
Proof.
  unfold all_in, all_tasks. destruct (registries w !! rid) as [r|] eqn:Hr;
    [|done].
  simpl. rewrite teardowns_app, teardowns_map, list_fmap_insert. simpl.
  assert ((tasks <$> registries w) !! rid = Some (tasks r)) as Hr'.
  { by rewrite list_lookup_fmap, Hr. }
  rewrite (join_insert_perm _ _ _ [] Hr'), (join_lookup_perm _ _ _ Hr').
  simpl. by rewrite <- app_assoc.
Qed.

Lemma Ext_all_in env rid : Ext (all_in env rid).
Proof.
  intros w. apply extends_moved.
  - rewrite all_in_log. by apply prefix_app_r.
  - apply all_in_tasks.
  - unfold all_in. by destruct (registries w !! rid).
  - unfold all_in. by destruct (registries w !! rid).
Qed.

Lemma Ext_clean_all env : Ext (clean_all env).
Proof.
  intros w. unfold clean_all. destruct (clean w); [apply Ext_all_in|].
  apply extends_refl.
Qed.

Lemma register_in_tasks env rid t (w : World) :
  all_tasks (snd (register_in env rid t w)) ≡ₚ all_tasks w
  ∨ all_tasks (snd (register_in env rid t w)) ≡ₚ t :: all_tasks w.
Proof.
  unfold register_in, all_tasks.
  destruct (registries w !! rid) as [r|] eqn:Hr; [|by left]. right.
  assert ((tasks <$> registries w) !! rid = Some (tasks r)) as Hr'.
  { by rewrite list_lookup_fmap, Hr. }
  assert (teardowns (log w) ++
            mjoin (tasks <$> <[rid := {| tasks := tasks r ++ [t];
                                         cleaned := cleaned r |}]>
                               (registries w))
          ≡ₚ t :: teardowns (log w) ++ mjoin (tasks <$> registries w)) as Happ.
  { rewrite list_fmap_insert. simpl.
    rewrite (join_insert_perm _ _ _ (tasks r ++ [t]) Hr').
    rewrite (join_lookup_perm _ _ _ Hr').
    rewrite <- !app_assoc. simpl.
    by rewrite <- !Permutation_middle. }
  destruct (cleaned r) eqn:Hc, (lateRegister env); simpl; try done.
  rewrite teardowns_app. simpl. rewrite <- app_assoc. simpl.
  by rewrite <- Permutation_middle.
Qed.

Lemma clean_register_tasks env t (w : World) :
  all_tasks (snd (clean_register env t w)) ≡ₚ all_tasks w
  ∨ all_tasks (snd (clean_register env t w)) ≡ₚ t :: all_tasks w.
Proof.
  unfold clean_register. destruct (clean w); [apply register_in_tasks|].
  by left.
Qed.

Lemma Quiet_emit e : teardown_of e = None → Quiet (emit e).
Proof.
  intros He w. simpl. split; [by apply prefix_app_r|]. split; [|done].
  unfold all_tasks. simpl. rewrite teardowns_app. unfold teardowns at 2.
  simpl. by rewrite He, app_nil_r.
Qed.

Lemma Quiet_openNativePopup p sid uid : Quiet (openNativePopup p sid uid).
Proof.
  intros w. simpl. split; [by apply prefix_app_r|]. split; [|done].
  unfold all_tasks. simpl. rewrite teardowns_app. by rewrite app_nil_r.
Qed.

(** Registering the teardown of a resource right after creating it. *)
Lemma Ext_fresh_register {A} env (mk : nat → Task) (pre : nat → M unit)
    (post : nat → M A) :
  (∀ i, task_id (mk i) = i) →
  (∀ i, Quiet (pre i)) →
  (∀ i, Ext (post i)) →
  Ext (i <~ fresh ;; pre i ;;; clean_register env (mk i) ;;; post i).
Proof.
  intros Hmk Hpre Hpost w. unfold bind, fresh.
  destruct (Hpre (nextID w) (set_nextID (S (nextID w)) w))
    as (Hl2 & Ht2 & Hid2 & Hs2).
  destruct (pre (nextID w) (set_nextID (S (nextID w)) w)) as [[] w2].
  simpl in *.
  destruct (clean_register_frame env (mk (nextID w)) w2) as [Hf Hl3].
  pose proof (clean_register_tasks env (mk (nextID w)) w2) as Ht3.
  destruct (clean_register env (mk (nextID w)) w2) as [[] w3]. simpl in *.
  destruct Hf as (_ & Hs3 & _ & _ & _ & _ & Hid3 & _).
  eapply extends_trans; [|apply Hpost]. split.
  - etrans; [exact Hl2|]. destruct Hl3 as [-> | ->]; [done|].
    by apply prefix_app_r.
  - apply sessions_kept. by rewrite Hs3, Hs2.
  - split; [lia|]. rewrite Ht2 in Ht3.
    change (all_tasks (set_nextID (S (nextID w)) w)) with (all_tasks w) in Ht3.
    destruct Ht3 as [Ht3|Ht3].
    + exists []. split; [done|]. split; [constructor|done].
    + exists [mk (nextID w)]. split; [done|]. split.
      * simpl. apply NoDup_singleton.
      * constructor; [|done]. rewrite Hmk. lia.
Qed.

Lemma extends_set_memo (w : World) sid s m :
  sessions w !! sid = Some s →
  destroyMemo s = None →
  extends w (set_sessions (alter (set_destroyMemo m) sid (sessions w)) w).
Proof.
  intros Hs Hm. apply (extends_quiet _ _ []); try done.
  - simpl. by rewrite app_nil_r.
  - intros sid' s' Hs'. simpl. destruct (decide (sid' = sid)) as [->|Hne].
    + rewrite list_lookup_alter_eq, Hs. simpl. eexists. split; [done|].
      rewrite Hs in Hs'. injection Hs' as <-. intros d. by rewrite Hm.
    + exists s'. by rewrite list_lookup_alter_ne.
Qed.

Lemma Ext_destroy env sid : Ext (destroy env sid).
Proof.
  intros w. unfold destroy, memoize. unfold_monad.
  destruct (sessions w !! sid) as [s|] eqn:Hs; [|apply extends_refl].
  destruct (destroyMemo s) eqn:Hm; [apply extends_refl|].
  pose proof (Ext_clean_all env w) as Hext.
  assert (sessions (snd (clean_all env w)) = sessions w) as Hss.
  { unfold clean_all, all_in. destruct (clean w) as [rid|]; [|done].
    by destruct (registries w !! rid). }
  destruct (clean_all env w) as [d w1]. simpl in *.
  eapply extends_trans; [exact Hext|].
  apply (extends_set_memo w1 sid s); [by rewrite Hss|done].
Qed.

Create HintDb ext discriminated.

Hint Resolve Ext_ret Ext_briceLog Ext_info_track_flush Ext_fresh Ext_uniqueID
  Ext_get_session Ext_set_clean Ext_openNativePopup Ext_record_app_switch
  Ext_record_web_switch Ext_new_session Ext_cleanup Ext_all_in Ext_clean_all
  Ext_destroy : ext.
Hint Extern 1 (Ext (emit _)) => apply Ext_emit; reflexivity : ext.
Hint Extern 1 (Ext (emits _)) => apply Ext_emits; reflexivity : ext.
Hint Extern 1 (Ext (update_session _ _)) =>
  apply Ext_update_session; intros []; reflexivity : ext.

Ltac solve_Ext :=
  repeat match goal with
         | |- ∀ _, _ => intro
         | |- Ext (bind _ _) => apply Ext_bind
         | |- Ext (match ?x with _ => _ end) => destruct x
         | |- Ext _ => solve [eauto with ext]
         end.

Lemma Ext_fallbackToWebCheckout env sid fallbackWin :
  Ext (fallbackToWebCheckout env sid fallbackWin).
Proof.
  unfold fallbackToWebCheckout.
  apply Ext_bind; [auto with ext|intros _].
  apply Ext_bind; [auto with ext|intros _].
  apply Ext_bind; [auto with ext|intros [s|]]; [|auto with ext].
  apply (Ext_fresh_register env CheckoutClose
           (λ i, emit (ECheckoutInit i sid (checkoutPayment (payment s) fallbackWin)))
           (λ i, emit (ECheckoutStart i) ;;; ret (checkoutStart env i))).
  - done.
  - intros i. by apply Quiet_emit.
  - solve_Ext.
Qed.
Hint Resolve Ext_fallbackToWebCheckout : ext.

Lemma Ext_detectAppSwitch env sid uid : Ext (detectAppSwitch env sid uid).
Proof.
  unfold detectAppSwitch.
  apply Ext_bind; [auto with ext|intros _].
  apply Ext_bind; [auto with ext|intros _].
  apply (Ext_fresh_register env ConnectionCancel
           (λ c, emit (EConnectNative c sid uid))
           (λ c, emit (ESetProps c) ;;; ret (setProps env c))).
  - done.
  - intros i. by apply Quiet_emit.
  - solve_Ext.
Qed.
Hint Resolve Ext_detectAppSwitch : ext.

Lemma Ext_initPopupAppSwitch env sid uid : Ext (initPopupAppSwitch env sid uid).
Proof.
  unfold initPopupAppSwitch.
  apply Ext_bind; [auto with ext|intros _].
  destruct (openNativePopupThrows env uid); [auto with ext|].
  apply (Ext_fresh_register env PopupCancel
           (λ p, openNativePopup p sid uid)
           (λ p, ret (Returns p))).
  - done.
  - intros i. apply Quiet_openNativePopup.
  - solve_Ext.
Qed.
Hint Resolve Ext_initPopupAppSwitch : ext.

Lemma Ext_session_id_result sid p : Ext (session_id_result sid p).
Proof. unfold session_id_result. solve_Ext. Qed.
Hint Resolve Ext_session_id_result : ext.

Lemma Ext_onApproveCallback env sid m : Ext (onApproveCallback env sid m).
Proof. unfold onApproveCallback, onApprove_catch. solve_Ext. Qed.

Lemma Ext_onCancelCallback env sid : Ext (onCancelCallback env sid).
Proof. unfold onCancelCallback. solve_Ext. Qed.

Lemma Ext_onErrorCallback env sid message : Ext (onErrorCallback env sid message).
Proof. unfold onErrorCallback. solve_Ext. Qed.

Lemma Ext_onShippingChangeCallback env sid data :
  Ext (onShippingChangeCallback env sid data).
Proof. unfold onShippingChangeCallback. solve_Ext. Qed.

Lemma Ext_onFallbackCallback env sid : Ext (onFallbackCallback env sid).
Proof. unfold onFallbackCallback. solve_Ext. Qed.

Lemma Ext_detectWebSwitch env sid win : Ext (detectWebSwitch env sid win).
Proof. unfold detectWebSwitch. solve_Ext. Qed.

Lemma Ext_onCloseCallback sid : Ext (onCloseCallback sid).
Proof.
  unfold onCloseCallback. apply Ext_bind; [auto with ext|intros _].
  intros w. by apply extends_same_log.
Qed.

Lemma Ext_onClose_after_delay env sid : Ext (onClose_after_delay env sid).
Proof. unfold onClose_after_delay. solve_Ext. Qed.

Lemma Ext_click_catch env sid err : Ext (click_catch env sid err).
Proof. unfold click_catch, click_rethrow. solve_Ext. Qed.
Hint Resolve Ext_click_catch : ext.

Lemma Ext_initQRCode env sid uid : Ext (initQRCode env sid uid).
Proof. unfold initQRCode. rewrite qr_callbacks_throws. solve_Ext. Qed.
Hint Resolve Ext_initQRCode : ext.

Lemma Ext_click env sid : Ext (click env sid).
Proof. unfold click. solve_Ext. Qed.

Lemma extends_set_popups (w : World) ps : extends w (set_popups ps w).
Proof. by apply extends_same_log. Qed.

Lemma Ext_settle_click env p r : Ext (settle_click env p r).
Proof.
  intros w. unfold settle_click.
  destruct (popups w !! p) as [pp|]; [|apply extends_refl].
  destruct (settled pp); [apply extends_refl|].
  destruct r as [[]|err|]; [apply extends_set_popups| |apply extends_refl].
  pose proof (Ext_click_catch env (popupSession pp) err w) as H.
  destruct (click_catch env (popupSession pp) err w) as [q w1]. simpl in *.
  eapply extends_trans; [exact H|]. apply extends_set_popups.
Qed.
Hint Resolve Ext_settle_click Ext_detectWebSwitch : ext.

Lemma Ext_onDetectWebSwitch env p win : Ext (onDetectWebSwitch env p win).
Proof.
  intros w. unfold onDetectWebSwitch.
  destruct (popups w !! p) as [pp|]; [|apply extends_refl].
  apply (Ext_bind (detectWebSwitch env (popupSession pp) win)
           (λ r, settle_click env p r)); auto with ext.
Qed.

Lemma Ext_onDetectAppSwitch env p : Ext (onDetectAppSwitch env p).
Proof.
  intros w. unfold onDetectAppSwitch.
  destruct (popups w !! p) as [pp|]; [|apply extends_refl].
  apply (Ext_bind (detectAppSwitch env (popupSession pp) (popupUID pp))
           (λ r, settle_click env p r)); auto with ext.
Qed.

Lemma extends_fire_timers env (due : list (Z * nat)) (w : World) :
  extends w
    (fold_left (λ w' x, snd (onClose_after_delay env (snd x) w')) due w).
Proof.
  revert w. induction due as [|x due IH]; intros w; [apply extends_refl|].
  simpl. eapply extends_trans; [|apply IH]. apply Ext_onClose_after_delay.
Qed.

Lemma Ext_elapse env dt : Ext (elapse env dt).
Proof.
  intros w. unfold elapse. simpl.
  eapply extends_trans; [|apply extends_fire_timers].
  by apply extends_same_log.
Qed.

Lemma Ext_initNative env o : Ext (initNative env o).
Proof.
  unfold initNative. apply Ext_bind; [auto with ext|intros _].
  destruct (io_firebase o); [|auto with ext].
  apply Ext_bind.
  - intros w. destruct (clean w); [apply Ext_all_in|apply extends_refl].
  - solve_Ext.
Qed.

Lemma step_extends env st (w : World) : extends w (step env st w).
Proof.
  destruct st; simpl; unfold ignore;
    first [ apply extends_refl
          | apply Ext_initNative | apply Ext_click | apply Ext_destroy
          | apply Ext_onApproveCallback | apply Ext_onCancelCallback
          | apply Ext_onErrorCallback | apply Ext_onFallbackCallback
          | apply Ext_onShippingChangeCallback | apply Ext_onCloseCallback
          | apply Ext_onDetectWebSwitch | apply Ext_onDetectAppSwitch
          | apply Ext_elapse ].
Qed.

Lemma run_extends env steps (w : World) : extends w (run env steps w).
Proof.
  revert w. induction steps as [|st steps IH]; intros w; [apply extends_refl|].
  simpl. eapply extends_trans; [apply step_extends|apply IH].
Qed.

Lemma initial_tasks_unique t st : tasks_unique (initial_world t st).
Proof. split; [constructor|constructor]. Qed.

Lemma run_tasks_unique env steps t st :
  tasks_unique (run env steps (initial_world t st)).
Proof.
  eapply tasks_step_unique; [|apply initial_tasks_unique].
  apply run_extends.
Qed.

Lemma count_prefix f (l1 l2 : list Event) :
  l1 `prefix_of` l2 → (count f l1 ≤ count f l2)%nat.
Proof. intros [k ->]. rewrite count_app. lia. Qed.

Lemma count_teardown_elem t (l : list Event) :
  count (is_teardown t) l ≠ 0%nat → t ∈ teardowns l.
Proof.
  unfold count, teardowns. induction l as [|e l IH]; [done|]. simpl.
  destruct e; simpl; auto. case_bool_decide; simpl.
  - subst. intros _. apply list_elem_of_here.
  - intros Hc. apply list_elem_of_further. auto.
Qed.

Lemma count_teardown_map t (ts : list Task) :
  t ∈ ts → (1 ≤ count (is_teardown t) (map ETeardown ts))%nat.
Proof.
  unfold count. induction ts as [|t' ts IH]; [by intros ?%elem_of_nil|].
  intros [->|Hin]%elem_of_cons; simpl.
  - rewrite bool_decide_eq_true_2 by done. simpl. lia.
  - case_bool_decide; simpl; [lia|auto].
Qed.

Lemma count_teardown_unique t (l : list Event) :
  NoDup (task_id <$> teardowns l) → (count (is_teardown t) l ≤ 1)%nat.
Proof.
  induction l as [|e l IH]; [unfold count; simpl; lia|].
  change (e :: l) with ([e] ++ l). rewrite teardowns_app, fmap_app, count_app.
  intros [Hnd1 [Hdisj Hnd2]]%NoDup_app. specialize (IH Hnd2).
  destruct e; try (unfold count at 1; simpl; lia).
  unfold count at 1. simpl. case_bool_decide; simpl; [|lia]. subst.
  destruct (decide (count (is_teardown t) l = 0%nat)) as [->|Hpos]; [lia|].
  apply count_teardown_elem in Hpos. exfalso.
  apply (Hdisj (task_id t)).
  - simpl. apply list_elem_of_here.
  - apply list_elem_of_fmap. by exists t.
Qed.

Lemma tasks_unique_count (w : World) t :
  tasks_unique w → (count (is_teardown t) (log w) ≤ 1)%nat.
Proof.
  intros [Hnd _]. apply count_teardown_unique.
  unfold all_tasks in Hnd. rewrite fmap_app in Hnd.
  by apply NoDup_app in Hnd as [? _].
Qed.

(** C1. In any world reached by any sequence of calls and callbacks, for any
    session: once [destroy] has been called, every later call, whatever runs
    in between, returns the outcome of the first call and changes nothing;
    no teardown action ever appears twice in the log; and the first call
    runs exactly the actions registered with the registry [clean] points
    to, each of which has then run exactly once, for good. *)
Theorem destroy_runs_teardown_once env t0 st0 steps sid (s : Session) :
  sessions (run env steps (initial_world t0 st0)) !! sid = Some s →
  (∀ more,
     destroy env sid
       (run env more (snd (destroy env sid (run env steps (initial_world t0 st0)))))
     = (fst (destroy env sid (run env steps (initial_world t0 st0))),
        run env more (snd (destroy env sid (run env steps (initial_world t0 st0))))))
  ∧ (∀ more t,
       (count (is_teardown t)
          (log (run env more
                  (snd (destroy env sid (run env steps (initial_world t0 st0))))))
        ≤ 1)%nat)
  ∧ (destroyMemo s = None →
     ∀ rid r,
       clean (run env steps (initial_world t0 st0)) = Some rid →
       registries (run env steps (initial_world t0 st0)) !! rid = Some r →
       log (snd (destroy env sid (run env steps (initial_world t0 st0))))
       = log (run env steps (initial_world t0 st0)) ++ map ETeardown (tasks r)
       ∧ ∀ t more,
           t ∈ tasks r →
           count (is_teardown t)
             (log (run env more
                     (snd (destroy env sid (run env steps (initial_world t0 st0))))))
           = 1%nat).
Proof.
  set (w := run env steps (initial_world t0 st0)). intros Hs.
  assert (∀ more t,
            (count (is_teardown t)
               (log (run env more (snd (destroy env sid w)))) ≤ 1)%nat) as Hle.
  { intros more t. apply tasks_unique_count.
    eapply tasks_step_unique; [apply run_extends|].
    eapply tasks_step_unique; [apply Ext_destroy|].
    apply run_tasks_unique. }
  split; [|split; [exact Hle|]].
  - intros more.
    pose proof (destroy_sessions env sid w s Hs) as Hss.
    destruct (ext_sessions _ _ (run_extends env more (snd (destroy env sid w)))
                sid (set_destroyMemo (Some (fst (destroy env sid w))) s))
      as (s2 & Hs2 & Hm2).
    { rewrite Hss. by eapply lookup_insert_same. }
    apply (destroy_memoized env sid _ s2); [done|]. by apply Hm2.
  - intros Hm rid r Hc Hr.
    assert (log (snd (destroy env sid w)) = log w ++ map ETeardown (tasks r))
      as Hl.
    { rewrite destroy_log. unfold pending_teardown.
      by rewrite Hs, Hm, Hc, Hr. }
    split; [done|]. intros t more Ht.
    apply Nat.le_antisymm; [apply Hle|].
    etrans; [|apply count_prefix, (ext_log _ _ (run_extends env more _))].
    rewrite Hl, count_app.
    pose proof (count_teardown_map t (tasks r) Ht). lia.
Qed.

Lemma destroy_runs_teardown_once_witness :
  count (is_teardown (PopupCancel 0))
    (log (run sample_env [SError 0 "declined"; SPopupClose 0; SElapse 1000; SClose 0]
            (snd (destroy sample_env 0 one_popup))))
  = 1%nat.
Proof.
  destruct (destroy_runs_teardown_once sample_env 1600000000000
              {| lastAppSwitchTime := None; lastWebSwitchTime := None |}
              [SInit (sample_options "paypal" (Some "firebase")); SClick 0]
              0%nat _ eq_refl) as (_ & _ & Honce).
  destruct (Honce eq_refl 0%nat {| tasks := [PopupCancel 0]; cleaned := false |}
              eq_refl eq_refl) as [_ Hcount].
  apply (Hcount (PopupCancel 0)
           [SError 0 "declined"; SPopupClose 0; SElapse 1000; SClose 0]).
  apply list_elem_of_here.
Defined.

(** An error message and a popup close racing, with teardown still in
    flight: [destroy] is called by the error callback, by the popup's
    [onDestroy], by the close handler after its delay and by [close()]; the
    popup is cancelled once and every caller gets the same pending future. *)
Example error_and_close_racing :
  teardowns
    (log (run slow_teardown_env
            [SInit (sample_options "paypal" (Some "firebase")); SClick 0;
             SError 0 "declined"; SPopupClose 0; SPopupDestroy 0;
             SElapse 1000; SClose 0] sample_world))
  = [PopupCancel 0]
  ∧ destroyMemo <$>
      sessions (run slow_teardown_env
                  [SInit (sample_options "paypal" (Some "firebase")); SClick 0;
                   SError 0 "declined"; SPopupClose 0; SPopupDestroy 0;
                   SElapse 1000; SClose 0] sample_world) !! 0%nat
    = Some (Some Pending)
  ∧ fst (destroy slow_teardown_env 0
           (run slow_teardown_env
              [SInit (sample_options "paypal" (Some "firebase")); SClick 0;
               SError 0 "declined"; SPopupClose 0; SPopupDestroy 0;
               SElapse 1000; SClose 0] sample_world))
    = Pending.
Proof. repeat split; vm_compute; reflexivity. Qed.

(** ** Two clicks on one instance *)

(** C5 as stated fails. Two clicks in a row on one instance: the second
    click runs no teardown, both popups stay open, and when both report an
    app switch two connections are live side by side. *)
Lemma second_click_keeps_first_connection :
  live_popups
    (log (run working_env
            [SInit (sample_options "paypal" (Some "firebase"));
             SClick 0; SClick 0] sample_world))
  = [0%nat; 1%nat]
  ∧ teardowns
      (log (run working_env
              [SInit (sample_options "paypal" (Some "firebase"));
               SClick 0; SClick 0] sample_world))
    = []
  ∧ live_connections
      (log (run working_env
              [SInit (sample_options "paypal" (Some "firebase"));
               SClick 0; SClick 0; SDetectAppSwitch 0; SDetectAppSwitch 1]
              sample_world))
    = [2%nat; 3%nat].
Proof. repeat split; vm_compute; reflexivity. Qed.

(** * Further properties of the native flow *)

(** ** Operations related step by step *)

Lemma Keeps_ret (R : World → World → Prop) {A} (a : A) :
  (∀ w, R w w) → Keeps R (ret a).
Proof. intros Hrefl w. apply Hrefl. Qed.

Lemma Keeps_bind (R : World → World → Prop) {A B} (m : M A) (k : A → M B) :
  (∀ a b c, R a b → R b c → R a c) →
  Keeps R m → (∀ a, Keeps R (k a)) → Keeps R (bind m k).
Proof.
  intros Htrans Hm Hk w. unfold bind. specialize (Hm w).
  destruct (m w) as [a w1]. eapply Htrans; [exact Hm|]. apply Hk.
Qed.

Lemma session_grows_refl s : session_grows s s.
Proof. by repeat split. Qed.

Lemma session_grows_trans s1 s2 s3 :
  session_grows s1 s2 → session_grows s2 s3 → session_grows s1 s3.
Proof.
  intros (?&?&?&?&?&?&?&?) (?&?&?&?&?&?&?&?).
  repeat split; try congruence; auto.
Qed.

Lemma sessions_grow_refl w : sessions_grow w w.
Proof. intros sid s Hs. exists s. split; [done|apply session_grows_refl]. Qed.

Lemma sessions_grow_trans w1 w2 w3 :
  sessions_grow w1 w2 → sessions_grow w2 w3 → sessions_grow w1 w3.
Proof.
  intros H1 H2 sid s Hs. destruct (H1 sid s Hs) as (s' & Hs' & Hg1).
  destruct (H2 sid s' Hs') as (s'' & Hs'' & Hg2). exists s''.
  split; [done|]. by eapply session_grows_trans.
Qed.

Lemma sessions_grow_same (w w' : World) :
  sessions w' = sessions w → sessions_grow w w'.
Proof. intros Heq sid s Hs. exists s. rewrite Heq. split; [done|apply session_grows_refl]. Qed.

Lemma calm_refl sid w : calm sid w w.
Proof.
  split; [apply sessions_grow_refl|]. exists []. by rewrite app_nil_r.
Qed.

Lemma calm_trans sid w1 w2 w3 : calm sid w1 w2 → calm sid w2 w3 → calm sid w1 w3.
Proof.
  intros [Hg1 (es1 & Hl1 & Hc1)] [Hg2 (es2 & Hl2 & Hc2)]. split.
  - by eapply sessions_grow_trans.
  - exists (es1 ++ es2). rewrite Hl2, Hl1, app_assoc, count_app. split; [done|lia].
Qed.

Lemma calm_quiet sid (w w' : World) es :
  log w' = log w ++ es → count (is_on_cancel sid) es = 0%nat →
  sessions w' = sessions w → calm sid w w'.
Proof.
  intros Hl Hc Hs. split; [by apply sessions_grow_same|]. by exists es.
Qed.

Lemma calm_same_log sid (w w' : World) :
  log w' = log w → sessions w' = sessions w → calm sid w w'.
Proof.
  intros Hl Hs. apply (calm_quiet sid w w' []); [by rewrite app_nil_r|done|done].
Qed.

Lemma calm_emit sid e : is_on_cancel sid e = false → Keeps (calm sid) (emit e).
Proof.
  intros He w. apply (calm_quiet sid _ _ [e]); [done| |done].
  unfold count. simpl. by rewrite He.
Qed.

Lemma calm_emits sid es :
  count (is_on_cancel sid) es = 0%nat → Keeps (calm sid) (emits es).
Proof. intros He w. by apply (calm_quiet sid _ _ es). Qed.

Lemma calm_briceLog sid msg : Keeps (calm sid) (briceLog msg).
Proof. by apply calm_emit. Qed.

Lemma calm_info_track_flush sid name payload fields :
  Keeps (calm sid) (info_track_flush name payload fields).
Proof. by apply calm_emits. Qed.

Lemma calm_fresh sid : Keeps (calm sid) fresh.
Proof. intros w. by apply calm_same_log. Qed.

Lemma calm_uniqueID sid : Keeps (calm sid) uniqueID.
Proof. intros w. by apply calm_same_log. Qed.

Lemma calm_get_session sid sid' : Keeps (calm sid) (get_session sid').
Proof. intros w. apply calm_refl. Qed.

Lemma calm_update_session sid sid' f :
  (∀ s, session_grows s (f s)) → Keeps (calm sid) (update_session sid' f).
Proof.
  intros Hf w. split.
  - intros i s Hs. simpl. destruct (decide (i = sid')) as [->|Hne].
    + exists (f s). by rewrite list_lookup_alter_eq, Hs.
    + exists s. rewrite list_lookup_alter_ne by done.
      split; [done|apply session_grows_refl].
  - exists []. simpl. by rewrite app_nil_r.
Qed.

Lemma calm_set_clean sid c : Keeps (calm sid) (λ w, (tt, set_clean c w)).
Proof. intros w. by apply calm_same_log. Qed.

Lemma calm_openNativePopup sid p sid' uid :
  Keeps (calm sid) (openNativePopup p sid' uid).
Proof. intros w. by apply (calm_quiet sid _ _ [EOpenNativePopup p sid' uid]). Qed.

Lemma count_on_cancel_diagnostics sid kind st :
  count (is_on_cancel sid) (switch_diagnostics kind st) = 0%nat.
Proof. unfold switch_diagnostics. by repeat case_bool_decide. Qed.

Lemma calm_record_app_switch sid : Keeps (calm sid) record_app_switch.
Proof.
  intros w. apply (calm_quiet sid _ _ (switch_diagnostics "app" (storage w)));
    [done|apply count_on_cancel_diagnostics|done].
Qed.

Lemma calm_record_web_switch sid : Keeps (calm sid) record_web_switch.
Proof.
  intros w. apply (calm_quiet sid _ _ (switch_diagnostics "web" (storage w)));
    [done|apply count_on_cancel_diagnostics|done].
Qed.

Lemma calm_new_session sid env o : Keeps (calm sid) (new_session env o).
Proof.
  intros w. split.
  - intros i s Hs. exists s. simpl. split; [by apply lookup_app_l_Some|].
    apply session_grows_refl.
  - exists []. simpl. by rewrite app_nil_r.
Qed.

Lemma calm_cleanup sid : Keeps (calm sid) cleanup.
Proof. intros w. by apply calm_same_log. Qed.

Lemma calm_all_in sid env rid : Keeps (calm sid) (all_in env rid).
Proof.
  intros w. unfold all_in. destruct (registries w !! rid) as [r|];
    [|apply calm_refl].
  apply (calm_quiet sid _ _ (map ETeardown (tasks r))); [done| |done].
  by apply count_teardown_events.
Qed.

Lemma calm_clean_all sid env : Keeps (calm sid) (clean_all env).
Proof.
  intros w. unfold clean_all. destruct (clean w); [apply calm_all_in|].
  apply calm_refl.
Qed.

Lemma calm_clean_register sid env t : Keeps (calm sid) (clean_register env t).
Proof.
  intros w. destruct (clean_register_frame env t w) as [Hf Hl].
  destruct Hf as (_ & Hs & _). destruct Hl as [Hl|Hl].
  - by apply calm_same_log.
  - by apply (calm_quiet sid _ _ [ETeardown t]).
Qed.

Lemma calm_destroy sid env sid' : Keeps (calm sid) (destroy env sid').
Proof.
  intros w. split.
  - intros i s Hs.
    destruct (destroy_flags_kept env sid' w i s Hs)
      as (s' & Hs' & Ha & Hc & Hf & Hv & Hb & Hp).
    exists s'. split; [done|].
    destruct (sessions w !! sid') as [s0|] eqn:Hs0.
    + rewrite (destroy_sessions env sid' w s0 Hs0) in Hs'.
      destruct (decide (i = sid')) as [->|Hne].
      * rewrite (lookup_insert_same _ _ _ _ Hs0) in Hs'.
        injection Hs' as <-. rewrite Hs0 in Hs. injection Hs as <-.
        repeat split; simpl; auto.
      * rewrite list_lookup_insert_ne in Hs' by done.
        rewrite Hs in Hs'. injection Hs' as <-. apply session_grows_refl.
    + unfold destroy in Hs'. unfold_monad. rewrite Hs0 in Hs'. simpl in Hs'.
      rewrite Hs in Hs'. injection Hs' as <-. apply session_grows_refl.
  - exists (map ETeardown (pending_teardown w sid')). split.
    + apply destroy_log.
    + by apply count_teardown_events.
Qed.

Create HintDb calm discriminated.

Hint Resolve calm_briceLog calm_info_track_flush calm_fresh calm_uniqueID
  calm_get_session calm_set_clean calm_openNativePopup calm_record_app_switch
  calm_record_web_switch calm_new_session calm_cleanup calm_all_in
  calm_clean_all calm_clean_register calm_destroy : calm.
Hint Extern 1 (Keeps (calm _) (ret _)) =>
  apply Keeps_ret; apply calm_refl : calm.
Hint Extern 1 (Keeps (calm _) (emit (EOnCancel _))) =>
  apply calm_emit; apply bool_decide_eq_false_2; congruence : calm.
Hint Extern 2 (Keeps (calm _) (emit _)) => apply calm_emit; reflexivity : calm.
Hint Extern 1 (Keeps (calm _) (emits _)) =>
  apply calm_emits; reflexivity : calm.
Hint Extern 1 (Keeps (calm _) (update_session _ _)) =>
  apply calm_update_session; intros []; by repeat split : calm.

Ltac solve_calm :=
  repeat match goal with
         | |- ∀ _, _ => intro
         | |- Keeps (calm _) (bind _ _) =>
             apply Keeps_bind; [apply calm_trans| |]
         | |- Keeps (calm _) (match ?x with _ => _ end) => destruct x
         | |- Keeps (calm _) _ => solve [eauto with calm]
         end.

Lemma calm_fallbackToWebCheckout sid env sid' fallbackWin :
  Keeps (calm sid) (fallbackToWebCheckout env sid' fallbackWin).
Proof. unfold fallbackToWebCheckout. solve_calm. Qed.
Hint Resolve calm_fallbackToWebCheckout : calm.

Lemma calm_session_id_result sid sid' p : Keeps (calm sid) (session_id_result sid' p).
Proof. unfold session_id_result. solve_calm. Qed.
Hint Resolve calm_session_id_result : calm.

Lemma calm_onApproveCallback sid env sid' m :
  Keeps (calm sid) (onApproveCallback env sid' m).
Proof. unfold onApproveCallback, onApprove_catch. solve_calm. Qed.

Lemma calm_onErrorCallback sid env sid' message :
  Keeps (calm sid) (onErrorCallback env sid' message).
Proof. unfold onErrorCallback. solve_calm. Qed.

Lemma calm_onShippingChangeCallback sid env sid' data :
  Keeps (calm sid) (onShippingChangeCallback env sid' data).
Proof. unfold onShippingChangeCallback. solve_calm. Qed.

Lemma calm_onFallbackCallback sid env sid' :
  Keeps (calm sid) (onFallbackCallback env sid').
Proof. unfold onFallbackCallback. solve_calm. Qed.

Lemma calm_detectWebSwitch sid env sid' win :
  Keeps (calm sid) (detectWebSwitch env sid' win).
Proof. unfold detectWebSwitch. solve_calm. Qed.

Lemma calm_detectAppSwitch sid env sid' uid :
  Keeps (calm sid) (detectAppSwitch env sid' uid).
Proof. unfold detectAppSwitch. solve_calm. Qed.

Lemma calm_onCloseCallback sid sid' : Keeps (calm sid) (onCloseCallback sid').
Proof.
  unfold onCloseCallback. apply Keeps_bind; [apply calm_trans|auto with calm|].
  intros _ w. by apply calm_same_log.
Qed.

Lemma calm_click_catch sid env sid' err : Keeps (calm sid) (click_catch env sid' err).
Proof. unfold click_catch, click_rethrow. solve_calm. Qed.
Hint Resolve calm_click_catch calm_detectWebSwitch calm_detectAppSwitch : calm.

Lemma calm_initQRCode sid env sid' uid : Keeps (calm sid) (initQRCode env sid' uid).
Proof. unfold initQRCode. rewrite qr_callbacks_throws. solve_calm. Qed.

Lemma calm_initPopupAppSwitch sid env sid' uid :
  Keeps (calm sid) (initPopupAppSwitch env sid' uid).
Proof. unfold initPopupAppSwitch. solve_calm. Qed.
Hint Resolve calm_initQRCode calm_initPopupAppSwitch : calm.

Lemma calm_click sid env sid' : Keeps (calm sid) (click env sid').
Proof. unfold click. solve_calm. Qed.

Lemma calm_set_popups sid (w : World) ps : calm sid w (set_popups ps w).
Proof. by apply calm_same_log. Qed.

Lemma calm_settle_click sid env p r : Keeps (calm sid) (settle_click env p r).
Proof.
  intros w. unfold settle_click.
  destruct (popups w !! p) as [pp|]; [|apply calm_refl].
  destruct (settled pp); [apply calm_refl|].
  destruct r as [[]|err|]; [apply calm_set_popups| |apply calm_refl].
  pose proof (calm_click_catch sid env (popupSession pp) err w) as H.
  destruct (click_catch env (popupSession pp) err w) as [q w1]. simpl in *.
  eapply calm_trans; [exact H|]. apply calm_set_popups.
Qed.
Hint Resolve calm_settle_click : calm.

Lemma calm_onDetectWebSwitch sid env p win :
  Keeps (calm sid) (onDetectWebSwitch env p win).
Proof.
  intros w. unfold onDetectWebSwitch.
  destruct (popups w !! p) as [pp|]; [|apply calm_refl].
  apply (Keeps_bind (calm sid) (detectWebSwitch env (popupSession pp) win)
           (λ r, settle_click env p r)); auto with calm. apply calm_trans.
Qed.

Lemma calm_onDetectAppSwitch sid env p : Keeps (calm sid) (onDetectAppSwitch env p).
Proof.
  intros w. unfold onDetectAppSwitch.
  destruct (popups w !! p) as [pp|]; [|apply calm_refl].
  apply (Keeps_bind (calm sid)
           (detectAppSwitch env (popupSession pp) (popupUID pp))
           (λ r, settle_click env p r)); auto with calm. apply calm_trans.
Qed.

Lemma calm_initNative sid env o : Keeps (calm sid) (initNative env o).
Proof.
  unfold initNative. apply Keeps_bind; [apply calm_trans|auto with calm|].
  intros _. destruct (io_firebase o); [|auto with calm].
  apply Keeps_bind; [apply calm_trans| |solve_calm].
  intros w. destruct (clean w); [apply calm_all_in|apply calm_refl].
Qed.

(** The cancel callback and the close handler of another session. *)
Lemma calm_onCancelCallback sid env sid' :
  sid' ≠ sid → Keeps (calm sid) (onCancelCallback env sid').
Proof. intros Hne. unfold onCancelCallback. solve_calm. Qed.

Lemma calm_onClose_after_delay_other sid env sid' :
  sid' ≠ sid → Keeps (calm sid) (onClose_after_delay env sid').
Proof. intros Hne. unfold onClose_after_delay. solve_calm. Qed.

Lemma calm_fire_timers_grow env (due : list (Z * nat)) (w : World) :
  sessions_grow w
    (fold_left (λ w' x, snd (onClose_after_delay env (snd x) w')) due w).
Proof.
  revert w. induction due as [|x due IH]; intros w; [apply sessions_grow_refl|].
  simpl. eapply sessions_grow_trans; [|apply IH].
  apply (calm_onClose_after_delay_other (S (snd x)) env (snd x)). lia.
Qed.

Lemma calm_sessions_grow sid {A} (m : M A) (w : World) :
  Keeps (calm sid) m → sessions_grow w (snd (m w)).
Proof. intros H. apply H. Qed.

Lemma step_sessions_grow env st (w : World) : sessions_grow w (step env st w).
Proof.
  destruct st; simpl; unfold ignore.
  - apply (calm_sessions_grow 0), calm_initNative.
  - apply (calm_sessions_grow 0), calm_click.
  - apply sessions_grow_refl.
  - apply (calm_sessions_grow 0), calm_destroy.
  - apply (calm_sessions_grow 0), calm_onApproveCallback.
  - apply (calm_sessions_grow (S sid)), calm_onCancelCallback. lia.
  - apply (calm_sessions_grow 0), calm_onErrorCallback.
  - apply (calm_sessions_grow 0), calm_onFallbackCallback.
  - apply (calm_sessions_grow 0), calm_onShippingChangeCallback.
  - apply (calm_sessions_grow 0), calm_onCloseCallback.
  - apply (calm_sessions_grow 0), calm_destroy.
  - apply (calm_sessions_grow 0), calm_onDetectWebSwitch.
  - apply (calm_sessions_grow 0), calm_onDetectAppSwitch.
  - unfold elapse. simpl.
    eapply sessions_grow_trans; [|apply calm_fire_timers_grow].
    by apply sessions_grow_same.
Qed.

(** X1. Whatever happens to the flow, a session stays, keeps the button
    session id, payment, nonce, shipping handler and desktop-pay capability
    it was built with, and none of [approved], [cancelled], [didFallback] is
    ever cleared once set. *)
Theorem session_flags_are_never_cleared env steps (w : World) sid (s : Session) :
  sessions w !! sid = Some s →
  ∃ s', sessions (run env steps w) !! sid = Some s' ∧ session_grows s s'.
Proof.
  revert w s. induction steps as [|st steps IH]; intros w s Hs.
  - exists s. split; [done|apply session_grows_refl].
  - simpl. destruct (step_sessions_grow env st w sid s Hs) as (s1 & Hs1 & Hg1).
    destruct (IH _ _ Hs1) as (s2 & Hs2 & Hg2). exists s2.
    split; [done|]. by eapply session_grows_trans.
Qed.

Lemma session_flags_are_never_cleared_witness :
  approved <$>
    sessions (run sample_env
                [SPopupClose 0; SElapse 1000; SError 0 "late"; SClick 0;
                 SInit (sample_options "venmo" (Some "firebase"))]
                (snd (onApproveCallback sample_env 0 sample_message one_popup)))
    !! 0%nat
  = Some true.
Proof.
  destruct (session_flags_are_never_cleared sample_env
              [SPopupClose 0; SElapse 1000; SError 0 "late"; SClick 0;
               SInit (sample_options "venmo" (Some "firebase"))]
              (snd (onApproveCallback sample_env 0 sample_message one_popup))
              0%nat _ eq_refl) as (s' & -> & Hg).
  destruct Hg as (_ & _ & _ & _ & _ & Ha & _). simpl. f_equal. by apply Ha.
Defined.

Lemma flag_set_grows (w w' : World) sid :
  sessions_grow w w' → flag_set w sid → flag_set w' sid.
Proof.
  intros Hg (s & Hs & Hf). destruct (Hg sid s Hs) as (s' & Hs' & Hgs).
  exists s'. split; [done|].
  destruct Hgs as (_ & _ & _ & _ & _ & Ha & Hc & Hd).
  destruct Hf as [?|[?|?]]; auto.
Qed.

Lemma pending_teardown_ext (w1 w2 : World) sid :
  clean w1 = clean w2 → registries w1 = registries w2 →
  destroyMemo <$> sessions w1 !! sid = destroyMemo <$> sessions w2 !! sid →
  pending_teardown w1 sid = pending_teardown w2 sid.
Proof.
  intros Hc Hr Hm. unfold pending_teardown. rewrite Hc, Hr.
  destruct (sessions w1 !! sid) as [s1|], (sessions w2 !! sid) as [s2|];
    simpl in Hm; try done.
  injection Hm as ->. done.
Qed.

(** What the cancel callback does, for a session that exists. *)
Lemma onCancelCallback_spec env sid (w : World) (s : Session) :
  sessions w !! sid = Some s →
  ∃ d,
    fst (onCancelCallback env sid w)
    = then_ (promise_all [userOnCancel env sid; d]) (λ _, buttonSessionID s)
    ∧ log (snd (onCancelCallback env sid w))
      = log w
        ++ [EBrice "payment-flows/native.js/initNative -> onCancelCallback" false;
            EInfo "native_message_oncancel" [];
            ETrack [(TRANSITION, TTransition NATIVE_ON_CANCEL)];
            EFlush;
            EOnCancel sid]
        ++ map ETeardown (pending_teardown w sid)
    ∧ sessions (snd (onCancelCallback env sid w))
      = <[sid := set_destroyMemo (Some d) (set_cancelled true s)]> (sessions w)
    ∧ (∀ d0, destroyMemo s = Some d0 → d = d0).
Proof.
  intros Hs. unfold onCancelCallback, session_id_result. unfold_monad. simpl.
  match goal with
  | |- context [destroy env sid ?w1] =>
      pose proof (destroy_log env sid w1) as Hdl;
      pose proof (destroy_sessions env sid w1 (set_cancelled true s)) as Hds;
      pose proof (destroy_memoized env sid w1 (set_cancelled true s)) as Hdm;
      rewrite (pending_teardown_ext w1 w sid) in Hdl
        by (simpl; rewrite ?list_lookup_alter_eq; try done;
            by destruct (sessions w !! sid));
      destruct (destroy env sid w1) as [d w2]
  end.
  simpl in *. rewrite (alter_as_insert _ _ _ _ Hs) in Hds, Hdm.
  specialize (Hds (lookup_insert_same _ _ _ _ Hs)).
  rewrite list_insert_insert_eq in Hds.
  exists d. rewrite Hds, Hdl, (lookup_insert_same _ _ _ _ Hs). simpl.
  split; [done|]. split; [by rewrite <- !app_assoc|]. split; [done|].
  intros d0 Hd0.
  specialize (Hdm d0 (lookup_insert_same _ _ _ _ Hs) Hd0). congruence.
Qed.

Lemma calm_onClose_after_delay_flagged env sid sid' (w : World) :
  flag_set w sid → calm sid w (snd (onClose_after_delay env sid' w)).
Proof.
  intros (s & Hs & Hf). destruct (decide (sid' = sid)) as [->|Hne].
  - unfold onClose_after_delay. unfold_monad. simpl. rewrite Hs.
    assert (negb (approved s) && negb (cancelled s) && negb (didFallback s)
            && negb (isAndroidChrome env) = false) as ->.
    { destruct Hf as [-> | [-> | ->]]; simpl;
        repeat (rewrite ?andb_false_r, ?andb_false_l); done. }
    by apply (calm_quiet sid _ _ [close_brice]).
  - by apply calm_onClose_after_delay_other.
Qed.

Lemma calm_fire_timers_flagged env sid (due : list (Z * nat)) (w : World) :
  flag_set w sid →
  calm sid w
    (fold_left (λ w' x, snd (onClose_after_delay env (snd x) w')) due w).
Proof.
  revert w. induction due as [|x due IH]; intros w Hf; [apply calm_refl|].
  simpl. pose proof (calm_onClose_after_delay_flagged env sid (snd x) w Hf) as H.
  eapply calm_trans; [exact H|]. apply IH.
  eapply flag_set_grows; [apply H|done].
Qed.

Lemma step_cancel_count env sid st (w : World) :
  flag_set w sid →
  count (is_on_cancel sid) (log (step env st w))
  = (count (is_on_cancel sid) (log w) + cancel_messages sid [st])%nat.
Proof.
  intros Hflag.
  assert (∀ w', calm sid w w' →
            count (is_on_cancel sid) (log w')
            = (count (is_on_cancel sid) (log w) + 0)%nat) as Hcalm.
  { intros w' [_ (es & -> & Hc)]. rewrite count_app. lia. }
  assert (∀ {A} (m : M A), Keeps (calm sid) m →
            count (is_on_cancel sid) (log (snd (m w)))
            = (count (is_on_cancel sid) (log w) + 0)%nat) as Hkeeps.
  { intros A m Hm. apply Hcalm, Hm. }
  destruct st; unfold step, ignore;
    try (replace (cancel_messages sid [_]) with 0%nat by reflexivity).
  - apply Hkeeps, calm_initNative.
  - apply Hkeeps, calm_click.
  - lia.
  - apply Hkeeps, calm_destroy.
  - apply Hkeeps, calm_onApproveCallback.
  - unfold cancel_messages. simpl List.filter. case_bool_decide as Heq.
    + subst. destruct Hflag as (s & Hs & _).
      destruct (onCancelCallback_spec env sid w s Hs) as (d & _ & -> & _).
      rewrite !count_app, count_teardown_events by done.
      unfold count at 2. simpl. rewrite bool_decide_eq_true_2 by done.
      simpl. lia.
    + simpl length. apply Hkeeps. by apply calm_onCancelCallback.
  - apply Hkeeps, calm_onErrorCallback.
  - apply Hkeeps, calm_onFallbackCallback.
  - apply Hkeeps, calm_onShippingChangeCallback.
  - apply Hkeeps, calm_onCloseCallback.
  - apply Hkeeps, calm_destroy.
  - apply Hkeeps, calm_onDetectWebSwitch.
  - apply Hkeeps, calm_onDetectAppSwitch.
  - apply Hcalm. unfold elapse. simpl.
    eapply calm_trans; [|apply calm_fire_timers_flagged].
    + by apply calm_same_log.
    + destruct Hflag as (s & Hs & Hf). by exists s.
Qed.

Lemma cancel_messages_cons sid st steps :
  cancel_messages sid (st :: steps)
  = (cancel_messages sid [st] + cancel_messages sid steps)%nat.
Proof.
  unfold cancel_messages. change (st :: steps) with ([st] ++ steps).
  by rewrite List.filter_app, length_app.
Qed.

(** X2. Once one of [approved], [cancelled], [didFallback] is set for a
    session, the merchant's [onCancel] of that session is called only by
    cancel messages, once for each: no close handler, whenever its delay
    elapses, and no other call or callback calls it again. *)
Theorem settled_session_cancels_only_on_cancel_messages env steps (w : World) sid :
  flag_set w sid →
  count (is_on_cancel sid) (log (run env steps w))
  = (count (is_on_cancel sid) (log w) + cancel_messages sid steps)%nat.
Proof.
  revert w. induction steps as [|st steps IH]; intros w Hf.
  - simpl. unfold cancel_messages. simpl. lia.
  - change (run env (st :: steps) w) with (run env steps (step env st w)).
    rewrite IH.
    + rewrite (cancel_messages_cons sid st steps),
        (step_cancel_count env sid st w Hf).
      lia.
    + eapply flag_set_grows; [apply step_sessions_grow|done].
Qed.

Lemma settled_session_cancels_only_on_cancel_messages_witness :
  count (is_on_cancel 0)
    (log (run sample_env
            [SPopupClose 0; SElapse 400; SPopupClose 0; SError 0 "late";
             SElapse 5000; SClose 0]
            (snd (onApproveCallback sample_env 0 sample_message one_popup))))
  = 0%nat.
Proof.
  rewrite (settled_session_cancels_only_on_cancel_messages sample_env
             [SPopupClose 0; SElapse 400; SPopupClose 0; SError 0 "late";
              SElapse 5000; SClose 0]
             (snd (onApproveCallback sample_env 0 sample_message one_popup))
             0%nat).
  - reflexivity.
  - eexists. split; [reflexivity|]. left. reflexivity.
Defined.

(** ** Cancel, error, fallback and close, one after the other *)

(** X3. The cancel callback marks the session cancelled, calls the
    merchant's [onCancel] once and runs cleanup whatever [onCancel] returns:
    a rejection of [onCancel] is what the callback's future is rejected
    with, and when both it and cleanup resolve the future carries the button
    session id. *)
Theorem onCancelCallback_cleans_up_and_propagates env sid (w : World) (s : Session) :
  sessions w !! sid = Some s →
  (∀ e, userOnCancel env sid = Rejected e →
        fst (onCancelCallback env sid w) = Rejected e)
  ∧ (∃ s' d,
       sessions (snd (onCancelCallback env sid w)) !! sid = Some s'
       ∧ cancelled s' = true
       ∧ approved s' = approved s ∧ didFallback s' = didFallback s
       ∧ destroyMemo s' = Some d
       ∧ (userOnCancel env sid = Resolved tt → d = Resolved tt →
          fst (onCancelCallback env sid w) = Resolved (buttonSessionID s)))
  ∧ teardowns (log (snd (onCancelCallback env sid w)))
    = teardowns (log w) ++ pending_teardown w sid
  ∧ count (is_on_cancel sid) (log (snd (onCancelCallback env sid w)))
    = S (count (is_on_cancel sid) (log w)).
Proof.
  intros Hs.
  destruct (onCancelCallback_spec env sid w s Hs) as (d & Hr & Hl & Hss & _).
  rewrite Hr, Hl, Hss. split; [|split; [|split]].
  - intros e ->. done.
  - exists (set_destroyMemo (Some d) (set_cancelled true s)), d.
    rewrite (lookup_insert_same _ _ _ _ Hs). repeat split.
    intros -> ->. done.
  - rewrite !teardowns_app, teardowns_map. simpl. done.
  - rewrite !count_app, count_teardown_events by done.
    unfold count at 2. simpl. rewrite bool_decide_eq_true_2 by done.
    simpl. lia.
Qed.

Lemma onCancelCallback_cleans_up_and_propagates_witness :
  fst (onCancelCallback rejecting_env 0 one_popup)
  = Rejected (Error "cancel failed")
  ∧ teardowns (log (snd (onCancelCallback rejecting_env 0 one_popup)))
    = [PopupCancel 0].
Proof.
  destruct (onCancelCallback_cleans_up_and_propagates rejecting_env 0 one_popup
              _ eq_refl) as (Hrej & _ & Htd & _).
  split.
  - exact (Hrej _ eq_refl).
  - rewrite Htd. reflexivity.
Defined.

Lemma count_cons f e (l : list Event) :
  count f (e :: l) = ((if f e then 1 else 0) + count f l)%nat.
Proof. unfold count. simpl. by destruct (f e). Qed.

Lemma count_nil f : count f [] = 0%nat.
Proof. done. Qed.

(** What the error callback does, for a session that exists. *)
Lemma onErrorCallback_spec env sid message (w : World) (s : Session) :
  sessions w !! sid = Some s →
  ∃ d,
    fst (onErrorCallback env sid message w)
    = then_ (promise_all [userOnError env sid (Error message); d])
        (λ _, buttonSessionID s)
    ∧ log (snd (onErrorCallback env sid message w))
      = log w
        ++ [EBrice "payment-flows/native.js/initNative -> onErrorCallback" false;
            EInfo "native_message_onerror" [("err", Some message)];
            ETrack [(TRANSITION, TTransition NATIVE_ON_ERROR);
                    (INFO_MSG, TText ("Error message: " ++ message)%string)];
            EFlush;
            EOnError sid (Error message)]
        ++ map ETeardown (pending_teardown w sid)
    ∧ sessions (snd (onErrorCallback env sid message w))
      = <[sid := set_destroyMemo (Some d) s]> (sessions w)
    ∧ clean (snd (onErrorCallback env sid message w)) = clean w
    ∧ timers (snd (onErrorCallback env sid message w)) = timers w
    ∧ now (snd (onErrorCallback env sid message w)) = now w.
Proof.
  intros Hs. unfold onErrorCallback, session_id_result. unfold_monad. simpl.
  match goal with
  | |- context [destroy env sid ?w1] =>
      pose proof (destroy_log env sid w1) as Hdl;
      pose proof (destroy_sessions env sid w1 s Hs) as Hds;
      destruct (destroy_frame env sid w1) as (Hc & _ & _ & Hn & Ht & _);
      rewrite (pending_teardown_ext w1 w sid) in Hdl by done;
      destruct (destroy env sid w1) as [d w2]
  end.
  simpl in *.
  exists d. rewrite Hds, Hdl, (lookup_insert_same _ _ _ _ Hs). simpl.
  split; [done|]. split; [by rewrite <- !app_assoc|]. by repeat split.
Qed.

(** What the close handler does when it cancels. *)
Lemma onClose_after_delay_fires env sid (w : World) (s : Session) :
  sessions w !! sid = Some s →
  unsettled s →
  isAndroidChrome env = false →
  ∃ d,
    log (snd (onClose_after_delay env sid w))
    = log w ++ [close_brice; EOnCancel sid]
      ++ map ETeardown (pending_teardown w sid)
    ∧ sessions (snd (onClose_after_delay env sid w))
      = <[sid := set_destroyMemo (Some d) s]> (sessions w)
    ∧ clean (snd (onClose_after_delay env sid w)) = clean w.
Proof.
  intros Hs (Ha & Hc & Hf) Hand. unfold onClose_after_delay. unfold_monad.
  simpl. rewrite Hs, Ha, Hc, Hf, Hand. simpl.
  match goal with
  | |- context [destroy env sid ?w1] =>
      pose proof (destroy_log env sid w1) as Hdl;
      pose proof (destroy_sessions env sid w1 s Hs) as Hds;
      destruct (destroy_frame env sid w1) as (Hcl & _);
      rewrite (pending_teardown_ext w1 w sid) in Hdl by done;
      destruct (destroy env sid w1) as [d w2]
  end.
  simpl in *. exists d. rewrite Hdl, Hds. split; [by rewrite <- !app_assoc|].
  by split.
Qed.

Lemma pending_teardown_memoized (w : World) sid (s : Session) d :
  sessions w !! sid = Some s → destroyMemo s = Some d →
  pending_teardown w sid = [].
Proof. intros Hs Hm. unfold pending_teardown. by rewrite Hs, Hm. Qed.

(** X4. The error callback sets none of the outcome flags. So when an error
    message is followed by a popup close, the close handler still takes the
    close for a cancel a second later: the merchant gets [onError] and then
    [onCancel], while the teardown actions run once, with the error. *)
Theorem error_then_close_also_cancels env sid message (w : World) (s : Session) :
  sessions w !! sid = Some s →
  unsettled s →
  isAndroidChrome env = false →
  timers w = [] →
  count (is_on_error sid)
    (log (run env [SError sid message; SPopupClose sid; SElapse 1000] w))
  = S (count (is_on_error sid) (log w))
  ∧ count (is_on_cancel sid)
      (log (run env [SError sid message; SPopupClose sid; SElapse 1000] w))
    = S (count (is_on_cancel sid) (log w))
  ∧ teardowns
      (log (run env [SError sid message; SPopupClose sid; SElapse 1000] w))
    = teardowns (log w) ++ pending_teardown w sid
  ∧ ∃ s', sessions
            (run env [SError sid message; SPopupClose sid; SElapse 1000] w)
            !! sid = Some s'
          ∧ unsettled s'.
Proof.
  intros Hs Hu Hand Ht. unfold run. simpl fold_left. unfold ignore.
  destruct (onErrorCallback_spec env sid message w s Hs)
    as (d & _ & Hl1 & Hs1 & Hc1 & Ht1 & Hn1).
  set (w1 := snd (onErrorCallback env sid message w)) in *.
  unfold elapse, onCloseCallback. unfold_monad. simpl.
  rewrite Ht1, Ht. simpl. rewrite bool_decide_eq_true_2 by lia. simpl.
  match goal with
  | |- context [onClose_after_delay env sid ?w2] =>
      destruct (onClose_after_delay_fires env sid w2
                  (set_destroyMemo (Some d) s)) as (d' & Hl3 & Hs3 & _);
        [simpl; rewrite Hs1; by eapply lookup_insert_same
        |by destruct Hu as (?&?&?)|done|];
      rewrite (pending_teardown_memoized w2 sid
                 (set_destroyMemo (Some d) s) d) in Hl3
        by (simpl; rewrite ?Hs1; by eapply lookup_insert_same || done)
  end.
  rewrite Hl3, Hs3. simpl. rewrite Hl1, Hs1.
  rewrite list_insert_insert_eq, (lookup_insert_same _ _ _ _ Hs).
  rewrite !teardowns_app, !teardowns_map. simpl. rewrite !app_nil_r.
  rewrite !count_app, !count_cons, ?count_teardown_events, ?count_nil by done.
  simpl. rewrite !bool_decide_eq_true_2 by done.
  split; [lia|]. split; [lia|]. split; [done|].
  eexists. split; [done|]. by destruct Hu as (?&?&?).
Qed.

Lemma error_then_close_also_cancels_witness :
  count (is_on_cancel 0)
    (log (run working_env [SError 0 "declined"; SPopupClose 0; SElapse 1000]
            (run working_env
               [SInit (sample_options "paypal" (Some "firebase")); SClick 0]
               sample_world)))
  = 1%nat
  ∧ teardowns
      (log (run working_env [SError 0 "declined"; SPopupClose 0; SElapse 1000]
              (run working_env
                 [SInit (sample_options "paypal" (Some "firebase")); SClick 0]
                 sample_world)))
    = [PopupCancel 0].
Proof.
  destruct (error_then_close_also_cancels working_env 0 "declined"
              (run working_env
                 [SInit (sample_options "paypal" (Some "firebase")); SClick 0]
                 sample_world)
              _ eq_refl) as (_ & Hc & Ht & _).
  - by repeat split.
  - reflexivity.
  - reflexivity.
  - rewrite Hc, Ht. split; reflexivity.
Defined.

Lemma teardowns_cons_none e (l : list Event) :
  teardown_of e = None → teardowns (e :: l) = teardowns l.
Proof. intros He. unfold teardowns. simpl. by rewrite He. Qed.

Lemma onClose_after_delay_frame env sid (w : World) :
  timers (snd (onClose_after_delay env sid w)) = timers w
  ∧ now (snd (onClose_after_delay env sid w)) = now w
  ∧ clean (snd (onClose_after_delay env sid w)) = clean w
  ∧ storage (snd (onClose_after_delay env sid w)) = storage w
  ∧ popups (snd (onClose_after_delay env sid w)) = popups w.
Proof.
  unfold onClose_after_delay. unfold_monad. simpl.
  destruct (sessions w !! sid) as [s|]; [|done].
  destruct (negb (approved s) && negb (cancelled s) && negb (didFallback s)
            && negb (isAndroidChrome env)); [|done].
  match goal with
  | |- context [destroy env sid ?w1] =>
      destruct (destroy_frame env sid w1) as (Hc & Hp & Hst & Hn & Ht & _);
      destruct (destroy env sid w1) as [d w2]
  end.
  simpl in *. by rewrite Hc, Hp, Hst, Hn, Ht.
Qed.

(** X5. The close handler cancels without marking the session cancelled. So
    two close callbacks within the grace delay both end in a call of the
    merchant's [onCancel], while the teardown actions run once and the
    session still shows none of the three outcomes. *)
Theorem two_closes_cancel_twice env sid (w : World) (s : Session) :
  sessions w !! sid = Some s →
  unsettled s →
  isAndroidChrome env = false →
  timers w = [] →
  count (is_on_cancel sid)
    (log (run env [SPopupClose sid; SPopupClose sid; SElapse 1000] w))
  = S (S (count (is_on_cancel sid) (log w)))
  ∧ teardowns
      (log (run env [SPopupClose sid; SPopupClose sid; SElapse 1000] w))
    = teardowns (log w) ++ pending_teardown w sid
  ∧ timers (run env [SPopupClose sid; SPopupClose sid; SElapse 1000] w) = []
  ∧ ∃ s', sessions
            (run env [SPopupClose sid; SPopupClose sid; SElapse 1000] w)
            !! sid = Some s'
          ∧ unsettled s' ∧ is_Some (destroyMemo s').
Proof.
  intros Hs Hu Hand Ht. unfold run. simpl fold_left. unfold ignore.
  unfold elapse, onCloseCallback. unfold_monad. simpl.
  rewrite Ht. simpl. rewrite !bool_decide_eq_true_2 by lia. simpl.
  match goal with
  | |- context [onClose_after_delay env sid
                  (snd (onClose_after_delay env sid ?w2))] =>
      destruct (onClose_after_delay_fires env sid w2 s Hs Hu Hand)
        as (d & Hl3 & Hs3 & Hc3);
      set (w3 := snd (onClose_after_delay env sid w2)) in *;
      rewrite (pending_teardown_ext w2 w sid) in Hl3 by done
  end.
  assert (sessions w3 !! sid = Some (set_destroyMemo (Some d) s)) as Hs3'.
  { rewrite Hs3. by eapply lookup_insert_same. }
  destruct (onClose_after_delay_fires env sid w3 _ Hs3') as (d' & Hl4 & Hs4 & _);
    [by destruct Hu as (?&?&?)|done|].
  rewrite (pending_teardown_memoized w3 sid _ d Hs3') in Hl4 by done.
  assert (timers (snd (onClose_after_delay env sid w3)) = []) as Htm.
  { destruct (onClose_after_delay_frame env sid w3) as (-> & _).
    unfold w3.
    match goal with
    | |- timers (snd (onClose_after_delay env sid ?w2)) = _ =>
        by destruct (onClose_after_delay_frame env sid w2) as (-> & _)
    end. }
  rewrite Hl4, Hs4, Htm. rewrite Hl3, Hs3. simpl.
  rewrite list_insert_insert_eq, (lookup_insert_same _ _ _ _ Hs).
  unfold close_brice.
  rewrite !teardowns_app, !teardowns_cons_none, ?teardowns_map by reflexivity.
  change (teardowns []) with (@nil Task). rewrite !app_nil_r.
  rewrite !count_app, !count_cons, ?count_teardown_events, ?count_nil by done.
  simpl. rewrite !bool_decide_eq_true_2 by done.
  split; [lia|]. split; [done|]. split; [done|].
  eexists. split; [done|]. split; [by destruct Hu as (?&?&?)|done].
Qed.

Lemma two_closes_cancel_twice_witness :
  count (is_on_cancel 0)
    (log (run working_env [SPopupClose 0; SPopupClose 0; SElapse 1000]
            (run working_env
               [SInit (sample_options "paypal" (Some "firebase")); SClick 0]
               sample_world)))
  = 2%nat.
Proof.
  destruct (two_closes_cancel_twice working_env 0
              (run working_env
                 [SInit (sample_options "paypal" (Some "firebase")); SClick 0]
                 sample_world)
              _ eq_refl) as (Hc & _).
  - by repeat split.
  - reflexivity.
  - reflexivity.
  - rewrite Hc. reflexivity.
Defined.

(** ** The switch detector *)

(** X7. The three diagnostics of a switch detection exclude one another,
    and they are not exhaustive: with equal prior times that are not zero,
    nothing is logged. *)
Theorem switch_diagnostics_at_most_one kind (st : SwitchState) :
  (default 0 (lastAppSwitchTime st) > default 0 (lastWebSwitchTime st) →
     switch_diagnostics kind st
     = [EInfo (kind ++ "_switch_detect_with_previous_app_switch")%string
          (switch_times st)])
  ∧ (default 0 (lastWebSwitchTime st) > default 0 (lastAppSwitchTime st) →
     switch_diagnostics kind st
     = [EInfo (kind ++ "_switch_detect_with_previous_web_switch")%string
          (switch_times st)])
  ∧ (default 0 (lastAppSwitchTime st) = 0 →
     default 0 (lastWebSwitchTime st) = 0 →
     switch_diagnostics kind st
     = [EInfo (kind ++ "_switch_detect_with_no_previous_switch")%string
          (switch_times st)])
  ∧ (default 0 (lastAppSwitchTime st) = default 0 (lastWebSwitchTime st) →
     default 0 (lastAppSwitchTime st) ≠ 0 →
     switch_diagnostics kind st = [])
  ∧ (length (switch_diagnostics kind st) ≤ 1)%nat.
Proof.
  unfold switch_diagnostics.
  repeat split; intros; repeat case_bool_decide; simpl; try done; try lia.
Qed.

Lemma switch_diagnostics_at_most_one_witness :
  switch_diagnostics "app"
    {| lastAppSwitchTime := Some 1600000000000;
       lastWebSwitchTime := Some 1600000000000 |}
  = [].
Proof.
  destruct (switch_diagnostics_at_most_one "app"
              {| lastAppSwitchTime := Some 1600000000000;
                 lastWebSwitchTime := Some 1600000000000 |})
    as (_ & _ & _ & H & _).
  apply H; [reflexivity|discriminate].
Defined.

(** What an app-switch detection does. *)
Lemma detectAppSwitch_spec env sid uid (w : World) :
  ∃ late,
    (late = [] ∨ late = [ETeardown (ConnectionCancel (nextID w))])
    ∧ fst (detectAppSwitch env sid uid w) = setProps env (nextID w)
    ∧ log (snd (detectAppSwitch env sid uid w))
      = log w ++ switch_diagnostics "app" (storage w)
        ++ [EInfo "native_detect_app_switch" [];
            ETrack [(TRANSITION, TTransition NATIVE_DETECT_APP_SWITCH)];
            EFlush;
            EConnectNative (nextID w) sid uid]
        ++ late ++ [ESetProps (nextID w)]
    ∧ storage (snd (detectAppSwitch env sid uid w))
      = {| lastAppSwitchTime := Some (now w);
           lastWebSwitchTime := lastWebSwitchTime (storage w) |}
    ∧ sessions (snd (detectAppSwitch env sid uid w)) = sessions w
    ∧ popups (snd (detectAppSwitch env sid uid w)) = popups w
    ∧ clean (snd (detectAppSwitch env sid uid w)) = clean w
    ∧ now (snd (detectAppSwitch env sid uid w)) = now w
    ∧ timers (snd (detectAppSwitch env sid uid w)) = timers w
    ∧ nextID (snd (detectAppSwitch env sid uid w)) = S (nextID w).
Proof.
  unfold detectAppSwitch, record_app_switch. unfold_monad. simpl.
  match goal with
  | |- context [clean_register env ?t ?w1] =>
      pose proof (clean_register_frame env t w1) as [Hf Hl];
      destruct (clean_register env t w1) as [[] w2]
  end.
  destruct Hf as (Hc & Hss & Hp & Hst & Hn & Ht & Hid & Huid).
  simpl in *. rewrite Hc, Hss, Hp, Hst, Hn, Ht, Hid.
  destruct Hl as [Hl|Hl]; rewrite Hl.
  - exists []. rewrite <- !app_assoc. simpl. by repeat split; auto.
  - exists [ETeardown (ConnectionCancel (nextID w))].
    rewrite <- !app_assoc. simpl. by repeat split; auto.
Qed.

Lemma fallbackToWebCheckout_storage env sid fallbackWin (w : World) :
  storage (snd (fallbackToWebCheckout env sid fallbackWin w)) = storage w.
Proof.
  destruct (sessions w !! sid) as [s|] eqn:Hs.
  - by destruct (fallbackToWebCheckout_spec env sid fallbackWin w s Hs)
      as (late & _ & _ & _ & _ & _ & _ & Hst & _).
  - unfold fallbackToWebCheckout. unfold_monad. simpl.
    by rewrite list_lookup_alter_eq, Hs.
Qed.

(** X9. The time an app switch writes is what the next detection reads: a
    web switch that follows an app switch (made at a time later than the
    last recorded web switch) logs "web switch with previous app switch"
    with the time of that app switch, and nothing else of the three. *)
Theorem web_switch_sees_previous_app_switch env sid uid sid' win (w : World) :
  default 0 (lastWebSwitchTime (storage w)) < now w →
  storage (snd (detectAppSwitch env sid uid w))
  = {| lastAppSwitchTime := Some (now w);
       lastWebSwitchTime := lastWebSwitchTime (storage w) |}
  ∧ (∃ rest,
       log (snd (detectWebSwitch env sid' win
                   (snd (detectAppSwitch env sid uid w))))
       = log (snd (detectAppSwitch env sid uid w))
         ++ [EInfo "web_switch_detect_with_previous_app_switch"
               [("lastAppSwitchTime", Some (pretty (now w)));
                ("lastWebSwitchTime",
                 Some (pretty (default 0 (lastWebSwitchTime (storage w)))))];
             EInfo "native_detect_web_switch" []]
         ++ rest)
  ∧ storage (snd (detectWebSwitch env sid' win
                    (snd (detectAppSwitch env sid uid w))))
    = {| lastAppSwitchTime := Some (now w); lastWebSwitchTime := Some (now w) |}.
Proof.
  intros Hlt.
  destruct (detectAppSwitch_spec env sid uid w)
    as (late & _ & _ & _ & Hst & _ & _ & _ & Hn & _).
  set (w1 := snd (detectAppSwitch env sid uid w)) in *.
  split; [done|].
  unfold detectWebSwitch, record_web_switch. unfold_monad. simpl.
  rewrite Hst, Hn. simpl.
  match goal with
  | |- context [fallbackToWebCheckout env sid' ?fw ?w2] =>
      pose proof (ext_log _ _ (Ext_fallbackToWebCheckout env sid' fw w2))
        as [rest Hrest];
      pose proof (fallbackToWebCheckout_storage env sid' fw w2) as Hst2
  end.
  rewrite Hst2, Hrest. simpl. split; [|done].
  exists ([ETrack [(TRANSITION, TTransition NATIVE_DETECT_WEB_SWITCH)]; EFlush]
          ++ rest).
  assert (switch_diagnostics "web"
            {| lastAppSwitchTime := Some (now w);
               lastWebSwitchTime := lastWebSwitchTime (storage w) |}
          = [EInfo "web_switch_detect_with_previous_app_switch"
               [("lastAppSwitchTime", Some (pretty (now w)));
                ("lastWebSwitchTime",
                 Some (pretty (default 0 (lastWebSwitchTime (storage w)))))]])
    as ->.
  { unfold switch_diagnostics, switch_times. simpl.
    rewrite bool_decide_eq_true_2 by lia.
    rewrite (bool_decide_eq_false_2 (_ > now w)) by lia.
    destruct (bool_decide (now w = 0)) eqn:E1; [|done].
    apply bool_decide_eq_true in E1.
    rewrite bool_decide_eq_false_2 by lia. done. }
  rewrite <- !app_assoc. reflexivity.
Qed.

Lemma web_switch_sees_previous_app_switch_witness :
  storage (snd (detectWebSwitch working_env 0 7%nat
                  (snd (detectAppSwitch working_env 0 0 one_popup))))
  = {| lastAppSwitchTime := Some 1600000000000;
       lastWebSwitchTime := Some 1600000000000 |}.
Proof.
  destruct (web_switch_sees_previous_app_switch working_env 0 0 0 7%nat
              one_popup) as (_ & _ & ->).
  - by vm_compute.
  - reflexivity.
Defined.

(** ** Registries, sessions and the clock over a run *)

Lemma steady_refl w : steady w w.
Proof. by repeat split. Qed.

Lemma steady_trans w1 w2 w3 : steady w1 w2 → steady w2 w3 → steady w1 w3.
Proof.
  intros (Hc1 & Hr1 & Hs1 & Hk1 & Ht1 & Hn1) (Hc2 & Hr2 & Hs2 & Hk2 & Ht2 & Hn2).
  repeat split; try congruence.
  intros rid Hne. rewrite Hk2 by (by rewrite Hc1). by apply Hk1.
Qed.

(** A change that touches no registry, neither [clean], nor the clock, and
    keeps the number of sessions. *)
Lemma steady_light (w w' : World) :
  clean w' = clean w → registries w' = registries w →
  length (sessions w') = length (sessions w) →
  timers w' = timers w → now w' = now w → steady w w'.
Proof. intros Hc Hr Hs Ht Hn. repeat split; try done; by rewrite Hr. Qed.

Lemma steady_emit e : Keeps steady (emit e).
Proof. intros w. by apply steady_light. Qed.

Lemma steady_emits es : Keeps steady (emits es).
Proof. intros w. by apply steady_light. Qed.

Lemma steady_briceLog msg : Keeps steady (briceLog msg).
Proof. apply steady_emit. Qed.

Lemma steady_info_track_flush name payload fields :
  Keeps steady (info_track_flush name payload fields).
Proof. apply steady_emits. Qed.

Lemma steady_fresh : Keeps steady fresh.
Proof. intros w. by apply steady_light. Qed.

Lemma steady_uniqueID : Keeps steady uniqueID.
Proof. intros w. by apply steady_light. Qed.

Lemma steady_get_session sid : Keeps steady (get_session sid).
Proof. intros w. apply steady_refl. Qed.

Lemma steady_update_session sid f : Keeps steady (update_session sid f).
Proof.
  intros w. apply steady_light; try done. simpl. apply length_alter.
Qed.

Lemma steady_openNativePopup p sid uid : Keeps steady (openNativePopup p sid uid).
Proof. intros w. by apply steady_light. Qed.

Lemma steady_record_app_switch : Keeps steady record_app_switch.
Proof. intros w. by apply steady_light. Qed.

Lemma steady_record_web_switch : Keeps steady record_web_switch.
Proof. intros w. by apply steady_light. Qed.

Lemma steady_clean_all env : Keeps steady (clean_all env).
Proof.
  intros w. unfold clean_all, all_in.
  destruct (clean w) as [rid|] eqn:Hc; [|apply steady_refl].
  destruct (registries w !! rid) as [r|] eqn:Hr; [|apply steady_refl].
  repeat split; simpl; try done.
  - apply length_insert.
  - intros rid' Hne. apply list_lookup_insert_ne. congruence.
Qed.

Lemma steady_clean_register env t : Keeps steady (clean_register env t).
Proof.
  intros w. unfold clean_register, register_in.
  destruct (clean w) as [rid|] eqn:Hc; [|apply steady_refl].
  destruct (registries w !! rid) as [r|] eqn:Hr; [|apply steady_refl].
  destruct (cleaned r), (lateRegister env); simpl;
    try (by apply steady_light);
    (repeat split; simpl; try done;
     [apply length_insert
     |intros rid' Hne; apply list_lookup_insert_ne; congruence]).
Qed.

Create HintDb steady discriminated.

Hint Resolve steady_emit steady_emits steady_briceLog steady_info_track_flush
  steady_fresh steady_uniqueID steady_get_session steady_update_session
  steady_openNativePopup steady_record_app_switch steady_record_web_switch
  steady_clean_all steady_clean_register : steady.
Hint Extern 1 (Keeps steady (ret _)) =>
  apply Keeps_ret; apply steady_refl : steady.

Ltac solve_steady :=
  repeat match goal with
         | |- ∀ _, _ => intro
         | |- Keeps steady (bind _ _) =>
             apply Keeps_bind; [apply steady_trans| |]
         | |- Keeps steady (match ?x with _ => _ end) => destruct x
         | |- Keeps steady _ => solve [eauto with steady]
         end.

Lemma steady_destroy env sid : Keeps steady (destroy env sid).
Proof. unfold destroy, memoize. solve_steady. Qed.
Hint Resolve steady_destroy : steady.

Lemma steady_fallbackToWebCheckout env sid fallbackWin :
  Keeps steady (fallbackToWebCheckout env sid fallbackWin).
Proof. unfold fallbackToWebCheckout. solve_steady. Qed.
Hint Resolve steady_fallbackToWebCheckout : steady.

Lemma steady_session_id_result sid p : Keeps steady (session_id_result sid p).
Proof. unfold session_id_result. solve_steady. Qed.
Hint Resolve steady_session_id_result : steady.

Lemma steady_onApproveCallback env sid m : Keeps steady (onApproveCallback env sid m).
Proof. unfold onApproveCallback, onApprove_catch. solve_steady. Qed.

Lemma steady_onCancelCallback env sid : Keeps steady (onCancelCallback env sid).
Proof. unfold onCancelCallback. solve_steady. Qed.

Lemma steady_onErrorCallback env sid message :
  Keeps steady (onErrorCallback env sid message).
Proof. unfold onErrorCallback. solve_steady. Qed.

Lemma steady_onShippingChangeCallback env sid data :
  Keeps steady (onShippingChangeCallback env sid data).
Proof. unfold onShippingChangeCallback. solve_steady. Qed.

Lemma steady_onFallbackCallback env sid : Keeps steady (onFallbackCallback env sid).
Proof. unfold onFallbackCallback. solve_steady. Qed.

Lemma steady_detectWebSwitch env sid win : Keeps steady (detectWebSwitch env sid win).
Proof. unfold detectWebSwitch. solve_steady. Qed.

Lemma steady_detectAppSwitch env sid uid : Keeps steady (detectAppSwitch env sid uid).
Proof. unfold detectAppSwitch. solve_steady. Qed.

Lemma steady_onClose_after_delay env sid : Keeps steady (onClose_after_delay env sid).
Proof. unfold onClose_after_delay. solve_steady. Qed.

Lemma steady_click_catch env sid err : Keeps steady (click_catch env sid err).
Proof. unfold click_catch, click_rethrow. solve_steady. Qed.
Hint Resolve steady_click_catch steady_detectWebSwitch steady_detectAppSwitch
  : steady.

Lemma steady_initQRCode env sid uid : Keeps steady (initQRCode env sid uid).
Proof. unfold initQRCode. rewrite qr_callbacks_throws. solve_steady. Qed.

Lemma steady_initPopupAppSwitch env sid uid :
  Keeps steady (initPopupAppSwitch env sid uid).
Proof. unfold initPopupAppSwitch. solve_steady. Qed.
Hint Resolve steady_initQRCode steady_initPopupAppSwitch : steady.

Lemma steady_click env sid : Keeps steady (click env sid).
Proof. unfold click. solve_steady. Qed.

Lemma steady_set_popups (w : World) ps : steady w (set_popups ps w).
Proof. by apply steady_light. Qed.

Lemma steady_settle_click env p r : Keeps steady (settle_click env p r).
Proof.
  intros w. unfold settle_click.
  destruct (popups w !! p) as [pp|]; [|apply steady_refl].
  destruct (settled pp); [apply steady_refl|].
  destruct r as [[]|err|]; [apply steady_set_popups| |apply steady_refl].
  pose proof (steady_click_catch env (popupSession pp) err w) as H.
  destruct (click_catch env (popupSession pp) err w) as [q w1]. simpl in *.
  eapply steady_trans; [exact H|]. apply steady_set_popups.
Qed.
Hint Resolve steady_settle_click : steady.

Lemma steady_onDetectWebSwitch env p win : Keeps steady (onDetectWebSwitch env p win).
Proof.
  intros w. unfold onDetectWebSwitch.
  destruct (popups w !! p) as [pp|]; [|apply steady_refl].
  apply (Keeps_bind steady (detectWebSwitch env (popupSession pp) win)
           (λ r, settle_click env p r)); auto with steady. apply steady_trans.
Qed.

Lemma steady_onDetectAppSwitch env p : Keeps steady (onDetectAppSwitch env p).
Proof.
  intros w. unfold onDetectAppSwitch.
  destruct (popups w !! p) as [pp|]; [|apply steady_refl].
  apply (Keeps_bind steady (detectAppSwitch env (popupSession pp) (popupUID pp))
           (λ r, settle_click env p r)); auto with steady. apply steady_trans.
Qed.

Lemma steady_fire_timers env (due : list (Z * nat)) (w : World) :
  steady w (fold_left (λ w' x, snd (onClose_after_delay env (snd x) w')) due w).
Proof.
  revert w. induction due as [|x due IH]; intros w; [apply steady_refl|].
  simpl. eapply steady_trans; [|apply IH]. apply steady_onClose_after_delay.
Qed.

Lemma steady_lockstep (w w' : World) : steady w w' → lockstep w → lockstep w'.
Proof.
  intros (Hc & Hr & Hs & Hk & _) (Hlen & Hcl & Hold). split; [|split].
  - congruence.
  - rewrite Hc. destruct (clean w) as [rid|]; [congruence|].
    apply length_zero_iff_nil. by rewrite Hr, Hcl.
  - intros rid r Hr' Hne. rewrite Hc in Hne. rewrite (Hk rid Hne) in Hr'.
    by apply (Hold rid r).
Qed.

Lemma initNative_lockstep env o (w : World) :
  lockstep w → lockstep (snd (initNative env o w)).
Proof.
  intros (Hlen & Hcl & Hold). unfold initNative, all_in, cleanup, new_session.
  unfold_monad. simpl. destruct (io_firebase o); simpl; [|done].
  destruct (clean w) as [rid|] eqn:Hc.
  - destruct (registries w !! rid) as [r|] eqn:Hr.
    + unfold lockstep. simpl. rewrite !length_app, length_insert. simpl.
      split; [lia|]. split; [lia|].
      intros rid' r' Hr' Hne.
      apply lookup_app_Some in Hr' as [Hr'|[Hge Hr']].
      * destruct (decide (rid' = rid)) as [->|Hne'].
        -- rewrite (lookup_insert_same _ _ _ _ Hr) in Hr'. congruence.
        -- rewrite list_lookup_insert_ne in Hr' by done.
           apply (Hold rid' r' Hr'). congruence.
      * rewrite length_insert in Hge, Hr'. exfalso. apply Hne. f_equal.
        apply lookup_lt_Some in Hr'. simpl in Hr'. lia.
    + apply lookup_ge_None in Hr. lia.
  - unfold lockstep. simpl. rewrite Hcl in *. simpl in *.
    rewrite length_app. simpl.
    split; [lia|]. split; [done|].
    intros [|rid'] r' Hr' Hne; done.
Qed.

Lemma step_lockstep env st (w : World) : lockstep w → lockstep (step env st w).
Proof.
  intros Hl. destruct st; unfold step, ignore.
  - by apply initNative_lockstep.
  - eapply steady_lockstep; [apply steady_click|done].
  - done.
  - eapply steady_lockstep; [apply steady_destroy|done].
  - eapply steady_lockstep; [apply steady_onApproveCallback|done].
  - eapply steady_lockstep; [apply steady_onCancelCallback|done].
  - eapply steady_lockstep; [apply steady_onErrorCallback|done].
  - eapply steady_lockstep; [apply steady_onFallbackCallback|done].
  - eapply steady_lockstep; [apply steady_onShippingChangeCallback|done].
  - destruct Hl as (H1 & H2 & H3). by repeat split.
  - eapply steady_lockstep; [apply steady_destroy|done].
  - eapply steady_lockstep; [apply steady_onDetectWebSwitch|done].
  - eapply steady_lockstep; [apply steady_onDetectAppSwitch|done].
  - unfold elapse. simpl. eapply steady_lockstep; [apply steady_fire_timers|].
    destruct Hl as (H1 & H2 & H3). by repeat split.
Qed.

Lemma run_lockstep env steps (w : World) :
  lockstep w → lockstep (run env steps w).
Proof.
  revert w. induction steps as [|x steps IH]; intros w Hw; [done|].
  simpl. apply IH. by apply step_lockstep.
Qed.

Lemma initial_lockstep t st : lockstep (initial_world t st).
Proof. by repeat split. Qed.

(** X10. In every world reached from the start there is one registry per
    session, the module-level [clean] points to the registry made by the
    latest [initNative], and every earlier registry has been run and holds
    no teardown action: whatever is registered goes to the latest one. *)
Theorem clean_points_to_latest_registry env steps t st :
  lockstep (run env steps (initial_world t st)).
Proof. apply run_lockstep, initial_lockstep. Qed.

(** X11. Because [destroy] reads the module-level [clean] when it is called,
    a first [destroy] (or [close()]) of any instance, also one made by an
    earlier [initNative], runs the teardown actions registered for the
    latest session. *)
Theorem destroy_tears_down_latest_session env steps t st sid (s : Session)
    (r : Registry) :
  sessions (run env steps (initial_world t st)) !! sid = Some s →
  destroyMemo s = None →
  registries (run env steps (initial_world t st))
    !! (length (sessions (run env steps (initial_world t st))) - 1)%nat
  = Some r →
  log (snd (destroy env sid (run env steps (initial_world t st))))
  = log (run env steps (initial_world t st)) ++ map ETeardown (tasks r)
  ∧ registries (snd (destroy env sid (run env steps (initial_world t st))))
      !! (length (sessions (run env steps (initial_world t st))) - 1)%nat
    = Some {| tasks := []; cleaned := true |}.
Proof.
  set (w := run env steps (initial_world t st)). intros Hs Hm Hr.
  destruct (run_lockstep env steps _ (initial_lockstep t st))
    as (Hlen & Hcl & _).
  fold w in Hlen, Hcl.
  destruct (clean w) as [rid|] eqn:Hc.
  - assert (rid = (length (sessions w) - 1)%nat) as -> by lia.
    split.
    + rewrite destroy_log. unfold pending_teardown. by rewrite Hs, Hm, Hc, Hr.
    + rewrite (destroy_registries env sid w s _ Hs Hm Hc) by done.
      by eapply lookup_insert_same.
  - by rewrite Hcl in Hr.
Qed.

Lemma destroy_tears_down_latest_session_witness :
  log (snd (destroy working_env 0
              (run working_env
                 [SInit (sample_options "paypal" (Some "firebase"));
                  SInit (sample_options "paypal" (Some "firebase"));
                  SClick 1] sample_world)))
  = log (run working_env
           [SInit (sample_options "paypal" (Some "firebase"));
            SInit (sample_options "paypal" (Some "firebase"));
            SClick 1] sample_world)
    ++ [ETeardown (PopupCancel 0)].
Proof.
  exact (proj1 (destroy_tears_down_latest_session working_env
                  [SInit (sample_options "paypal" (Some "firebase"));
                   SInit (sample_options "paypal" (Some "firebase"));
                   SClick 1] _ _ 0 _
                  {| tasks := [PopupCancel 0]; cleaned := false |}
                  eq_refl eq_refl eq_refl)).
Defined.

(** * Further properties of [triggerButtonLogs] *)

Lemma fundingSources_cons A C F el doc :
  ButtonLogs.fundingSources A C F (el :: doc)
  = ButtonLogs.fundingSources A C F [el] ++ ButtonLogs.fundingSources A C F doc.
Proof.
  unfold ButtonLogs.fundingSources. simpl.
  destruct (bool_decide (is_Some (ButtonLogs.getAttribute el A)));
    simpl; [|done].
  by repeat case_match.
Qed.

Lemma fundingSources_app A C F d d' :
  ButtonLogs.fundingSources A C F (d ++ d')
  = ButtonLogs.fundingSources A C F d ++ ButtonLogs.fundingSources A C F d'.
Proof.
  induction d as [|x d IH]; [done|].
  simpl. rewrite fundingSources_cons, (fundingSources_cons A C F x d), IH.
  by rewrite app_assoc.
Qed.

Lemma fundingSources_one A C F el s :
  s ∈ ButtonLogs.fundingSources A C F [el] →
  is_Some (ButtonLogs.getAttribute el A)
  ∧ s ≠ EmptyString ∧ s ≠ F
  ∧ (ButtonLogs.getAttribute el C = Some s
     ∨ (ButtonLogs.truthy (ButtonLogs.getAttribute el C) = false
        ∧ ButtonLogs.getAttribute el A = Some s)).
Proof.
  unfold ButtonLogs.fundingSources. simpl.
  destruct (bool_decide (is_Some (ButtonLogs.getAttribute el A)))
    eqn:Hhas; simpl; [|by intros ?%elem_of_nil].
  apply bool_decide_eq_true in Hhas.
  destruct (ButtonLogs.or_else (ButtonLogs.getAttribute el C)
              (ButtonLogs.getAttribute el A)) as [s'|] eqn:Hsrc;
    [|by intros ?%elem_of_nil].
  destruct (ButtonLogs.truthy (Some s')) eqn:Ht; simpl;
    [|by intros ?%elem_of_nil].
  destruct (bool_decide (Some s' = Some F)) eqn:Hcard; simpl;
    [by intros ?%elem_of_nil|].
  apply bool_decide_eq_false in Hcard.
  intros Hin. apply list_elem_of_singleton in Hin as ->.
  split; [done|].
  split.
  { intros ->. by vm_compute in Ht. }
  split; [congruence|].
  unfold ButtonLogs.or_else in Hsrc.
  destruct (ButtonLogs.truthy (ButtonLogs.getAttribute el C)); auto.
Qed.

Lemma fundingSources_one_length A C F el :
  (length (ButtonLogs.fundingSources A C F [el]) ≤ 1)%nat.
Proof.
  unfold ButtonLogs.fundingSources. simpl.
  destruct (bool_decide _); simpl; [|lia].
  repeat case_match; simpl; lia.
Qed.

Lemma fundingSources_nonempty A C F doc s :
  s ∈ ButtonLogs.fundingSources A C F doc → s ≠ EmptyString.
Proof.
  induction doc as [|el doc IH]; [by intros ?%elem_of_nil|].
  rewrite fundingSources_cons. intros [Hin|Hin]%elem_of_app; [|by apply IH].
  by destruct (fundingSources_one A C F el s Hin) as (_ & Hne & _).
Qed.

Lemma join_empty sep l :
  (∀ s, s ∈ l → s ≠ EmptyString) →
  ButtonLogs.join sep l = EmptyString → l = [].
Proof.
  intros Hne Hj. destruct l as [|x l]; [done|]. exfalso.
  assert (x ≠ EmptyString) as Hx by (apply Hne; left).
  destruct l as [|y l]; simpl in Hj; [done|].
  destruct x; [done|]. discriminate Hj.
Qed.

(** X12. Every name in the tracked funding list comes from an element that
    carries the funding-source attribute: it is that element's card
    attribute when this is a non-empty string and its funding-source
    attribute otherwise, and it is never the empty string nor [FUNDING.CARD]. *)
Theorem funding_names_come_from_elements A C F doc s :
  s ∈ ButtonLogs.fundingSources A C F doc →
  s ≠ EmptyString ∧ s ≠ F
  ∧ ∃ el, el ∈ doc
      ∧ is_Some (ButtonLogs.getAttribute el A)
      ∧ (ButtonLogs.getAttribute el C = Some s
         ∨ (ButtonLogs.truthy (ButtonLogs.getAttribute el C) = false
            ∧ ButtonLogs.getAttribute el A = Some s)).
Proof.
  induction doc as [|el doc IH]; [by intros ?%elem_of_nil|].
  rewrite fundingSources_cons. intros [Hin|Hin]%elem_of_app.
  - destruct (fundingSources_one A C F el s Hin) as (Hhas & Hne & Hcard & Hfrom).
    split; [done|]. split; [done|]. exists el. split; [left|done].
  - destruct (IH Hin) as (Hne & Hcard & el' & Hel & Hrest).
    split; [done|]. split; [done|]. exists el'. split; [by right|done].
Qed.

Lemma funding_names_come_from_elements_witness :
  "visa" ≠ "card"
  ∧ ∃ el, el ∈ ButtonLogs.document (sample_page None)
      ∧ is_Some (ButtonLogs.getAttribute el "data-funding-source")
      ∧ (ButtonLogs.getAttribute el "data-card" = Some "visa"
         ∨ (ButtonLogs.truthy (ButtonLogs.getAttribute el "data-card") = false
            ∧ ButtonLogs.getAttribute el "data-funding-source" = Some "visa")).
Proof.
  refine (proj2 (funding_names_come_from_elements
                   "data-funding-source" "data-card" "card"
                   (ButtonLogs.document (sample_page None)) "visa" _)).
  vm_compute. apply list_elem_of_further, list_elem_of_here.
Defined.

(** X13. The funding list is built element by element, in document order:
    the list of two documents put together is the two lists put together,
    an element without the funding-source attribute adds nothing, whatever
    its card attribute says, and the tracked count never exceeds the number
    of elements. *)
Theorem funding_list_is_elementwise A C F doc doc' el :
  ButtonLogs.fundingSources A C F (doc ++ doc')
  = ButtonLogs.fundingSources A C F doc ++ ButtonLogs.fundingSources A C F doc'
  ∧ (ButtonLogs.getAttribute el A = None →
     ButtonLogs.fundingSources A C F (doc ++ el :: doc')
     = ButtonLogs.fundingSources A C F (doc ++ doc'))
  ∧ (length (ButtonLogs.fundingSources A C F doc) ≤ length doc)%nat.
Proof.
  split; [apply fundingSources_app|]. split.
  - intros Hnone. rewrite !fundingSources_app, (fundingSources_cons A C F el doc').
    f_equal. unfold ButtonLogs.fundingSources at 1. simpl. by rewrite Hnone.
  - induction doc as [|x d IH]; [done|].
    rewrite fundingSources_cons, length_app. simpl.
    pose proof (fundingSources_one_length A C F x). lia.
Qed.

Lemma funding_list_is_elementwise_witness :
  ButtonLogs.fundingSources "data-funding-source" "data-card" "card"
    ([[("data-funding-source", "paypal")]]
       ++ [("data-card", "visa")] :: [[("data-funding-source", "venmo")]])
  = ButtonLogs.fundingSources "data-funding-source" "data-card" "card"
      ([[("data-funding-source", "paypal")]]
         ++ [[("data-funding-source", "venmo")]]).
Proof.
  exact (proj1 (proj2 (funding_list_is_elementwise
                         "data-funding-source" "data-card" "card"
                         [[("data-funding-source", "paypal")]]
                         [[("data-funding-source", "venmo")]]
                         [("data-card", "visa")])) eq_refl).
Defined.

(** X14. In the record of a button load the funding list is the empty
    string exactly when the funding count is ["0"]: no source is lost or
    made up by the join. *)
Theorem funding_list_empty_iff_count_zero A C F pg xp t :
  (ButtonLogs.FUNDING_LIST, ButtonLogs.VString EmptyString)
    ∈ ButtonLogs.button_load_record A C F pg xp t
  ↔ (ButtonLogs.FUNDING_COUNT, ButtonLogs.VString "0")
    ∈ ButtonLogs.button_load_record A C F pg xp t.
Proof.
  unfold ButtonLogs.button_load_record.
  set (sources := ButtonLogs.fundingSources A C F (ButtonLogs.document pg)).
  assert (ButtonLogs.join ":" sources = EmptyString ↔ sources = []) as Hj.
  { split; [|by intros ->].
    apply join_empty. intros s Hs. by apply fundingSources_nonempty in Hs. }
  assert (pretty (length sources) = "0" ↔ sources = []) as Hc.
  { split; [|by intros ->].
    intros Hp. change "0" with (pretty 0%nat) in Hp.
    apply (inj pretty) in Hp. by apply length_zero_iff_nil. }
  split; intros Hin.
  - assert (sources = []) as ->.
    { apply Hj. repeat (apply elem_of_cons in Hin as [Hin|Hin]; [congruence|]).
      by apply elem_of_nil in Hin. }
    apply list_elem_of_further, list_elem_of_further, list_elem_of_here.
  - assert (sources = []) as ->.
    { apply Hc.
      repeat (apply elem_of_cons in Hin as [Hin|Hin]; [congruence|]).
      by apply elem_of_nil in Hin. }
    apply list_elem_of_further, list_elem_of_here.
Qed.

Lemma funding_list_empty_iff_count_zero_witness :
  (ButtonLogs.FUNDING_COUNT, ButtonLogs.VString "0")
    ∈ ButtonLogs.button_load_record "data-funding-source" "data-card" "card"
        {| ButtonLogs.isIEIntranet := false;
           ButtonLogs.xprops := Some {| ButtonLogs.style := None |};
           ButtonLogs.pageRenderTime := Resolved None;
           ButtonLogs.document :=
             [[("data-funding-source", "card")]; [("data-card", "visa")]];
           ButtonLogs.innerWidth := 300 |}
        {| ButtonLogs.style := None |} None.
Proof.
  apply (proj1 (funding_list_empty_iff_count_zero
                  "data-funding-source" "data-card" "card" _ _ _)).
  vm_compute. apply list_elem_of_further, list_elem_of_here.
Defined.

(** * Registration, failing clicks and late detections *)

(** ** What [clean.register] does *)

Lemma clean_register_registers env t (w : World) :
  registers t w (snd (clean_register env t w)).
Proof.
  intros rid r Hc Hr. unfold clean_register, register_in. rewrite Hc, Hr.
  destruct (cleaned r) eqn:Hcl, (lateRegister env); simpl.
  - right. split; [done|]. by rewrite teardowns_app.
  - by left.
  - done.
  - done.
Qed.

(** Registration seen from a wider span: events other than teardowns may be
    logged before and after it. *)
Lemma registers_span t (w w1 w2 w' : World) :
  registers t w1 w2 →
  clean w1 = clean w → registries w1 = registries w →
  teardowns (log w1) = teardowns (log w) →
  registries w' = registries w2 →
  teardowns (log w') = teardowns (log w2) →
  registers t w w'.
Proof.
  intros H Hc Hr Hl Hr' Hl' rid r Hcw Hrw.
  specialize (H rid r). rewrite Hc, Hr, Hl in H. specialize (H Hcw Hrw).
  by rewrite Hr', Hl'.
Qed.

Lemma fallbackToWebCheckout_registers env sid fallbackWin (w : World)
    (s : Session) :
  sessions w !! sid = Some s →
  registers (CheckoutClose (nextID w)) w
    (snd (fallbackToWebCheckout env sid fallbackWin w)).
Proof.
  intros Hs. unfold fallbackToWebCheckout. unfold_monad. simpl.
  rewrite list_lookup_alter_eq, Hs. simpl.
  match goal with
  | |- context [clean_register env ?t ?w1] =>
      pose proof (clean_register_registers env t w1) as H;
      destruct (clean_register env t w1) as [[] w2]
  end.
  simpl in *. eapply registers_span; [exact H|..]; simpl; try done.
  - by rewrite !teardowns_app, !app_nil_r.
  - by rewrite teardowns_app, app_nil_r.
Qed.

Lemma detectAppSwitch_registers env sid uid (w : World) :
  registers (ConnectionCancel (nextID w)) w
    (snd (detectAppSwitch env sid uid w)).
Proof.
  unfold detectAppSwitch, record_app_switch. unfold_monad. simpl.
  match goal with
  | |- context [clean_register env ?t ?w1] =>
      pose proof (clean_register_registers env t w1) as H;
      destruct (clean_register env t w1) as [[] w2]
  end.
  simpl in *. eapply registers_span; [exact H|..]; simpl; try done.
  - by rewrite !teardowns_app, switch_diagnostics_quiet, !app_nil_r.
  - by rewrite teardowns_app, app_nil_r.
Qed.

(** ** The fallback callback *)

(** X6. The fallback callback marks the session as fallen back, initialises
    a checkout flow on the session's payment with no window, [isClick:
    false] and [isNativeFallback: true], hands the close of that checkout to
    [clean.register] and starts it; what [start] returns is dropped, so the
    callback resolves with the button session id even when the checkout fails
    to start. It opens no connection and does not call [destroy]: on a
    registry that has not been run the close is appended to the registered
    actions and no teardown action runs. *)
Theorem onFallbackCallback_always_resolves env sid (w : World) (s : Session) :
  sessions w !! sid = Some s →
  fst (onFallbackCallback env sid w) = Resolved (buttonSessionID s)
  ∧ sessions (snd (onFallbackCallback env sid w))
    = <[sid := set_didFallback true s]> (sessions w)
  ∧ (∃ late,
       log (snd (onFallbackCallback env sid w))
       = log w
         ++ [EInfo "native_message_onfallback" [];
             ETrack [(TRANSITION, TTransition NATIVE_ON_FALLBACK)];
             EFlush;
             EBrice "payment-flows/native.js/initNative -> fallbackToWebCheckout" false;
             ECheckoutInit (nextID w) sid
               {| fundingSource := fundingSource (payment s);
                  win := None;
                  isClick := Some false;
                  isNativeFallback := Some true;
                  otherFields := otherFields (payment s) |}]
         ++ late ++ [ECheckoutStart (nextID w)]
       ∧ (late = [] ∨ late = [ETeardown (CheckoutClose (nextID w))]))
  ∧ count opens_connection (log (snd (onFallbackCallback env sid w)))
    = count opens_connection (log w)
  ∧ registers (CheckoutClose (nextID w)) w
      (snd (onFallbackCallback env sid w)).
Proof.
  intros Hs.
  assert (registers (CheckoutClose (nextID w)) w
            (snd (onFallbackCallback env sid w))) as Hreg.
  { unfold onFallbackCallback, session_id_result. unfold_monad. simpl.
    match goal with
    | |- context [fallbackToWebCheckout env sid None ?w1] =>
        pose proof (fallbackToWebCheckout_registers env sid None w1 s Hs) as H;
        destruct (fallbackToWebCheckout env sid None w1) as [r w2]
    end.
    simpl in *. eapply registers_span; [exact H|..]; simpl; try done.
    by rewrite teardowns_app, app_nil_r. }
  revert Hreg.
  unfold onFallbackCallback, session_id_result. unfold_monad. simpl.
  match goal with
  | |- context [fallbackToWebCheckout env sid None ?w1] =>
      destruct (fallbackToWebCheckout_spec env sid None w1 s Hs)
        as (late & Hlate & _ & Hl & Hss & _);
      destruct (fallbackToWebCheckout env sid None w1) as [r w2]
  end.
  simpl in *. rewrite Hss, Hl, (lookup_insert_same _ _ _ _ Hs). simpl.
  intros Hreg.
  split; [done|]. split; [done|]. split; [|split; [|done]].
  - exists late. split; [|done]. unfold checkoutPayment.
    by rewrite <- !app_assoc.
  - rewrite !count_app, !count_cons.
    destruct Hlate as [-> | ->]; simpl; rewrite ?count_cons, ?count_nil;
      simpl; lia.
Qed.

Lemma onFallbackCallback_always_resolves_witness :
  fst (onFallbackCallback rejecting_env 0 one_popup)
  = Resolved "uid_button_session"
  ∧ registries (snd (onFallbackCallback rejecting_env 0 one_popup))
    = [{| tasks := [PopupCancel 0; CheckoutClose 1]; cleaned := false |}].
Proof.
  destruct (onFallbackCallback_always_resolves rejecting_env 0 one_popup
              _ eq_refl) as (-> & _ & _ & _ & Hreg).
  split; [reflexivity|].
  destruct (Hreg 0%nat {| tasks := [PopupCancel 0]; cleaned := false |}
              eq_refl eq_refl) as [-> _].
  reflexivity.
Defined.

(** ** A detection after the future of [click] has settled *)

(** X8. A detection that arrives when the future of [click] is already
    settled runs in full: on an app switch a connection is opened, its
    cancel is handed to [clean.register] (appended to the registered actions
    while the registry has not been run) and [setProps] is called. But what
    [setProps] returns is dropped: the future of [click] stays as it is,
    [destroy] is not called and no error record is logged, even when
    [setProps] fails. *)
Theorem detection_after_settlement_is_not_reported env p (w : World) (pp : Popup) :
  popups w !! p = Some pp →
  settled pp = true →
  popups (snd (onDetectAppSwitch env p w)) = popups w
  ∧ sessions (snd (onDetectAppSwitch env p w)) = sessions w
  ∧ count opens_connection (log (snd (onDetectAppSwitch env p w)))
    = S (count opens_connection (log w))
  ∧ count is_native_error (log (snd (onDetectAppSwitch env p w)))
    = count is_native_error (log w)
  ∧ ESetProps (nextID w) ∈ log (snd (onDetectAppSwitch env p w))
  ∧ (teardowns (log (snd (onDetectAppSwitch env p w))) = teardowns (log w)
     ∨ teardowns (log (snd (onDetectAppSwitch env p w)))
       = teardowns (log w) ++ [ConnectionCancel (nextID w)])
  ∧ registers (ConnectionCancel (nextID w)) w
      (snd (onDetectAppSwitch env p w)).
Proof.
  intros Hp Hst. unfold onDetectAppSwitch. rewrite Hp. unfold bind.
  pose proof (detectAppSwitch_registers env (popupSession pp) (popupUID pp) w)
    as Hreg.
  destruct (detectAppSwitch_spec env (popupSession pp) (popupUID pp) w)
    as (late & Hlate & _ & Hl & _ & Hss & Hpp & _).
  destruct (detectAppSwitch env (popupSession pp) (popupUID pp) w) as [r w1].
  simpl in *. unfold settle_click. rewrite Hpp, Hp, Hst. simpl.
  assert (count opens_connection (switch_diagnostics "app" (storage w)) = 0%nat
          ∧ count is_native_error (switch_diagnostics "app" (storage w)) = 0%nat
          ∧ teardowns (switch_diagnostics "app" (storage w)) = []) as (Hd1 & Hd2 & Hd3).
  { unfold switch_diagnostics. by repeat case_bool_decide. }
  split; [done|]. split; [done|].
  split; [|split; [|split; [|split; [|exact Hreg]]]]; rewrite Hl;
    rewrite ?count_app, ?teardowns_app, ?count_cons, ?Hd1, ?Hd2, ?Hd3.
  - destruct Hlate as [-> | ->]; simpl; rewrite ?count_cons, ?count_nil; simpl; lia.
  - destruct Hlate as [-> | ->]; simpl; rewrite ?count_cons, ?count_nil; simpl; lia.
  - apply elem_of_app. right. apply elem_of_app. right.
    do 4 apply list_elem_of_further. apply elem_of_app. right.
    apply list_elem_of_here.
  - destruct Hlate as [-> | ->]; simpl; [left|right]; by rewrite ?app_nil_r.
Qed.

Lemma detection_after_settlement_is_not_reported_witness :
  count is_native_error
    (log (snd (onDetectAppSwitch sample_env 0
                 (snd (onDetectWebSwitch sample_env 0 7%nat one_popup)))))
  = 0%nat
  ∧ count opens_connection
      (log (snd (onDetectAppSwitch sample_env 0
                   (snd (onDetectWebSwitch sample_env 0 7%nat one_popup)))))
    = 1%nat
  ∧ registries
      (snd (onDetectAppSwitch sample_env 0
              (snd (onDetectWebSwitch sample_env 0 7%nat one_popup))))
    = [{| tasks := [PopupCancel 0; CheckoutClose 1; ConnectionCancel 2];
          cleaned := false |}].
Proof.
  destruct (detection_after_settlement_is_not_reported sample_env 0
              (snd (onDetectWebSwitch sample_env 0 7%nat one_popup))
              _ eq_refl eq_refl) as (_ & _ & -> & -> & _ & _ & Hreg).
  split; [reflexivity|]. split; [reflexivity|].
  destruct (Hreg 0%nat {| tasks := [PopupCancel 0; CheckoutClose 1];
                          cleaned := false |} eq_refl eq_refl) as [-> _].
  reflexivity.
Defined.

(** ** An app switch after a web switch *)

(** Settling the future of [click] keeps the popup and what it was opened
    for. *)
Lemma settle_click_popup_kept env p r (w : World) (pp : Popup) :
  popups w !! p = Some pp →
  ∃ pp', popups (snd (settle_click env p r w)) !! p = Some pp'
         ∧ popupSession pp' = popupSession pp
         ∧ popupUID pp' = popupUID pp.
Proof.
  intros Hp. unfold settle_click. rewrite Hp.
  destruct (settled pp); [by exists pp|].
  destruct r as [[]|err|]; simpl.
  - eexists. split; [apply lookup_insert_eq|done].
  - destruct (click_catch env (popupSession pp) err w) as [q w1]. simpl.
    eexists. split; [apply lookup_insert_eq|done].
  - by exists pp.
Qed.

(** Every app-switch detection of a popup calls [connectNative] once. *)
Lemma onDetectAppSwitch_connects env p (w : World) (pp : Popup) :
  popups w !! p = Some pp →
  count opens_connection (log (snd (onDetectAppSwitch env p w)))
  = S (count opens_connection (log w))
  ∧ EConnectNative (nextID w) (popupSession pp) (popupUID pp)
    ∈ log (snd (onDetectAppSwitch env p w)).
Proof.
  intros Hp. unfold onDetectAppSwitch. rewrite Hp. unfold bind.
  destruct (detectAppSwitch_spec env (popupSession pp) (popupUID pp) w)
    as (late & Hlate & _ & Hl & _).
  destruct (detectAppSwitch env (popupSession pp) (popupUID pp) w) as [r w1].
  simpl in *.
  destruct (settle_click_quiet env p r w1) as (_ & _ & _ & es & Hl' & Hes & _).
  destruct (settle_click env p r w1) as [[] w2]. simpl in *.
  assert (count opens_connection (switch_diagnostics "app" (storage w)) = 0%nat)
    as Hd.
  { unfold switch_diagnostics. by repeat case_bool_decide. }
  rewrite Hl', Hl. split.
  - rewrite !count_app, !count_cons, Hd, Hes.
    destruct Hlate as [-> | ->]; simpl; rewrite ?count_cons, ?count_nil;
      simpl; lia.
  - apply elem_of_app. left. apply elem_of_app. right. apply elem_of_app.
    right. do 3 apply list_elem_of_further. apply list_elem_of_here.
Qed.

(** C7 as stated fails. On the popup path a web switch is detected first
    and the web checkout is started; the app switch detected afterwards for
    the same popup still opens a native connection, which stays live next
    to the checkout. *)
Lemma app_switch_after_web_switch_opens_connection :
  count opens_connection
    (log (run working_env
            [SInit (sample_options "paypal" (Some "firebase")); SClick 0;
             SDetectWebSwitch 0 7%nat] sample_world))
  = 0%nat
  ∧ count opens_connection
      (log (run working_env
              [SInit (sample_options "paypal" (Some "firebase")); SClick 0;
               SDetectWebSwitch 0 7%nat; SDetectAppSwitch 0] sample_world))
    = 1%nat
  ∧ live_connections
      (log (run working_env
              [SInit (sample_options "paypal" (Some "firebase")); SClick 0;
               SDetectWebSwitch 0 7%nat; SDetectAppSwitch 0] sample_world))
    = [2%nat]
  ∧ didFallback <$>
      sessions (run working_env
                  [SInit (sample_options "paypal" (Some "firebase")); SClick 0;
                   SDetectWebSwitch 0 7%nat; SDetectAppSwitch 0] sample_world)
      !! 0%nat
    = Some true.
Proof. repeat split; vm_compute; reflexivity. Qed.

(** C7, amended. When the popup reports a web switch, the current time is
    written as the last web-switch time (the app-switch time is left as it
    was), the session is marked as fallen back, and a checkout flow is
    initialised and started on the session's payment with [win] set to the
    window handed over, [isClick: false] and [isNativeFallback: true]. That
    callback itself does not call [connectNative]. But the popup stays as it
    was, and nothing turns its app-switch callback off: when
    [onDetectAppSwitch] fires afterwards for the same popup, it calls
    [connectNative] for the popup's session, whatever the session's flags
    and the state of the future of [click]. *)
Theorem onDetectWebSwitch_falls_back_to_web env p win (w : World) (pp : Popup)
    (s : Session) :
  popups w !! p = Some pp →
  sessions w !! popupSession pp = Some s →
  lastWebSwitchTime (storage (snd (onDetectWebSwitch env p win w)))
  = Some (now w)
  ∧ lastAppSwitchTime (storage (snd (onDetectWebSwitch env p win w)))
    = lastAppSwitchTime (storage w)
  ∧ (∃ s', sessions (snd (onDetectWebSwitch env p win w)) !! popupSession pp
           = Some s'
           ∧ didFallback s' = true)
  ∧ (∃ before late after,
       log (snd (onDetectWebSwitch env p win w))
       = log w ++ before
         ++ [ECheckoutInit (nextID w) (popupSession pp)
               {| fundingSource := fundingSource (payment s);
                  win := Some win;
                  isClick := Some false;
                  isNativeFallback := Some true;
                  otherFields := otherFields (payment s) |}]
         ++ late ++ [ECheckoutStart (nextID w)] ++ after
       ∧ count opens_connection (before ++ late ++ after) = 0%nat)
  ∧ count opens_connection (log (snd (onDetectWebSwitch env p win w)))
    = count opens_connection (log w)
  ∧ (∃ pp', popups (snd (onDetectWebSwitch env p win w)) !! p = Some pp'
            ∧ popupSession pp' = popupSession pp
            ∧ popupUID pp' = popupUID pp)
  ∧ count opens_connection
      (log (snd (onDetectAppSwitch env p (snd (onDetectWebSwitch env p win w)))))
    = S (count opens_connection (log w))
  ∧ EConnectNative (S (nextID w)) (popupSession pp) (popupUID pp)
    ∈ log (snd (onDetectAppSwitch env p (snd (onDetectWebSwitch env p win w)))).
Proof.
  intros Hp Hs.
  assert (lastWebSwitchTime (storage (snd (onDetectWebSwitch env p win w)))
          = Some (now w)
          ∧ lastAppSwitchTime (storage (snd (onDetectWebSwitch env p win w)))
            = lastAppSwitchTime (storage w)
          ∧ (∃ s', sessions (snd (onDetectWebSwitch env p win w))
                     !! popupSession pp = Some s'
                   ∧ didFallback s' = true)
          ∧ (∃ before late after,
               log (snd (onDetectWebSwitch env p win w))
               = log w ++ before
                 ++ [ECheckoutInit (nextID w) (popupSession pp)
                       {| fundingSource := fundingSource (payment s);
                          win := Some win;
                          isClick := Some false;
                          isNativeFallback := Some true;
                          otherFields := otherFields (payment s) |}]
                 ++ late ++ [ECheckoutStart (nextID w)] ++ after
               ∧ count opens_connection (before ++ late ++ after) = 0%nat)
          ∧ count opens_connection (log (snd (onDetectWebSwitch env p win w)))
            = count opens_connection (log w)
          ∧ (∃ pp', popups (snd (onDetectWebSwitch env p win w)) !! p = Some pp'
                    ∧ popupSession pp' = popupSession pp
                    ∧ popupUID pp' = popupUID pp)
          ∧ nextID (snd (onDetectWebSwitch env p win w)) = S (nextID w))
    as (H1 & H2 & H3 & H4 & H5 & H6 & H7).
  { unfold onDetectWebSwitch. rewrite Hp.
    unfold detectWebSwitch, record_web_switch. unfold_monad. simpl.
    match goal with
    | |- context [fallbackToWebCheckout env ?sid ?fw ?w1] =>
        destruct (fallbackToWebCheckout_spec env sid fw w1 s Hs)
          as (late & Hlate & Hr & Hl & Hss & Hc & Hpp & Hst & _ & _ & Hid & _);
        destruct (fallbackToWebCheckout env sid fw w1) as [r w2]
    end.
    simpl in *. subst r.
    assert (popups w2 !! p = Some pp) as Hp2 by (by rewrite Hpp).
    match goal with
    | |- context [settle_click env p ?r w2] =>
        destruct (settle_click_quiet env p r w2)
          as (Hst' & Hid' & Hk & es & Hl' & Hes & _);
        pose proof (settle_click_popup_kept env p r w2 pp Hp2) as Hkept;
        destruct (settle_click env p r w2) as [[] w3]
    end.
    simpl in *. rewrite Hst', Hst. simpl. split; [done|]. split; [done|].
    split.
    { destruct (Hk (popupSession pp) (set_didFallback true s))
        as (s' & Hs' & _ & _ & Hf & _).
      - rewrite Hss. by eapply lookup_insert_same.
      - by exists s'. }
    assert (count opens_connection (switch_diagnostics "web" (storage w)) = 0%nat)
      as Hdiag.
    { unfold switch_diagnostics. by repeat case_bool_decide. }
    assert (count opens_connection late = 0%nat) as Hclate.
    { by destruct Hlate as [-> | ->]. }
    split; [|split; [|split; [done|by rewrite Hid', Hid]]].
    - exists (switch_diagnostics "web" (storage w)
              ++ [EInfo "native_detect_web_switch" [];
                  ETrack [(TRANSITION, TTransition NATIVE_DETECT_WEB_SWITCH)];
                  EFlush;
                  EBrice "payment-flows/native.js/initNative -> fallbackToWebCheckout" false]),
        late, es.
      split.
      + rewrite Hl', Hl. unfold checkoutPayment. rewrite <- !app_assoc. simpl.
        rewrite <- !app_assoc. reflexivity.
      + rewrite !count_app, Hdiag, Hclate, Hes. reflexivity.
    - rewrite Hl', Hl. rewrite !count_app, Hdiag, Hes.
      change (?x :: ?y :: late ++ ?z) with ([x; y] ++ late ++ z).
      rewrite !count_app, Hclate. unfold count. simpl. lia. }
  do 6 (split; [done|]).
  destruct H6 as (pp' & Hp' & Hsid & Huid).
  destruct (onDetectAppSwitch_connects env p
              (snd (onDetectWebSwitch env p win w)) pp' Hp') as [Hcount Hin].
  rewrite Hcount, H5, H7 in *. by rewrite <- Hsid, <- Huid.
Qed.

Lemma onDetectWebSwitch_falls_back_to_web_witness :
  lastWebSwitchTime (storage (snd (onDetectWebSwitch sample_env 0 7%nat one_popup)))
  = Some 1600000000000
  ∧ count opens_connection
      (log (snd (onDetectWebSwitch sample_env 0 7%nat one_popup))) = 0%nat
  ∧ count opens_connection
      (log (snd (onDetectAppSwitch sample_env 0
                   (snd (onDetectWebSwitch sample_env 0 7%nat one_popup)))))
    = 1%nat.
Proof.
  destruct (onDetectWebSwitch_falls_back_to_web sample_env 0 7%nat one_popup
              _ _ eq_refl eq_refl) as (H1 & _ & _ & _ & H2 & _ & H3 & _).
  rewrite H1, H2, H3. repeat split; reflexivity.
Defined.

(** ** Failures of [click] *)

Lemma teardowns_native_error env err :
  teardowns (native_error_events env err) = [].
Proof. reflexivity. Qed.

(** C4 as stated fails. First, a failure that arrives once the future of
    [click] has settled is dropped: after a web switch has resolved the
    future, the app switch opens a connection whose [setProps] rejects, and
    then no teardown action runs, no error record is logged, the future
    stays resolved and the connection stays live. Second, when a teardown
    action rejects, the future of [click] is rejected with that error and
    not with the one that failed the click, and no error record is logged. *)
Lemma late_detection_failure_is_dropped :
  clickFuture <$>
    popups (run sample_env
              [SInit (sample_options "paypal" (Some "firebase")); SClick 0;
               SDetectWebSwitch 0 7%nat; SDetectAppSwitch 0] sample_world)
    !! 0%nat
  = Some (Resolved tt)
  ∧ setProps sample_env 2 = Rejected (Error "socket closed")
  ∧ live_connections
      (log (run sample_env
              [SInit (sample_options "paypal" (Some "firebase")); SClick 0;
               SDetectWebSwitch 0 7%nat; SDetectAppSwitch 0] sample_world))
    = [2%nat]
  ∧ teardowns
      (log (run sample_env
              [SInit (sample_options "paypal" (Some "firebase")); SClick 0;
               SDetectWebSwitch 0 7%nat; SDetectAppSwitch 0] sample_world))
    = []
  ∧ count is_native_error
      (log (run sample_env
              [SInit (sample_options "paypal" (Some "firebase")); SClick 0;
               SDetectWebSwitch 0 7%nat; SDetectAppSwitch 0] sample_world))
    = 0%nat
  ∧ clickFuture <$>
      popups (run failing_teardown_env
                [SInit (sample_options "paypal" (Some "firebase")); SClick 0;
                 SDetectAppSwitch 0] sample_world)
      !! 0%nat
    = Some (Rejected (Error "cancel failed"))
  ∧ count is_native_error
      (log (run failing_teardown_env
              [SInit (sample_options "paypal" (Some "firebase")); SClick 0;
               SDetectAppSwitch 0] sample_world))
    = 0%nat.
Proof. repeat split; vm_compute; reflexivity. Qed.

(** C4, amended. A failure of [click] reaches its [catch] handler in three
    ways: the TypeError thrown on the QR path, a throw of [openNativePopup],
    and a rejection delivered by a detection callback of the popup while the
    future of [click] is unsettled. The handler calls [destroy] first, which
    runs the teardown actions still pending for the registry [clean] points
    to, and none when this instance's [destroy] has been called before
    (then the registries stay as they are). What follows depends on the
    future of [destroy]: when it resolves, the [native_error] record is
    logged, tracked and flushed after the teardown actions and the future
    of [click] is rejected with the original error; when it rejects, the
    future of [click] is rejected with the error of [destroy] and no record
    is logged; while it is pending, so is the future of [click], and no
    record is logged. A settlement that arrives when the future of [click]
    is already settled changes nothing: the handler does not run. *)
Theorem click_failure_runs_destroy_then_reports env sid :
  (∀ (w : World) (s : Session) err,
     sessions w !! sid = Some s →
     log (snd (click_catch env sid err w))
     = log w ++ map ETeardown (pending_teardown w sid)
       ++ match fst (destroy env sid w) with
          | Resolved _ => native_error_events env err
          | _ => []
          end
     ∧ fst (click_catch env sid err w)
       = match fst (destroy env sid w) with
         | Resolved _ => Rejected err
         | Rejected e => Rejected e
         | Pending => Pending
         end
     ∧ (∃ s', sessions (snd (click_catch env sid err w)) !! sid = Some s'
              ∧ destroyMemo s' = Some (fst (destroy env sid w)))
     ∧ (∀ rid, destroyMemo s = None → clean w = Some rid →
          is_Some (registries w !! rid) →
          registries (snd (click_catch env sid err w)) !! rid
          = Some {| tasks := []; cleaned := true |})
     ∧ (∀ d, destroyMemo s = Some d →
          fst (destroy env sid w) = d
          ∧ pending_teardown w sid = []
          ∧ registries (snd (click_catch env sid err w)) = registries w))
  ∧ (∀ (w : World) err,
       click_rethrow env err w
       = (Rejected err, set_log (log w ++ native_error_events env err) w))
  ∧ (∀ (w : World) (s : Session),
       sessions w !! sid = Some s → isVenmoDesktopPay s = true →
       click env sid w
       = click_catch env sid (TypeError "onApproveQR.then is not a function")
           (set_log
              (log w ++ EBrice "payment-flows/native.js/initNative -> click " false
                 :: qr_shown_events env s (nextID w))
              (set_nextID (S (nextID w)) (set_nextUID (S (nextUID w)) w))))
  ∧ (∀ (w : World) (s : Session) e,
       sessions w !! sid = Some s → isVenmoDesktopPay s = false →
       openNativePopupThrows env (nextUID w) = Some e →
       click env sid w
       = click_catch env sid e
           (set_log
              (log w ++
                 [EBrice "payment-flows/native.js/initNative -> click " false;
                  EBrice "payment-flows/native.js/initNative -> initPopupAppSwitch " false])
              (set_nextUID (S (nextUID w)) w)))
  ∧ (∀ (w : World) p (pp : Popup) e,
       popups w !! p = Some pp → popupSession pp = sid → settled pp = false →
       ∃ q, popups (snd (settle_click env p (Rejected e) w)) !! p = Some q
            ∧ clickFuture q = fst (click_catch env sid e w)
            ∧ log (snd (settle_click env p (Rejected e) w))
              = log (snd (click_catch env sid e w))
            ∧ sessions (snd (settle_click env p (Rejected e) w))
              = sessions (snd (click_catch env sid e w))
            ∧ registries (snd (settle_click env p (Rejected e) w))
              = registries (snd (click_catch env sid e w)))
  ∧ (∀ (w : World) p (pp : Popup) r,
       popups w !! p = Some pp → settled pp = true →
       settle_click env p r w = (tt, w))
  ∧ (∀ (w : World) p (pp : Popup) win,
       popups w !! p = Some pp →
       snd (onDetectWebSwitch env p win w)
       = snd (settle_click env p
                (fst (detectWebSwitch env (popupSession pp) win w))
                (snd (detectWebSwitch env (popupSession pp) win w))))
  ∧ (∀ (w : World) p (pp : Popup),
       popups w !! p = Some pp →
       snd (onDetectAppSwitch env p w)
       = snd (settle_click env p
                (fst (detectAppSwitch env (popupSession pp) (popupUID pp) w))
                (snd (detectAppSwitch env (popupSession pp) (popupUID pp) w)))).
Proof.
  split; [|split; [by intros|split; [|split; [|split; [|split; [|split]]]]]].
  - intros w s err Hs. rewrite click_catch_spec.
    pose proof (destroy_log env sid w) as Hl.
    pose proof (destroy_sessions env sid w s Hs) as Hss.
    pose proof (destroy_registries env sid w s) as Hr.
    pose proof (destroy_memoized env sid w s) as Hm.
    assert (∀ d, destroyMemo s = Some d → pending_teardown w sid = []) as Hpt.
    { intros d Hd. unfold pending_teardown. by rewrite Hs, Hd. }
    destruct (destroy env sid w) as [d wd]. simpl in *.
    assert (registries
              (match d with
               | Resolved _ =>
                   (Rejected err,
                    set_log (log wd ++ native_error_events env err) wd)
               | Rejected e => (Rejected e, wd)
               | Pending => (@Pending unit, wd)
               end).2 = registries wd) as Hreg by (by destruct d).
    split; [|split; [|split; [|split]]].
    + destruct d; simpl; rewrite Hl, <- ?app_assoc, ?app_nil_r; done.
    + by destruct d.
    + exists (set_destroyMemo (Some d) s). split; [|done].
      destruct d; simpl; rewrite Hss; by eapply lookup_insert_same.
    + intros rid Hn Hc Hreg'. rewrite Hreg, (Hr rid Hs Hn Hc Hreg').
      destruct Hreg' as [r Hreg']. by eapply lookup_insert_same.
    + intros d' Hd'. specialize (Hm d' Hs Hd'). injection Hm as -> ->.
      split; [done|]. split; [by eapply Hpt|]. done.
  - intros w s. apply click_qr_path.
  - intros w s e. apply click_popup_throws.
  - intros w p pp e Hp <- Hst. rewrite (settle_click_rejected env p e w pp Hp Hst).
    simpl. eexists. split; [apply lookup_insert_eq|]. by repeat split.
  - intros w p pp r Hp Hst. unfold settle_click. by rewrite Hp, Hst.
  - intros w p pp win Hp. unfold onDetectWebSwitch. rewrite Hp. unfold bind.
    by destruct (detectWebSwitch env (popupSession pp) win w).
  - intros w p pp Hp. unfold onDetectAppSwitch. rewrite Hp. unfold bind.
    by destruct (detectAppSwitch env (popupSession pp) (popupUID pp) w).
Qed.

Lemma click_failure_runs_destroy_then_reports_witness :
  clickFuture <$> popups (snd (onDetectAppSwitch sample_env 0 one_popup)) !! 0%nat
  = Some (Rejected (Error "socket closed"))
  ∧ fst (click sample_env 0 (one_session "venmo"))
    = Rejected (TypeError "onApproveQR.then is not a function")
  ∧ fst (click_catch failing_teardown_env 0 (Error "socket closed") one_popup)
    = Rejected (Error "cancel failed")
  ∧ log (snd (click_catch failing_teardown_env 0 (Error "socket closed")
                one_popup))
    = log one_popup ++ [ETeardown (PopupCancel 0)].
Proof.
  destruct (click_failure_runs_destroy_then_reports sample_env 0)
    as (Hcatch & _ & Hqr & _ & Hsettle & _ & _ & Happ).
  destruct (click_failure_runs_destroy_then_reports failing_teardown_env 0)
    as (Hcatch' & _).
  split; [|split; [|split]].
  - rewrite (Happ one_popup 0%nat _ eq_refl).
    change (fst (detectAppSwitch sample_env _ _ one_popup))
      with (@Rejected unit (Error "socket closed")).
    set (w1 := snd (detectAppSwitch sample_env _ _ one_popup)).
    destruct (Hsettle w1 0%nat _ (Error "socket closed") eq_refl eq_refl eq_refl)
      as (q & -> & Hfut & _).
    simpl. rewrite Hfut.
    destruct (Hcatch w1 _ (Error "socket closed") eq_refl) as (_ & -> & _).
    reflexivity.
  - rewrite (Hqr (one_session "venmo") _ eq_refl eq_refl).
    match goal with
    | |- context [click_catch sample_env 0 ?e ?w1] =>
        destruct (Hcatch w1 _ e eq_refl) as (_ & -> & _)
    end.
    reflexivity.
  - destruct (Hcatch' one_popup _ (Error "socket closed") eq_refl)
      as (_ & -> & _).
    reflexivity.
  - destruct (Hcatch' one_popup _ (Error "socket closed") eq_refl)
      as (-> & _).
    reflexivity.
Defined.

(** ** What tears a session down *)

(** The [catch] handler of [click] runs what [destroy] still has to run. *)
Lemma click_catch_teardowns env sid err (w : World) :
  teardowns (log (snd (click_catch env sid err w)))
  = teardowns (log w) ++ pending_teardown w sid.
Proof.
  rewrite click_catch_spec. pose proof (destroy_log env sid w) as Hl.
  destruct (destroy env sid w) as [d wd]. simpl in *.
  destruct d; simpl; rewrite Hl, ?teardowns_app, teardowns_map,
    ?teardowns_native_error, ?app_nil_r; done.
Qed.

(** A click on the popup path whose popup opens, with a registry that has
    not been run: what it leaves behind. *)
Lemma click_popup_opens env sid (w : World) (s : Session) rid (r : Registry) :
  sessions w !! sid = Some s →
  isVenmoDesktopPay s = false →
  openNativePopupThrows env (nextUID w) = None →
  clean w = Some rid →
  registries w !! rid = Some r →
  cleaned r = false →
  log (snd (click env sid w))
  = log w ++
    [EBrice "payment-flows/native.js/initNative -> click " false;
     EBrice "payment-flows/native.js/initNative -> initPopupAppSwitch " false;
     EOpenNativePopup (nextID w) sid (nextUID w)]
  ∧ registries (snd (click env sid w))
    = <[rid := {| tasks := tasks r ++ [PopupCancel (nextID w)];
                  cleaned := false |}]> (registries w)
  ∧ sessions (snd (click env sid w)) = sessions w
  ∧ clean (snd (click env sid w)) = clean w
  ∧ nextID (snd (click env sid w)) = S (nextID w)
  ∧ nextUID (snd (click env sid w)) = S (nextUID w).
Proof.
  intros Hs Hv Hp Hc Hr Hcl.
  unfold click, initPopupAppSwitch, openNativePopup, clean_register,
    register_in. unfold_monad. simpl.
  rewrite Hs, Hv. simpl. rewrite Hp. simpl. rewrite Hc, Hr, Hcl. simpl.
  rewrite <- !app_assoc. done.
Qed.

(** C5, amended. [click] tears nothing down on entry. A click whose popup
    opens (popup path, [openNativePopup] does not throw) returns a pending
    future, logs the opening of the popup and hands the popup's cancel to
    [clean.register]: while the registry [clean] points to has not been run,
    the cancel is appended to its actions and no teardown action runs (on a
    registry that has been run, the only action that can run is the new
    popup's own cancel). So two such clicks in a row on one instance open
    two popups and leave both cancels registered side by side. A click that
    fails at once, which is every click on the QR path and every click whose
    [openNativePopup] throws, runs [destroy] in its [catch] handler, and so
    the teardown actions pending for the registry [clean] points to, none
    when this instance's [destroy] has been called before. What tears the
    previous session down is a new [initNative]: every action registered
    with the registry [clean] points to runs, each once, before a fresh
    registry replaces that one and the new session is built. *)
Theorem initNative_tears_down_previous_session env :
  (∀ (o : InitOptions) (w : World) rid (r : Registry) fb,
     io_firebase o = Some fb →
     clean w = Some rid →
     registries w !! rid = Some r →
     fst (initNative env o w) = Returns (length (sessions w))
     ∧ (∃ ran,
          log (snd (initNative env o w))
          = log w ++ [EBrice "payment-flows/native.js/initNative" false]
            ++ map ETeardown ran
          ∧ ran ≡ₚ tasks r)
     ∧ registries (snd (initNative env o w))
       = <[rid := {| tasks := []; cleaned := true |}]> (registries w)
         ++ [{| tasks := []; cleaned := false |}]
     ∧ clean (snd (initNative env o w)) = Some (length (registries w)))
  ∧ (∀ (w : World) sid (s : Session),
       sessions w !! sid = Some s →
       isVenmoDesktopPay s = false →
       openNativePopupThrows env (nextUID w) = None →
       fst (click env sid w) = Pending
       ∧ (∃ late,
            log (snd (click env sid w))
            = log w ++
              [EBrice "payment-flows/native.js/initNative -> click " false;
               EBrice "payment-flows/native.js/initNative -> initPopupAppSwitch " false;
               EOpenNativePopup (nextID w) sid (nextUID w)]
              ++ late
            ∧ (late = [] ∨ late = [ETeardown (PopupCancel (nextID w))]))
       ∧ registers (PopupCancel (nextID w)) w (snd (click env sid w)))
  ∧ (∀ (w : World) sid (s : Session),
       sessions w !! sid = Some s →
       isVenmoDesktopPay s = true
       ∨ (isVenmoDesktopPay s = false
          ∧ is_Some (openNativePopupThrows env (nextUID w))) →
       teardowns (log (snd (click env sid w)))
       = teardowns (log w) ++ pending_teardown w sid)
  ∧ (∀ (w : World) sid (s : Session) rid (r : Registry),
       sessions w !! sid = Some s →
       isVenmoDesktopPay s = false →
       openNativePopupThrows env (nextUID w) = None →
       openNativePopupThrows env (S (nextUID w)) = None →
       clean w = Some rid →
       registries w !! rid = Some r →
       cleaned r = false →
       log (snd (click env sid (snd (click env sid w))))
       = log w ++
         [EBrice "payment-flows/native.js/initNative -> click " false;
          EBrice "payment-flows/native.js/initNative -> initPopupAppSwitch " false;
          EOpenNativePopup (nextID w) sid (nextUID w);
          EBrice "payment-flows/native.js/initNative -> click " false;
          EBrice "payment-flows/native.js/initNative -> initPopupAppSwitch " false;
          EOpenNativePopup (S (nextID w)) sid (S (nextUID w))]
       ∧ registries (snd (click env sid (snd (click env sid w))))
         = <[rid := {| tasks := tasks r ++ [PopupCancel (nextID w);
                                            PopupCancel (S (nextID w))];
                       cleaned := false |}]> (registries w)).
Proof.
  split; [|split; [|split]]; cycle 3.
  { intros w sid s rid r Hs Hv Hp Hp' Hc Hr Hcl.
    destruct (click_popup_opens env sid w s rid r Hs Hv Hp Hc Hr Hcl)
      as (Hl1 & Hr1 & Hs1 & Hc1 & Hid1 & Huid1).
    destruct (click_popup_opens env sid (snd (click env sid w)) s rid
                {| tasks := tasks r ++ [PopupCancel (nextID w)];
                   cleaned := false |}) as (Hl2 & Hr2 & _).
    - by rewrite Hs1.
    - done.
    - by rewrite Huid1.
    - by rewrite Hc1.
    - rewrite Hr1. by eapply lookup_insert_same.
    - done.
    - rewrite Hl2, Hr2, Hl1, Hr1, Hid1, Huid1. simpl.
      rewrite <- !app_assoc, list_insert_insert_eq. done. }
  - intros o w rid r fb Hfb Hc Hr. unfold initNative, all_in, cleanup, new_session.
    unfold_monad. simpl. rewrite Hfb. simpl. rewrite Hc. simpl. rewrite Hr. simpl.
    rewrite length_insert, <- app_assoc. split; [done|]. split; [|done].
    by exists (tasks r).
  - intros w sid s Hs Hv Hp.
    unfold click, initPopupAppSwitch, openNativePopup. unfold_monad. simpl.
    rewrite Hs, Hv. simpl. rewrite Hp. simpl.
    match goal with
    | |- context [clean_register env ?t ?w1] =>
        pose proof (clean_register_registers env t w1) as Hreg;
        destruct (clean_register_frame env t w1) as [_ Hlog];
        destruct (clean_register env t w1) as [[] w2]
    end.
    simpl in *. split; [done|]. split.
    + destruct Hlog as [-> | ->].
      * exists []. rewrite <- !app_assoc. by split; [|left].
      * eexists. rewrite <- !app_assoc. by split; [|right].
    + eapply registers_span; [exact Hreg|..]; simpl; try done.
      by rewrite !teardowns_app, !app_nil_r.
  - intros w sid s Hs [Hv | [Hv [e He]]].
    + rewrite (click_qr_path env sid w s Hs Hv), click_catch_teardowns. simpl.
      rewrite teardowns_app. unfold qr_shown_events. simpl.
      rewrite app_nil_r. reflexivity.
    + rewrite (click_popup_throws env sid w s e Hs Hv He), click_catch_teardowns.
      simpl. rewrite teardowns_app. simpl. rewrite app_nil_r. reflexivity.
Qed.

Lemma initNative_tears_down_previous_session_witness :
  registries
    (snd (initNative working_env (sample_options "paypal" (Some "firebase"))
            (run working_env
               [SInit (sample_options "paypal" (Some "firebase"));
                SClick 0; SDetectAppSwitch 0] sample_world)))
  = [{| tasks := []; cleaned := true |}; {| tasks := []; cleaned := false |}]
  ∧ registries
      (snd (click working_env 0
              (run working_env
                 [SInit (sample_options "paypal" (Some "firebase"));
                  SClick 0] sample_world)))
    = [{| tasks := [PopupCancel 0; PopupCancel 1]; cleaned := false |}]
  ∧ teardowns
      (log (snd (click working_env 0
                   (run working_env
                      [SInit (sample_options "venmo" (Some "firebase"));
                       SInit (sample_options "paypal" (Some "firebase"));
                       SClick 1] sample_world))))
    = [PopupCancel 0]
  ∧ registries
      (snd (click working_env 0
              (snd (click working_env 0
                      (run working_env
                         [SInit (sample_options "paypal" (Some "firebase"))]
                         sample_world)))))
    = [{| tasks := [PopupCancel 0; PopupCancel 1]; cleaned := false |}].
Proof.
  destruct (initNative_tears_down_previous_session working_env)
    as (Hinit & Hclick & Hfail & Htwo).
  split; [|split; [|split]]; cycle 3.
  { destruct (Htwo (run working_env
                      [SInit (sample_options "paypal" (Some "firebase"))]
                      sample_world)
                0%nat _ 0%nat {| tasks := []; cleaned := false |}
                eq_refl eq_refl eq_refl eq_refl eq_refl eq_refl eq_refl)
      as [_ ->].
    reflexivity. }
  - destruct (Hinit (sample_options "paypal" (Some "firebase"))
                (run working_env
                   [SInit (sample_options "paypal" (Some "firebase"));
                    SClick 0; SDetectAppSwitch 0] sample_world)
                0%nat {| tasks := [PopupCancel 0; ConnectionCancel 1];
                         cleaned := false |}
                "firebase" eq_refl eq_refl eq_refl) as (_ & _ & -> & _).
    reflexivity.
  - destruct (Hclick (run working_env
                        [SInit (sample_options "paypal" (Some "firebase"));
                         SClick 0] sample_world)
                0%nat _ eq_refl eq_refl eq_refl) as (_ & _ & Hreg).
    destruct (Hreg 0%nat {| tasks := [PopupCancel 0]; cleaned := false |}
                eq_refl eq_refl) as [-> _].
    reflexivity.
  - rewrite (Hfail (run working_env
                      [SInit (sample_options "venmo" (Some "firebase"));
                       SInit (sample_options "paypal" (Some "firebase"));
                       SClick 1] sample_world)
               0%nat _ eq_refl (or_introl eq_refl)).
    reflexivity.
Defined.
